(** * Sound-Explores front end: a shallow embedding of its UI logic

    The development follows the JavaScript sources
      - [src/components/Sounds/SoundList.jsx]   (module [SoundList]),
      - [src/pages/auth/SignUp.jsx], in its two revisions
        (modules [SignUp] and [SignUpSimplified]),
      - [src/hooks/useConnections.js]           (module [Connections]).

    Conventions.
      - A JavaScript string is a sequence of UTF-16 code units.  The model
        covers the code units below 256 (Latin-1), one [ascii] each; both
        [toLowerCase] and the regular-expression class [\s] map that range
        into itself.
      - A finite JavaScript number is the rational value of a double; the
        division and the multiplication of [formatDuration] and of the
        percentage round to the nearest double.  Integers are printed in
        decimal digits, as JavaScript prints them below 1e21.
      - React state is a record; a handler is a function from the state
        before to the state after.
      - Side effects (toasts, console output, HTTP requests, [setError]
        calls, timers) are logged as lists of events.
      - What the browser or the back end decides (which audio event fires
        first, whether a request succeeds) is an explicit argument. *)

From Stdlib Require Import String Ascii List ZArith NArith QArith Qround.
From Stdlib Require Import Lia Bool Arith DecimalString DecimalPos.
From Stdlib Require SpecFloat.
From Equations Require Import Equations.
Import ListNotations.

Close Scope Q_scope.
Open Scope list_scope.
Open Scope string_scope.

(* ===================================================================== *)
(** ** JavaScript primitives                                              *)
(* ===================================================================== *)

Module JS.

(** Code unit of a character. *)
Definition code (c : ascii) : N := N_of_ascii c.

(** [WhiteSpace] and [LineTerminator] code points below 256: TAB, LF, VT,
    FF, CR, SPACE and NO-BREAK SPACE.  This is what [\s] matches and what
    [String.prototype.trim] removes. *)
Definition isWhiteSpace (c : ascii) : bool :=
  let n := code c in
  ((9 <=? n) && (n <=? 13) || (n =? 32) || (n =? 160))%N.

(** [toLowerCase] on one code unit: A-Z, and the Latin-1 capitals
    U+00C0..U+00DE without the multiplication sign U+00D7, move up by 32. *)
Definition toLowerChar (c : ascii) : ascii :=
  let n := code c in
  if ((65 <=? n) && (n <=? 90)
      || (192 <=? n) && (n <=? 222) && negb (n =? 215))%N
  then ascii_of_N (n + 32)
  else c.

Fixpoint toLowerCase (s : string) : string :=
  match s with
  | EmptyString => EmptyString
  | String c s' => String (toLowerChar c) (toLowerCase s')
  end.

(** [s.replace(/\s+/g, "")]: every maximal run of white space is replaced
    by the empty string. *)
Fixpoint replaceWhitespace (s : string) : string :=
  match s with
  | EmptyString => EmptyString
  | String c s' =>
      if isWhiteSpace c then replaceWhitespace s'
      else String c (replaceWhitespace s')
  end.

Fixpoint trimStart (s : string) : string :=
  match s with
  | EmptyString => EmptyString
  | String c s' => if isWhiteSpace c then trimStart s' else s
  end.

Fixpoint trimEnd (s : string) : string :=
  match s with
  | EmptyString => EmptyString
  | String c s' =>
      match trimEnd s' with
      | EmptyString => if isWhiteSpace c then EmptyString
                       else String c EmptyString
      | t => String c t
      end
  end.

Definition trim (s : string) : string := trimEnd (trimStart s).

(** [s.startsWith(p)] and [s.includes(sub)]. *)
Fixpoint startsWith (s p : string) {struct p} : bool :=
  match p, s with
  | EmptyString, _ => true
  | String _ _, EmptyString => false
  | String a p', String b s' => Ascii.eqb a b && startsWith s' p'
  end.

Fixpoint includes (s sub : string) : bool :=
  startsWith s sub ||
  match s with
  | EmptyString => false
  | String _ s' => includes s' sub
  end.

(** [Array.prototype.includes] on an array of strings. *)
Definition arrayIncludes (l : list string) (x : string) : bool :=
  existsb (String.eqb x) l.

(** ToBoolean on a string: only the empty string is falsy. *)
Definition truthyString (s : string) : bool :=
  negb (String.eqb s EmptyString).

(** A property that is a string or absent ([undefined]). *)
Definition truthyOpt (o : option string) : bool :=
  match o with
  | Some s => truthyString s
  | None => false
  end.

(** [o || fallback] for such a property. *)
Definition orElse (o : option string) (fallback : string) : string :=
  match o with
  | Some s => if truthyString s then s else fallback
  | None => fallback
  end.

(** [Number.prototype.toString] on a integer value (below 1e21, where
    JavaScript prints plain decimal digits). *)
Definition intToString (z : Z) : string :=
  NilZero.string_of_int (Z.to_int z).

(** [padString] repeated and cut to [n] code units. *)
Fixpoint fill (fuel n : nat) (padString cur : string) : string :=
  match n with
  | O => EmptyString
  | S n' =>
      match cur with
      | String c cur' => String c (fill fuel n' padString cur')
      | EmptyString =>
          match fuel, padString with
          | S fuel', String c rest => String c (fill fuel' n' padString rest)
          | _, _ => EmptyString
          end
      end
  end.

(** [s.padStart(targetLength, padString)]. *)
Definition padStart (s : string) (targetLength : nat) (padString : string)
  : string :=
  if (targetLength <=? String.length s)%nat then s
  else
    match padString with
    | EmptyString => s
    | _ => let n := (targetLength - String.length s)%nat in
           fill n n padString padString ++ s
    end.

(** Numbers: a finite number is the rational value of a double, next to
    NaN and the two infinities.  The zero has no sign. *)
Inductive number : Type :=
| Finite (q : Q)
| NaN
| Infinity (negative : bool).

(** The finite doubles are the multiples m * 2^E of 2^-1074 with m below
    2^53 and E from 0 to 2045.  [ulpMin] is 1 / Number.MIN_VALUE, the
    number of such units in 1. *)
Definition ulpMin : Z := 2 ^ 1074.

(** The integer nearest to a / b, for b > 0; at a tie the even one. *)
Definition roundHalfEven (a b : Z) : Z :=
  let t := (a / b)%Z in
  match (2 * (a mod b) ?= b)%Z with
  | Lt => t
  | Gt => (t + 1)%Z
  | Eq => if Z.even t then t else (t + 1)%Z
  end.

(** The exponent E of the binade of a / b >= 0: around a / b the doubles
    are 2^E units apart (one unit below 2^-1021, where they are
    subnormal). *)
Definition exponentOf (a b : Z) : Z :=
  Z.max (Z.log2 (a * ulpMin / b) - 52) 0.

(** roundTiesToEven of a / b >= 0, counted in units. *)
Definition roundUnits (a b : Z) : Z :=
  let E := exponentOf a b in
  (roundHalfEven (a * ulpMin) (b * 2 ^ E) * 2 ^ E)%Z.

(** The Number value of a rational: the nearest double, the one with the
    even significand at a tie, and an infinity from 2^1024 on.  This is how
    [/] and [*] round their exact result. *)
Definition roundDouble (q : Q) : number :=
  let u := roundUnits (Z.abs (Qnum q)) (Z.pos (Qden q)) in
  if (2 ^ 1024 * ulpMin <=? u)%Z then Infinity (Qnum q <? 0)%Z
  else Finite ((Z.sgn (Qnum q) * u) # Z.to_pos ulpMin).

(** A rational is (the value of) a double when rounding leaves it as it
    is. *)
Definition isDouble (q : Q) : bool :=
  match roundDouble q with
  | Finite r => Qeq_bool r q
  | _ => false
  end.

(** A number whose value is an integer or not finite, as [Math.floor]
    returns it. *)
Inductive integral : Type :=
| IInt (z : Z)
| INaN
| IInfinity (negative : bool).

Definition floor (x : number) : integral :=
  match x with
  | Finite q => IInt (Qfloor q)
  | NaN => INaN
  | Infinity b => IInfinity b
  end.

(** [x / d] for a finite positive divisor [d]: the exact quotient,
    rounded. *)
Definition divPos (x : number) (d : positive) : number :=
  match x with
  | Finite q => roundDouble (q / inject_Z (Z.pos d))%Q
  | NaN => NaN
  | Infinity b => Infinity b
  end.

(** [x * d] for a finite positive factor [d]: the exact product, rounded. *)
Definition mulPos (x : number) (d : positive) : number :=
  match x with
  | Finite q => roundDouble (q * inject_Z (Z.pos d))%Q
  | NaN => NaN
  | Infinity b => Infinity b
  end.

(** Truncation towards zero of a rational. *)
Definition Qtrunc (q : Q) : Z :=
  if Qle_bool 0%Q q then Qfloor q else Qceiling q.

(** [x % d] for a finite positive divisor [d]: the remainder has the sign
    of the dividend; it is NaN when the dividend is not finite.  The
    remainder of two doubles is a double: [%] does not round. *)
Definition remPos (x : number) (d : positive) : number :=
  match x with
  | Finite q =>
      Finite (q - inject_Z (Z.pos d * Qtrunc (q / inject_Z (Z.pos d))))%Q
  | NaN => NaN
  | Infinity _ => NaN
  end.

Definition integralToString (x : integral) : string :=
  match x with
  | IInt z => intToString z
  | INaN => "NaN"
  | IInfinity false => "Infinity"
  | IInfinity true => "-Infinity"
  end.

(** Values a loosely typed property may hold. *)
Inductive value : Type :=
| VUndefined
| VNull
| VBool (b : bool)
| VNum (z : Z)
| VStr (s : string).

(** ToBoolean. *)
Definition truthy (v : value) : bool :=
  match v with
  | VUndefined | VNull => false
  | VBool b => b
  | VNum z => negb (z =? 0)%Z
  | VStr s => truthyString s
  end.

(** ToString. *)
Definition toString (v : value) : string :=
  match v with
  | VUndefined => "undefined"
  | VNull => "null"
  | VBool true => "true"
  | VBool false => "false"
  | VNum z => intToString z
  | VStr s => s
  end.

(** The double-quote character, as a string. *)
Definition dquote : string := String (ascii_of_nat 34) EmptyString.

Definition isDigit (c : ascii) : bool :=
  let n := code c in ((48 <=? n) && (n <=? 57))%N.

Fixpoint allChars (p : ascii -> bool) (s : string) : bool :=
  match s with
  | EmptyString => true
  | String c s' => p c && allChars p s'
  end.

End JS.

(* ===================================================================== *)
(** ** src/components/Sounds/SoundList.jsx                                *)
(* ===================================================================== *)

Module SoundList.

(** A sound as the component keeps it (the object built in the effect on
    [soundsData]).  [duration] is [None] when the property is missing. *)
Record sound : Type := mkSound {
  id : string;
  name : string;
  description : string;
  category : string;
  isPremium : bool;
  link : string;
  duration : option string;
  selected : bool;
  isPlaying : bool
}.

(** [{ ...sound, selected: b }] *)
Definition withSelected (b : bool) (s : sound) : sound :=
  mkSound (id s) (name s) (description s) (category s) (isPremium s)
          (link s) (duration s) b (isPlaying s).

(** [sound.duration = d] *)
Definition withDuration (d : string) (s : sound) : sound :=
  mkSound (id s) (name s) (description s) (category s) (isPremium s)
          (link s) (Some d) (selected s) (isPlaying s).

(** The share payload kept in [shareData]. *)
Record sharePayload : Type := mkShare {
  shareTitle : string;
  shareText : string;
  shareUrl : string
}.

(** The [useState] cells of the component. *)
Record state : Type := mkState {
  sounds : list sound;
  filteredSounds : list sound;
  searchTerm : string;
  isLoading : bool;
  currentlyPlayingId : option string;
  selectedSounds : list string;
  isAddModalOpen : bool;
  isDeleteModalOpen : bool;
  currentPage : Z;
  totalPages : Z;
  limit : Z;
  isShareModalOpen : bool;
  shareData : option sharePayload
}.

Definition setSounds (l : list sound) (st : state) : state :=
  mkState l (filteredSounds st) (searchTerm st) (isLoading st)
          (currentlyPlayingId st) (selectedSounds st) (isAddModalOpen st)
          (isDeleteModalOpen st) (currentPage st) (totalPages st)
          (limit st) (isShareModalOpen st) (shareData st).

Definition setFilteredSounds (l : list sound) (st : state) : state :=
  mkState (sounds st) l (searchTerm st) (isLoading st)
          (currentlyPlayingId st) (selectedSounds st) (isAddModalOpen st)
          (isDeleteModalOpen st) (currentPage st) (totalPages st)
          (limit st) (isShareModalOpen st) (shareData st).

Definition setCurrentPage (p : Z) (st : state) : state :=
  mkState (sounds st) (filteredSounds st) (searchTerm st) (isLoading st)
          (currentlyPlayingId st) (selectedSounds st) (isAddModalOpen st)
          (isDeleteModalOpen st) p (totalPages st)
          (limit st) (isShareModalOpen st) (shareData st).

(** The state of a freshly mounted component. *)
Definition initialState : state :=
  mkState [] [] "" true None [] false false 1 1 1000 false None.

(* ------------------------------------------------------------------- *)
(** *** formatDuration                                                  *)

Definition formatDuration (seconds : JS.number) : string :=
  let minutes := JS.floor (JS.divPos seconds 60) in
  let remainingSeconds := JS.floor (JS.remPos seconds 60) in
  JS.padStart (JS.integralToString minutes) 2 "0"
    ++ ":" ++
  JS.padStart (JS.integralToString remainingSeconds) 2 "0".

(* ------------------------------------------------------------------- *)
(** *** loadAudioDurations                                              *)

Definition BATCH_SIZE : nat := 5.

(** Delay passed to [setTimeout], in milliseconds. *)
Definition TIMEOUT_MS : Z := 5000.

(** Which of the three callbacks of an item runs.  Each of them removes
    the other two (listeners removed, [clearTimeout]), so exactly one
    runs, and the timer makes sure one does. *)
Inductive outcome : Type :=
| LoadedMetadata (audioDuration : JS.number)
| AudioError
| TimeoutFired.

(** [sound.duration && sound.duration !== "00:00"] *)
Definition hasDuration (s : sound) : bool :=
  match duration s with
  | Some d => JS.truthyString d && negb (String.eqb d "00:00")
  | None => false
  end.

(** An item whose promise waits for the audio element: what the closure
    of its executor holds. *)
Record pending : Type := mkPending {
  index : nat;
  item : sound;
  audioUrl : string;
  timeoutMs : Z
}.

(** [a[i].duration = d]; the index is in range wherever the code does
    it (out of range the model leaves the array as it is). *)
Fixpoint setDurationAt (i : nat) (d : string) (a : list sound)
  : list sound :=
  match a, i with
  | [], _ => []
  | s :: a', O => withDuration d s :: a'
  | s :: a', S i' => s :: setDurationAt i' d a'
  end.

(** The callback that runs for item [i]. *)
Definition settle (i : nat) (o : outcome) (a : list sound) : list sound :=
  match o with
  | LoadedMetadata d => setDurationAt i (formatDuration d) a
  | AudioError => setDurationAt i "00:00" a
  | TimeoutFired => setDurationAt i "00:00" a
  end.

(** [soundsWithDurations.slice(i, i + BATCH_SIZE)] *)
Definition slice (i n : nat) (a : list sound) : list sound :=
  firstn n (skipn i a).

(** The executor of [batch.map((sound, batchIndex) => new Promise(...))]:
    items that have a duration resolve at once, the others create an
    audio element and arm a timer. *)
Fixpoint createPromises (assetsUrl : string) (i : nat) (batch : list sound)
  : list pending :=
  match batch with
  | [] => []
  | s :: rest =>
      if hasDuration s then createPromises assetsUrl (S i) rest
      else mkPending i s (assetsUrl ++ link s) TIMEOUT_MS
             :: createPromises assetsUrl (S i) rest
  end.

(** [await Promise.all(promises)]: every pending item is settled by the
    callback the environment picks for it.  The callbacks write disjoint
    cells, so the order in which they run does not show. *)
Definition awaitAll (env : nat -> outcome) (ps : list pending)
           (a : list sound) : list sound :=
  fold_left (fun acc p => settle (index p) (env (index p)) acc) ps a.

(** The lines [onError] writes with [console.error]. *)
Definition consoleErrors (env : nat -> outcome) (ps : list pending)
  : list string :=
  flat_map (fun p => match env (index p) with
                     | AudioError =>
                         ["Error loading audio for " ++ name (item p)]
                     | _ => []
                     end) ps.

(** What one turn of the [for] loop did. *)
Record batchLog : Type := mkBatchLog {
  batchStart : nat;
  batchItems : list sound;
  armed : list pending;
  logged : list string;
  published : list sound (* argument of setSounds and setFilteredSounds *)
}.

Definition batchIndices (b : batchLog) : list nat :=
  seq (batchStart b) (length (batchItems b)).

Lemma setDurationAt_length i d a :
  length (setDurationAt i d a) = length a.
Proof.
  revert i; induction a as [|s a IH]; intros [|i]; simpl; auto.
Qed.

Lemma settle_length i o a : length (settle i o a) = length a.
Proof. destruct o; apply setDurationAt_length. Qed.

Lemma awaitAll_length env ps a : length (awaitAll env ps a) = length a.
Proof.
  unfold awaitAll; revert a; induction ps as [|p ps IH]; intros a; simpl.
  - reflexivity.
  - rewrite IH; apply settle_length.
Qed.

(** The [for] loop, from index [i] on. *)
Equations loop (assetsUrl : string) (env : nat -> outcome)
          (i : nat) (a : list sound)
  : list sound * list batchLog by wf (length a - i) lt :=
  loop assetsUrl env i a with lt_dec i (length a) := {
    | left _ =>
        let batch := slice i BATCH_SIZE a in
        let ps := createPromises assetsUrl i batch in
        let a' := awaitAll env ps a in
        let r := loop assetsUrl env (i + BATCH_SIZE) a' in
        (fst r, mkBatchLog i batch ps (consoleErrors env ps) a' :: snd r)
    | right _ => (a, [])
    }.
Next Obligation.
  rewrite awaitAll_length. unfold BATCH_SIZE. lia.
Qed.

(** [loadAudioDurations(soundsList)]: the returned array and the log of
    the batches.  The elements of [soundsList] are distinct objects, as the
    effect that calls the function builds them. *)
Definition loadAudioDurations (assetsUrl : string) (env : nat -> outcome)
           (soundsList : list sound) : list sound * list batchLog :=
  loop assetsUrl env 0 soundsList.

(** The component state after the last [setSounds]/[setFilteredSounds]
    of a run. *)
Definition publish (log : list batchLog) (st : state) : state :=
  fold_left (fun acc b =>
               setFilteredSounds (published b) (setSounds (published b) acc))
            log st.

(* ------------------------------------------------------------------- *)
(** *** applySearch, handleSearch, handlePageChange                     *)

Definition matchesTerm (term : string) (s : sound) : bool :=
  JS.includes (JS.toLowerCase (name s)) (JS.toLowerCase term).

Definition applySearch (term : string) (soundList : list sound)
           (st : state) : state :=
  if negb (JS.truthyString term) || negb (JS.truthyString (JS.trim term))
  then setFilteredSounds soundList st
  else setFilteredSounds (filter (matchesTerm term) soundList) st.

Definition handlePageChange (page : Z) (st : state) : state :=
  setCurrentPage page st.

(* ------------------------------------------------------------------- *)
(** *** toggleSelect                                                    *)

Definition hasId (i : string) (s : sound) : bool := String.eqb (id s) i.

Definition toggleSelect (isAdmin : bool) (i : string) (st : state)
  : state :=
  if isAdmin then
    let updatedSounds :=
      map (fun s => if hasId i s then withSelected (negb (selected s)) s
                    else s) (sounds st) in
    applySearch (searchTerm st) updatedSounds (setSounds updatedSounds st)
  else
    let soundToUpdate := find (hasId i) (sounds st) in
    if match soundToUpdate with
       | Some s => selected s
       | None => false
       end
    then
      let updatedSounds :=
        map (fun s => if hasId i s then withSelected false s else s)
            (sounds st) in
      applySearch (searchTerm st) updatedSounds (setSounds updatedSounds st)
    else
      let updatedSounds :=
        map (fun s => if hasId i s then withSelected true s
                      else withSelected false s) (sounds st) in
      applySearch (searchTerm st) updatedSounds (setSounds updatedSounds st).

(** A run of [toggleSelect] calls, each on the state the previous one
    left. *)
Definition toggleMany (isAdmin : bool) (ids : list string) (st : state)
  : state :=
  fold_left (fun acc i => toggleSelect isAdmin i acc) ids st.

(* ------------------------------------------------------------------- *)
(** *** downloadSound                                                   *)

(** What [response.blob()] does: the data, or it throws. *)
Inductive bodyOutcome : Type :=
| Blob (data : string)
| BlobRejected (message : string).

(** What [fetch] does: it throws, or it returns a response. *)
Inductive fetchOutcome : Type :=
| FetchRejected (message : string)
| Response (ok : bool) (body : bodyOutcome).

Inductive effect : Type :=
| ToastError (message : string)
| ToastSuccess (message : string)
| ConsoleError (label : string) (message : string)
| Fetch (url : string)
| SaveAs (fileName : string).

Definition downloadSound (isSubscribed : bool) (assetsUrl : string)
           (net : string -> fetchOutcome) (s : sound) : list effect :=
  if negb isSubscribed then
    [ToastError "Please upgrade to premium to download sounds!"]
  else
    let audioUrl := assetsUrl ++ link s in
    let caught (message : string) :=
      [ConsoleError "Download error:" message;
       ToastError "Failed to download sound. Please try again."] in
    Fetch audioUrl ::
    match net audioUrl with
    | FetchRejected message => caught message
    | Response false _ => caught "Download failed"
    | Response true (BlobRejected message) => caught message
    | Response true (Blob _) =>
        [SaveAs (name s ++ ".mp3");
         ToastSuccess (JS.dquote ++ name s ++ JS.dquote
                       ++ " downloaded successfully!")]
    end.

(** The messages of the error toasts among the effects. *)
Definition errorToasts (es : list effect) : list string :=
  flat_map (fun e => match e with ToastError m => [m] | _ => [] end) es.

(** The requests among the effects. *)
Definition fetches (es : list effect) : list string :=
  flat_map (fun e => match e with Fetch u => [u] | _ => [] end) es.

End SoundList.

(* ===================================================================== *)
(** ** Form plumbing shared by the two revisions of SignUp.jsx            *)
(* ===================================================================== *)

Module Form.

(** A validation issue of the schema: the field and the message. *)
Record issue : Type := mkIssue {
  issueField : string;
  issueMessage : string
}.

(** [z.string().min(n, message)] on a string. *)
Definition minLength (n : nat) (message : string) (field s : string)
  : list issue :=
  if (String.length s <? n)%nat then [mkIssue field message] else [].

(** [z.string().email(message)]; the pattern is the library's. *)
Definition emailCheck (isEmail : string -> bool) (message : string)
           (field s : string) : list issue :=
  if isEmail s then [] else [mkIssue field message].

(** [.refine(pred, { message })] *)
Definition refine (pred : string -> bool) (message : string)
           (field s : string) : list issue :=
  if pred s then [] else [mkIssue field message].

(** [z.literal(true, { errorMap: () => ({ message }) })]: the value has to
    be the boolean [true] itself. *)
Definition literalTrue (message : string) (field : string) (v : JS.value)
  : list issue :=
  match v with
  | JS.VBool true => []
  | _ => [mkIssue field message]
  end.

(** The resolver reports, for each field, the first issue of that field. *)
Definition fieldError (issues : list issue) (field : string)
  : option string :=
  match find (fun i => String.eqb (issueField i) field) issues with
  | Some i => Some (issueMessage i)
  | None => None
  end.

(** One element of [error.response.data.errors]. [path] may be missing, a
    string or an array of strings. *)
Inductive pathValue : Type :=
| NoPath
| PathString (s : string)
| PathArray (l : list string).

Record backendError : Type := mkBackendError {
  path : pathValue;
  message : option string
}.

(** [err.path && err.path.includes(x)] *)
Definition pathIncludes (p : pathValue) (x : string) : bool :=
  match p with
  | NoPath => false
  | PathString s => JS.truthyString s && JS.includes s x
  | PathArray l => JS.arrayIncludes l x
  end.

(** What [await signUp(...)] does: it returns, or it throws an error whose
    [response?.data?.errors] is an array or is absent. *)
Inductive signUpOutcome : Type :=
| Resolved
| Rejected (errors : option (list backendError)).

(** A call [setError(field, { type, message })]. *)
Record setErrorCall : Type := mkSetError {
  errField : string;
  errType : string;
  errMessage : string
}.

(** [formState.errors] after a run of [setError] calls: a later call for a
    field replaces an earlier one. *)
Definition errorsAfter (calls : list setErrorCall) (field : string)
  : option string :=
  match find (fun c => String.eqb (errField c) field) (rev calls) with
  | Some c => Some (errMessage c)
  | None => None
  end.

End Form.

(* ===================================================================== *)
(** ** src/pages/auth/SignUp.jsx (full form: name, phone, email, ...)     *)
(* ===================================================================== *)

Module SignUp.

Import Form.

Record values : Type := mkValues {
  fullName : string;
  phone : string;
  email : string;
  password : string;
  agreeToTerms : JS.value
}.

(** Issues of [signUpSchema.safeParse(v)], in the order of the keys.  The
    refinement on [phone] runs also when [min(1)] has failed. *)
Definition signUpSchema (isEmail isValidPhoneNumber : string -> bool)
           (v : values) : list issue :=
  (minLength 2 "Name is required" "fullName" (fullName v)
   ++ (minLength 1 "Phone number is required" "phone" (phone v)
       ++ refine isValidPhoneNumber
            "Please enter a valid phone number with country code"
            "phone" (phone v))
   ++ emailCheck isEmail "Invalid email address" "email" (email v)
   ++ minLength 6 "Password must be at least 6 characters"
        "password" (password v)
   ++ literalTrue "You must agree to the terms" "agreeToTerms"
        (agreeToTerms v))%list.

Definition accepts (isEmail isValidPhoneNumber : string -> bool)
           (v : values) : bool :=
  match signUpSchema isEmail isValidPhoneNumber v with
  | [] => true
  | _ => false
  end.

Inductive effect : Type :=
| ConsoleLog (label : string) (data : values)
| SignUpCalled (data : values)
| SetError (call : setErrorCall).

(** The callback of [errors.forEach]. *)
Definition mapBackendError (err : backendError) : list setErrorCall :=
  if pathIncludes (path err) "phone"
  then [mkSetError "phone" "manual"
          (JS.orElse (message err) "Invalid phone number format")]
  else [].

Definition onSubmit (signUp : values -> signUpOutcome) (data : values)
  : list effect :=
  (ConsoleLog "Create new user::" data
   :: SignUpCalled data
   :: match signUp data with
      | Resolved => []
      | Rejected None => []
      | Rejected (Some errors) =>
          map SetError (flat_map mapBackendError errors)
      end)%list.

(** The [setError] calls among the effects, in their order. *)
Definition setErrorCalls (es : list effect) : list setErrorCall :=
  flat_map (fun e => match e with SetError c => [c] | _ => [] end) es.

(** The arguments of the calls of [signUp]. *)
Definition signUpCalls (es : list effect) : list values :=
  flat_map (fun e => match e with SignUpCalled d => [d] | _ => [] end) es.

(** [handleSubmit(onSubmit)]: the resolver runs first; [onSubmit] is called
    with the parsed data only when there is no issue.  The result is the
    list of validation issues and the effects of [onSubmit]. *)
Definition handleSubmit (isEmail isValidPhoneNumber : string -> bool)
           (signUp : values -> signUpOutcome) (v : values)
  : list issue * list effect :=
  match signUpSchema isEmail isValidPhoneNumber v with
  | [] => ([], onSubmit signUp v)
  | issues => (issues, [])
  end.

End SignUp.

(* ===================================================================== *)
(** ** src/pages/auth/SignUp.jsx, simplified revision                     *)
(* ===================================================================== *)

Module SignUpSimplified.

Import Form.

Record values : Type := mkValues {
  email : string;
  password : string;
  agreeToTerms : JS.value
}.

(** [val.replace(/\s+/g, "").toLowerCase()] *)
Definition normalizeEmail (val : string) : string :=
  JS.toLowerCase (JS.replaceWhitespace val).

Definition schemaIssues (isEmail : string -> bool) (v : values)
  : list issue :=
  (emailCheck isEmail "Invalid email address" "email" (email v)
   ++ minLength 6 "Password must be at least 6 characters"
        "password" (password v)
   ++ literalTrue "You must agree to the terms" "agreeToTerms"
        (agreeToTerms v))%list.

(** [signUpSchema.safeParse(v)]: the issues, or the parsed data, in which
    the email went through the transform. *)
Definition signUpSchema (isEmail : string -> bool) (v : values)
  : list issue + values :=
  match schemaIssues isEmail v with
  | [] => inr (mkValues (normalizeEmail (email v)) (password v)
                        (agreeToTerms v))
  | issues => inl issues
  end.

Definition accepts (isEmail : string -> bool) (v : values) : bool :=
  match signUpSchema isEmail v with
  | inr _ => true
  | inl _ => false
  end.

Inductive effect : Type :=
| SignUpCalled (submitData : values)
| SetError (call : setErrorCall).

(** The callback of [errors.forEach]: two independent tests. *)
Definition mapBackendError (err : backendError) : list setErrorCall :=
  ((if pathIncludes (path err) "email"
    then [mkSetError "email" "manual"
            (JS.orElse (message err) "Invalid email format")]
    else [])
   ++
   (if pathIncludes (path err) "password"
    then [mkSetError "password" "manual"
            (JS.orElse (message err) "Invalid password format")]
    else []))%list.

Definition onSubmit (signUp : values -> signUpOutcome) (data : values)
  : list effect :=
  let submitData :=
    mkValues (normalizeEmail (email data)) (password data)
             (agreeToTerms data) in
  (SignUpCalled submitData
   :: match signUp submitData with
      | Resolved => []
      | Rejected None => []
      | Rejected (Some errors) =>
          map SetError (flat_map mapBackendError errors)
      end)%list.

(** The [setError] calls among the effects, in their order. *)
Definition setErrorCalls (es : list effect) : list setErrorCall :=
  flat_map (fun e => match e with SetError c => [c] | _ => [] end) es.

(** The arguments of the calls of [signUp]. *)
Definition signUpCalls (es : list effect) : list values :=
  flat_map (fun e => match e with SignUpCalled d => [d] | _ => [] end) es.

(** [handleSubmit(onSubmit)] with the schema as resolver. *)
Definition handleSubmit (isEmail : string -> bool)
           (signUp : values -> signUpOutcome) (v : values)
  : list issue * list effect :=
  match signUpSchema isEmail v with
  | inr data => ([], onSubmit signUp data)
  | inl issues => (issues, [])
  end.

End SignUpSimplified.

(* ===================================================================== *)
(** ** src/hooks/useConnections.js: useGetAllUsers                        *)
(* ===================================================================== *)

Module Connections.

Record filters : Type := mkFilters {
  search : JS.value;
  page : JS.value;
  limit : JS.value
}.

(** [filters = {}] *)
Definition noFilters : filters :=
  mkFilters JS.VUndefined JS.VUndefined JS.VUndefined.

(** A [URLSearchParams] object: its list of name-value pairs. *)
Definition searchParams : Type := list (string * string).

(** [params.append(name, value)]; the value goes through ToString. *)
Definition append (name : string) (v : JS.value) (params : searchParams)
  : searchParams :=
  (params ++ [(name, JS.toString v)])%list.

Definition hexDigit (n : N) : ascii :=
  if (n <? 10)%N then ascii_of_N (48 + n) else ascii_of_N (55 + n).

Definition percentByte (b : N) : string :=
  String "%" (String (hexDigit (b / 16)) (String (hexDigit (b mod 16))
    EmptyString)).

(** application/x-www-form-urlencoded byte serializer on one code unit:
    space becomes [+]; letters, digits, [*], [-], [.] and [_] stay; every
    other byte of the UTF-8 encoding is percent-encoded. *)
Definition encodeChar (c : ascii) : string :=
  let n := JS.code c in
  if (n =? 32)%N then "+"
  else if ((48 <=? n) && (n <=? 57) || (65 <=? n) && (n <=? 90)
           || (97 <=? n) && (n <=? 122)
           || (n =? 42) || (n =? 45) || (n =? 46) || (n =? 95))%N
  then String c EmptyString
  else if (n <? 128)%N then percentByte n
  else percentByte (192 + n / 64) ++ percentByte (128 + n mod 64).

Fixpoint urlencode (s : string) : string :=
  match s with
  | EmptyString => EmptyString
  | String c s' => encodeChar c ++ urlencode s'
  end.

(** [params.toString()] *)
Fixpoint serialize (params : searchParams) : string :=
  match params with
  | [] => EmptyString
  | [(k, v)] => urlencode k ++ "=" ++ urlencode v
  | (k, v) :: rest => urlencode k ++ "=" ++ urlencode v ++ "&" ++ serialize rest
  end.

(** The three conditional [append]s of the query function. *)
Definition buildParams (f : filters) : searchParams :=
  let params := [] in
  let params := if JS.truthy (search f)
                then append "search" (search f) params else params in
  let params := if JS.truthy (page f)
                then append "page" (page f) params else params in
  let params := if JS.truthy (limit f)
                then append "limit" (limit f) params else params in
  params.

(** [params.toString() ? `?${params.toString()}` : ""] *)
Definition queryString (f : filters) : string :=
  let s := serialize (buildParams f) in
  if JS.truthyString s then "?" ++ s else EmptyString.

Definition requestUrl (f : filters) : string :=
  "/user/get-all-user" ++ queryString f.

(** What [apiClient.get] does: a response, or an error with its
    [response?.data?.message]. *)
Inductive apiResult : Type :=
| ApiResponse (body : string)
| ApiFailure (backendMessage : option string).

Inductive effect : Type :=
| HttpGet (url : string)
| ConsoleError (label : string)
| ToastError (message : string).

(** The [onError] callback of the query. *)
Definition onError (backendMessage : option string) : list effect :=
  [ConsoleError "Error fetching users:";
   ToastError (JS.orElse backendMessage "Failed to fetch users")].

(** One run of the query: the request, then [onError] when it fails. *)
Definition useGetAllUsers (apiGet : string -> apiResult) (f : filters)
  : list effect * option string :=
  let url := requestUrl f in
  match apiGet url with
  | ApiResponse body => ([HttpGet url], Some body)
  | ApiFailure m => ((HttpGet url :: onError m)%list, None)
  end.

(** The messages of the error toasts among the effects. *)
Definition errorToasts (es : list effect) : list string :=
  flat_map (fun e => match e with ToastError m => [m] | _ => [] end) es.

(** The URLs requested through the HTTP client. *)
Definition requests (es : list effect) : list string :=
  flat_map (fun e => match e with HttpGet u => [u] | _ => [] end) es.

End Connections.

(* ===================================================================== *)
(** ** SoundList.jsx: playing, searching, the actions of a user           *)
(* ===================================================================== *)

Module Player.

Import SoundList.

(** [{ ...sound, isPlaying: b }] *)
Definition withPlaying (b : bool) (s : sound) : sound :=
  mkSound (id s) (name s) (description s) (category s) (isPremium s)
          (link s) (duration s) (selected s) b.

Definition setSearchTerm (term : string) (st : state) : state :=
  mkState (sounds st) (filteredSounds st) term (isLoading st)
          (currentlyPlayingId st) (selectedSounds st) (isAddModalOpen st)
          (isDeleteModalOpen st) (currentPage st) (totalPages st)
          (limit st) (isShareModalOpen st) (shareData st).

Definition setCurrentlyPlayingId (o : option string) (st : state) : state :=
  mkState (sounds st) (filteredSounds st) (searchTerm st) (isLoading st)
          o (selectedSounds st) (isAddModalOpen st)
          (isDeleteModalOpen st) (currentPage st) (totalPages st)
          (limit st) (isShareModalOpen st) (shareData st).

(** The component with its [audioRef]: [audioRef.current] is absent or the
    Audio element, which the model names by its source URL. *)
Record player : Type := mkPlayer {
  ui : state;
  audioRef : option string
}.

Inductive effect : Type :=
| ToastError (message : string)
| ConsoleError (label : string)
| Pause (src : string)
| NewAudio (src : string)
| Play (src : string).

(** What the callbacks [play().catch(...)] and [onended] of one call hold
    on to: the [sounds] and the [searchTerm] of the render in which the
    call was made. *)
Record closure : Type := mkClosure {
  capturedSounds : list sound;
  capturedTerm : string
}.

(** [if (audioRef.current) { audioRef.current.pause(); ... = null }] *)
Definition pauseCurrent (p : player) : list effect :=
  match audioRef p with
  | Some src => [Pause src]
  | None => []
  end.

(** [setSounds(l); applySearch(term, l); setCurrentlyPlayingId(o)] *)
Definition showSounds (l : list sound) (term : string) (o : option string)
           (st : state) : state :=
  setCurrentlyPlayingId o (applySearch term l (setSounds l st)).

(** [togglePlaySound(id)]: the component afterwards, the effects, and the
    closure of the callbacks when an audio element was started. *)
Definition togglePlaySound (isSubscribed : bool) (assetsUrl : string)
           (i : string) (p : player)
  : player * list effect * option closure :=
  match find (hasId i) (sounds (ui p)) with
  | None => (p, [], None)
  | Some soundToPlay =>
      if isPremium soundToPlay && negb isSubscribed then
        (p,
         [ToastError
            "This is a premium sound. Please upgrade your plan to play premium sounds!"],
         None)
      else
        let audioUrl := assetsUrl ++ link soundToPlay in
        if isPlaying soundToPlay then
          let updatedSounds := map (withPlaying false) (sounds (ui p)) in
          (mkPlayer (showSounds updatedSounds (searchTerm (ui p)) None (ui p))
                    None,
           pauseCurrent p,
           None)
        else
          let updatedSounds :=
            map (fun s => if hasId i s then withPlaying true s
                          else withPlaying false s) (sounds (ui p)) in
          (mkPlayer (showSounds updatedSounds (searchTerm (ui p)) (Some i)
                                (ui p))
                    (Some audioUrl),
           (pauseCurrent p ++ [NewAudio audioUrl; Play audioUrl])%list,
           Some (mkClosure (sounds (ui p)) (searchTerm (ui p))))
  end.

(** The callback of [audio.play().catch(...)]. *)
Definition onPlayRejected (c : closure) (p : player)
  : player * list effect :=
  let resetSounds := map (withPlaying false) (capturedSounds c) in
  (mkPlayer (showSounds resetSounds (capturedTerm c) None (ui p)) None,
   [ConsoleError "Error playing audio:"; ToastError "Failed to play audio"]).

(** [audio.onended] *)
Definition onEnded (c : closure) (p : player) : player :=
  let updatedSounds := map (withPlaying false) (capturedSounds c) in
  mkPlayer (showSounds updatedSounds (capturedTerm c) None (ui p)) None.

(** [handleSearch(e)] with [e.target.value = term]. *)
Definition handleSearch (term : string) (st : state) : state :=
  applySearch term (sounds st) (setSearchTerm term st).

(** What a user does with the list. *)
Inductive action : Type :=
| ToggleSelect (i : string)
| TogglePlay (i : string)
| Search (term : string)
| PageChange (page : Z).

Definition step (isAdmin isSubscribed : bool) (assetsUrl : string)
           (a : action) (p : player) : player :=
  match a with
  | ToggleSelect i => mkPlayer (toggleSelect isAdmin i (ui p)) (audioRef p)
  | TogglePlay i => fst (fst (togglePlaySound isSubscribed assetsUrl i p))
  | Search term => mkPlayer (handleSearch term (ui p)) (audioRef p)
  | PageChange page => mkPlayer (handlePageChange page (ui p)) (audioRef p)
  end.

Definition run (isAdmin isSubscribed : bool) (assetsUrl : string)
           (actions : list action) (p : player) : player :=
  fold_left (fun acc a => step isAdmin isSubscribed assetsUrl a acc)
            actions p.

(** What happens to the component: a user action, or a callback of an
    audio element started earlier. *)
Inductive event : Type :=
| User (a : action)
| AudioEnded (c : closure)
| PlayRejected (c : closure).

Definition stepEvent (isAdmin isSubscribed : bool) (assetsUrl : string)
           (e : event) (p : player) : player :=
  match e with
  | User a => step isAdmin isSubscribed assetsUrl a p
  | AudioEnded c => onEnded c p
  | PlayRejected c => fst (onPlayRejected c p)
  end.

Definition runEvents (isAdmin isSubscribed : bool) (assetsUrl : string)
           (events : list event) (p : player) : player :=
  fold_left (fun acc e => stepEvent isAdmin isSubscribed assetsUrl e acc)
            events p.

End Player.

(* ===================================================================== *)
(** ** SoundList.jsx: the effects, deleting, sharing, the indicators      *)
(* ===================================================================== *)

Module Library.

Import SoundList.

(** A sound as the API returns it. *)
Record apiSound : Type := mkApiSound {
  _id : string;
  title : string;
  apiDescription : string;
  apiCategory : string;
  apiIsPremium : bool;
  apiLink : string
}.

(** [soundsData]: [data] and [meta.totalPage], each possibly absent. *)
Record soundsData : Type := mkSoundsData {
  data : option (list apiSound);
  totalPage : option Z
}.

(** The callback of [soundsData.data.map]. *)
Definition formatSound (a : apiSound) : sound :=
  mkSound (_id a) (title a) (apiDescription a) (apiCategory a)
          (apiIsPremium a) (apiLink a) (Some "00:00") false false.

Definition setIsLoading (b : bool) (st : state) : state :=
  mkState (sounds st) (filteredSounds st) (searchTerm st) b
          (currentlyPlayingId st) (selectedSounds st) (isAddModalOpen st)
          (isDeleteModalOpen st) (currentPage st) (totalPages st)
          (limit st) (isShareModalOpen st) (shareData st).

Definition setTotalPages (n : Z) (st : state) : state :=
  mkState (sounds st) (filteredSounds st) (searchTerm st) (isLoading st)
          (currentlyPlayingId st) (selectedSounds st) (isAddModalOpen st)
          (isDeleteModalOpen st) (currentPage st) n
          (limit st) (isShareModalOpen st) (shareData st).

Definition setSelectedSounds (l : list string) (st : state) : state :=
  mkState (sounds st) (filteredSounds st) (searchTerm st) (isLoading st)
          (currentlyPlayingId st) l (isAddModalOpen st)
          (isDeleteModalOpen st) (currentPage st) (totalPages st)
          (limit st) (isShareModalOpen st) (shareData st).

Definition setIsDeleteModalOpen (b : bool) (st : state) : state :=
  mkState (sounds st) (filteredSounds st) (searchTerm st) (isLoading st)
          (currentlyPlayingId st) (selectedSounds st) (isAddModalOpen st)
          b (currentPage st) (totalPages st)
          (limit st) (isShareModalOpen st) (shareData st).



(** The effect on [soundsData]: the state after the setters, and the list
    handed to [loadAudioDurations] (none when there is no data). *)
Definition onSoundsData (d : option soundsData) (st : state)
  : state * option (list sound) :=
  match d with
  | Some (mkSoundsData (Some l) meta) =>
      let formattedSounds := map formatSound l in
      let st1 := setIsLoading false
                   (setFilteredSounds formattedSounds
                      (setSounds formattedSounds st)) in
      (match meta with
       | Some n => setTotalPages n st1
       | None => st1
       end,
       Some formattedSounds)
  | _ => (st, None)
  end.

(** The effect on [sounds]: the ids of the selected sounds. *)
Definition syncSelectedSounds (st : state) : state :=
  setSelectedSounds (map id (filter selected (sounds st))) st.

Inductive deletion : Type :=
| DeleteSound (soundId : string)
| DeleteMultipleSounds (soundIds : list string).

(** [confirmDelete()] *)
Definition confirmDelete (st : state) : state * list deletion :=
  (setIsDeleteModalOpen false st,
   match selectedSounds st with
   | [] => []
   | [one] => [DeleteSound one]
   | many => [DeleteMultipleSounds many]
   end).

(** The ids handed to the delete mutations. *)
Definition deletedIds (ds : list deletion) : list string :=
  flat_map (fun d => match d with
                     | DeleteSound i => [i]
                     | DeleteMultipleSounds l => l
                     end) ds.


Inductive effect : Type :=
| ToastError (message : string)
| ToastSuccess (message : string)
| ConsoleError (label : string)
| NavigatorShare (payload : sharePayload)
| ClearSelectedSound
| SendSoundMessage (users : list string) (soundLink : string)
                   (soundTitle : option string)
| Navigate (path : string).


(** [friendIds]: empty while the friend list is loading. *)
Definition friendIds (isFriendListLoading : bool) (friends : list string)
  : list string :=
  if negb isFriendListLoading then friends else [].

(** [sendToFriend()]; [delivered] tells whether the mutation succeeds. *)
Definition sendToFriend (apiUrl : string) (users : list string)
           (delivered : bool) (st : state) : list effect :=
  match find selected (sounds st) with
  | Some selectedSound =>
      (SendSoundMessage users (apiUrl ++ link selectedSound)
         (if JS.truthyString (name selectedSound)
          then Some (name selectedSound) else None)
       :: if delivered then
            [ToastSuccess ("Sound " ++ JS.dquote ++ name selectedSound
                           ++ JS.dquote
                           ++ " sent successfully! to all friends");
             ClearSelectedSound; Navigate "/all-friends"]
          else [])%list
  | None =>
      [ToastError "No sound selected. Please select a sound first!";
       ClearSelectedSound]
  end.

(** [Math.round]: the nearest integer, halves up. *)
Definition round (x : JS.number) : JS.integral :=
  match x with
  | JS.Finite q => JS.IInt (Qfloor (q + (1 # 2))%Q)
  | JS.NaN => JS.INaN
  | JS.Infinity b => JS.IInfinity b
  end.

(** The condition of the two filter indicators:
    [searchTerm && filteredSounds.length !== sounds.length]. *)
Definition showsFiltered (st : state) : bool :=
  JS.truthyString (searchTerm st)
  && negb (length (filteredSounds st) =? length (sounds st))%nat.

(** [Math.round((filteredSounds.length / sounds.length) * 100)]; a division
    by zero gives NaN (0/0) or Infinity.  The quotient is rounded to a
    double, and so is its product with 100. *)
Definition percentShown (st : state) : JS.integral :=
  match length (sounds st), length (filteredSounds st) with
  | O, O => JS.INaN
  | O, S _ => JS.IInfinity false
  | S n, f =>
      round (JS.mulPos
               (JS.divPos (JS.Finite (inject_Z (Z.of_nat f)))
                          (Pos.of_succ_nat n))
               100)
  end.

End Library.

(* ===================================================================== *)
(** ** SoundList.jsx: the AudioWave component                             *)
(* ===================================================================== *)

Module AudioWave.

Definition lineCount : nat := 67.

(** [Math.floor(Math.random() * (maxHeight - minHeight + 1)) + minHeight],
    where [r] is what [Math.random()] returned.  The product is taken
    exact; what its rounding does is looked at with the facts on the
    wave. *)
Definition randomHeight (r : Q) (minHeight maxHeight : Z) : Z :=
  (Qfloor (r * inject_Z (maxHeight - minHeight + 1)) + minHeight)%Z.

Definition minHeightOf (isPlaying : bool) : Z := if isPlaying then 5 else 8.

Definition maxHeightOf (isPlaying : bool) : Z :=
  if isPlaying then 18 else 14.

(** [generateLines()]: the k-th call of [Math.random] returns [rand k]. *)
Definition generateLines (isPlaying : bool) (rand : nat -> Q) : list Z :=
  fold_left
    (fun lines i =>
       (lines ++ [randomHeight (rand i) (minHeightOf isPlaying)
                               (maxHeightOf isPlaying)])%list)
    (seq 0 lineCount) [].

(** An array of numbers that may have holes. *)
Definition lines : Type := list (option Z).

(** [a[i] = v] as JavaScript does it: beyond the end the array grows, and
    the cells in between are holes. *)
Fixpoint assign (i : nat) (v : Z) (a : lines) : lines :=
  match i, a with
  | O, [] => [Some v]
  | O, _ :: a' => Some v :: a'
  | S i', [] => None :: assign i' v []
  | S i', x :: a' => x :: assign i' v a'
  end.

(** One turn of the loop in the interval callback; it calls [Math.random]
    twice, for the index and then for the height. *)
Definition replaceOne (rand : nat -> Q) (k : nat) (newLines : lines)
  : lines :=
  let randomIndex :=
    Z.to_nat (Qfloor (rand k * inject_Z (Z.of_nat (length newLines)))) in
  assign randomIndex (randomHeight (rand (S k)) 5 18) newLines.

(** The updater passed to [setWaveLines]: ten replacements. *)
Definition tick (rand : nat -> Q) (prevLines : lines) : lines :=
  fold_left (fun newLines i => replaceOne rand (2 * i) newLines)
            (seq 0 10) prevLines.

(** Several turns of the interval, each with its own random numbers. *)
Definition ticks (rands : list (nat -> Q)) (a : lines) : lines :=
  fold_left (fun acc rand => tick rand acc) rands a.

(** The state [waveLines] when the component mounts. *)
Definition initialLines (isPlaying : bool) (rand : nat -> Q) : lines :=
  map Some (generateLines isPlaying rand).

(** [viewBox]: width and height. *)
Definition viewBox (waveLines : lines) : Z * Z :=
  (Z.of_nat (length waveLines) * 2, 24)%Z.

(** The endpoints [(x1, y1)] and [(x2, y2)] of the line at [index]. *)
Definition lineX (index : nat) : Z := (Z.of_nat index * 2)%Z.

Definition startY (height : Z) : Q := (12 - inject_Z height / 2)%Q.

Definition endY (height : Z) : Q := (12 + inject_Z height / 2)%Q.

End AudioWave.

(* ===================================================================== *)
(** ** useConnections.js: query keys, the other queries, the mutations    *)
(* ===================================================================== *)

Module ConnectionHooks.

Import Connections.

(** One element of a query key: a string or the object [{ filters }]. *)
Inductive keyPart : Type :=
| KStr (s : string)
| KFilters (f : filters).

Definition queryKey : Type := list keyPart.

(** [CONNECTION_KEYS] *)
Definition keys_all : queryKey := [KStr "connections"].

Definition keys_lists : queryKey := (keys_all ++ [KStr "list"])%list.

Definition keys_friendList (f : filters) : queryKey :=
  (keys_lists ++ [KStr "friends"; KFilters f])%list.

Definition keys_sentRequests (f : filters) : queryKey :=
  (keys_lists ++ [KStr "sent"; KFilters f])%list.

Definition keys_receivedRequests (f : filters) : queryKey :=
  (keys_lists ++ [KStr "received"; KFilters f])%list.

Definition keys_users (f : filters) : queryKey :=
  (keys_all ++ [KStr "users"; KFilters f])%list.

(** One run of each of the other three list queries: the request, then
    [onError] when it fails. *)
Definition useFriendList (apiGet : string -> apiResult) (f : filters)
  : list effect * option string :=
  let url := "/user-connection/friend-list" ++ queryString f in
  match apiGet url with
  | ApiResponse body => ([HttpGet url], Some body)
  | ApiFailure m =>
      ([HttpGet url; ConsoleError "Error fetching friend list:";
        ToastError (JS.orElse m "Failed to fetch friends")], None)
  end.

Definition useSentRequests (apiGet : string -> apiResult) (f : filters)
  : list effect * option string :=
  let url := "/user-connection/sent-list" ++ queryString f in
  match apiGet url with
  | ApiResponse body => ([HttpGet url], Some body)
  | ApiFailure m =>
      ([HttpGet url; ConsoleError "Error fetching sent requests:";
        ToastError (JS.orElse m "Failed to fetch sent requests")], None)
  end.

Definition useReceivedRequests (apiGet : string -> apiResult) (f : filters)
  : list effect * option string :=
  let url := "/user-connection/request-list" ++ queryString f in
  match apiGet url with
  | ApiResponse body => ([HttpGet url], Some body)
  | ApiFailure m =>
      ([HttpGet url; ConsoleError "Error fetching received requests:";
        ToastError (JS.orElse m "Failed to fetch received requests")], None)
  end.

(** The mutations. *)
Inductive method : Type := POST | PATCH.

Inductive mutationEffect : Type :=
| Http (m : method) (url : string) (field : string) (value : string)
| Invalidate (key : queryKey)
| LogError (label : string)
| Toast (message : string).

(** One run of each mutation: the request with body [{ field: value }],
    then [onSuccess] or [onError], as the request turns out. *)
Definition useSendFriendRequest (succeeds : bool) (userId : string)
  : list mutationEffect :=
  (Http POST "/user-connection/send-request" "userId" userId
   :: if succeeds then [Invalidate keys_all]
      else [LogError "Send friend request error:"])%list.

Definition useAcceptFriendRequest (succeeds : bool) (connectionID : string)
  : list mutationEffect :=
  (Http PATCH "/user-connection/accept-request" "connectionID" connectionID
   :: if succeeds then [Invalidate keys_all]
      else [LogError "Accept friend request error:"])%list.

Definition useRejectFriendRequest (succeeds : bool) (connectionID : string)
  : list mutationEffect :=
  (Http PATCH "/user-connection/reject-request" "connectionID" connectionID
   :: if succeeds then [Invalidate keys_all]
      else [LogError "Reject friend request error:"])%list.

Definition useCancelFriendRequest (succeeds : bool) (connectionID : string)
  : list mutationEffect :=
  (Http PATCH "/user-connection/cancel-request" "connectionID" connectionID
   :: if succeeds then [Invalidate keys_all]
      else [LogError "Cancel friend request error:"])%list.

Definition useRemoveFriend (succeeds : bool) (connectionID : string)
  : list mutationEffect :=
  (Http PATCH "/user-connection/remove-friend" "connectionID" connectionID
   :: if succeeds then [Invalidate keys_all]
      else [LogError "Remove friend error:"])%list.

(** How often a character occurs in a string. *)
Fixpoint occurrences (c : ascii) (s : string) : nat :=
  match s with
  | EmptyString => O
  | String x s' => ((if Ascii.eqb x c then 1 else 0) + occurrences c s')%nat
  end.

(** The characters that give a URL its structure. *)
Definition structural (c : ascii) : bool :=
  existsb (Ascii.eqb c) ["?"; "="; "&"; "#"; " "; "/"]%char.

End ConnectionHooks.

(* ===================================================================== *)
(** ** SignUp.jsx, simplified revision: the email input                   *)
(* ===================================================================== *)

Module EmailInput.

(** The [onChange] of the email input: the value of the element is
    rewritten before the form library sees it. *)
Definition onChange (typed : string) : string :=
  JS.toLowerCase (JS.replaceWhitespace typed).

(** A capital letter of the Latin-1 range. *)
Definition isUpper (c : ascii) : bool :=
  let n := JS.code c in
  ((65 <=? n) && (n <=? 90)
   || (192 <=? n) && (n <=? 222) && negb (n =? 215))%N.

End EmailInput.

(* ===================================================================== *)
(** ** Vocabulary of the statements, and sample data                      *)
(* ===================================================================== *)

Module Vocabulary.

Import SoundList.

(** All selected sounds of a list carry the same id. *)
Definition oneSelectedId (l : list sound) : Prop :=
  forall s1 s2, In s1 l -> In s2 l ->
                selected s1 = true -> selected s2 = true -> id s1 = id s2.

(** What becomes of the item at index [i] of [loadAudioDurations]. *)
Definition resolved (env : nat -> outcome) (i : nat) (s : sound) : sound :=
  if hasDuration s then s
  else match env i with
       | LoadedMetadata d => withDuration (formatDuration d) s
       | AudioError => withDuration "00:00" s
       | TimeoutFired => withDuration "00:00" s
       end.

Fixpoint resolveFrom (env : nat -> outcome) (i : nat) (l : list sound)
  : list sound :=
  match l with
  | [] => []
  | s :: l' => resolved env i s :: resolveFrom env (S i) l'
  end.

(** What the loop of [loadAudioDurations] does from index [length pre] on,
    when the array is [pre ++ rest]. *)
Record loopSpec (assetsUrl : string) (env : nat -> outcome)
       (pre rest final : list sound) (log : list batchLog) : Prop :=
  mkLoopSpec {
  ls_final : final = (pre ++ resolveFrom env (length pre) rest)%list;
  ls_items : concat (map batchItems log) = rest;
  ls_indices :
    concat (map batchIndices log) = seq (length pre) (length rest);
  ls_armed :
    flat_map armed log = createPromises assetsUrl (length pre) rest;
  ls_sizes :
    Forall (fun b =>
              length (batchItems b)
              = Nat.min BATCH_SIZE
                  (length pre + length rest - batchStart b)
              /\ (1 <= length (batchItems b))%nat
              /\ exists k, batchStart b = (length pre + BATCH_SIZE * k)%nat)
           log;
  ls_published :
    Forall (fun b => length (published b) = length (pre ++ rest)%list) log
    /\ (forall d, published (last log d)
                  = match log with [] => published d | _ => final end)
}.

(** A sound with the given id (also its name), duration and flag. *)
Definition demoSound (i : string) (d : option string) (sel : bool) : sound :=
  mkSound i i EmptyString EmptyString false ("/" ++ i ++ ".mp3") d
          sel false.

(** Three sounds with distinct ids, nothing selected. *)
Definition demoState : state :=
  let l := [demoSound "a" (Some "00:00") false;
            demoSound "b" (Some "00:00") false;
            demoSound "c" (Some "00:00") false] in
  setFilteredSounds l (setSounds l initialState).

(** Seven sounds: the third has a duration, the second has the property
    missing, the last has it empty. *)
Definition demoList : list sound :=
  [demoSound "a" (Some "00:00") false; demoSound "b" None false;
   demoSound "c" (Some "01:30") false; demoSound "d" (Some "00:00") false;
   demoSound "e" (Some "00:00") false; demoSound "f" (Some "00:00") false;
   demoSound "g" (Some EmptyString) false].

Definition demoEnv (i : nat) : outcome :=
  match i with
  | 0 => LoadedMetadata (JS.Finite (125 # 2))
  | 1 => AudioError
  | _ => TimeoutFired
  end%nat.

(** A datum of [SpecFloat], the Standard Library's specification of the
    IEEE 754 formats, as a number. *)
Definition numberOfSpec (x : SpecFloat.spec_float) : JS.number :=
  match x with
  | SpecFloat.S754_zero _ => JS.Finite 0
  | SpecFloat.S754_infinity s => JS.Infinity s
  | SpecFloat.S754_nan => JS.NaN
  | SpecFloat.S754_finite s m e =>
      let v := if (0 <=? e)%Z then inject_Z (Z.pos m * 2 ^ e)
               else (Z.pos m # Z.to_pos (2 ^ (- e)))%Q in
      JS.Finite (if s then Qopp v else v)
  end.

(** The same number: the same value, whatever the fraction that gives
    it. *)
Definition sameNumber (x y : JS.number) : bool :=
  match x, y with
  | JS.Finite a, JS.Finite b => Qeq_bool a b
  | JS.NaN, JS.NaN => true
  | JS.Infinity a, JS.Infinity b => Bool.eqb a b
  | _, _ => false
  end.

(** Forty sounds with distinct ids, nothing selected; the first 23 have
    "rain" in their name. *)
Definition fortySounds : list sound :=
  map (fun k =>
         let i := JS.intToString (Z.of_nat k) in
         mkSound i ((if (k <? 23)%nat then "rain " else "wind ") ++ i)
                 EmptyString EmptyString false ("/" ++ i ++ ".mp3")
                 (Some "00:00") false false)
      (seq 0 40).

Definition fortyState : state :=
  setFilteredSounds fortySounds (setSounds fortySounds initialState).

(** Two entries with one id, nothing selected. *)
Definition twinState : state :=
  setSounds [demoSound "a" None false; demoSound "a" None false]
            initialState.

(** The name [x] occurs in a path: among the elements of an array path,
    or somewhere inside a string path. *)
Definition pathContains (p : Form.pathValue) (x : string) : Prop :=
  match p with
  | Form.NoPath => False
  | Form.PathString s => exists pre post, s = pre ++ x ++ post
  | Form.PathArray l => In x l
  end.

(** A path names the field [x], read by the letter: the path is that
    name, or an array with that name among its elements. *)
Definition pathNames (p : Form.pathValue) (x : string) : bool :=
  match p with
  | Form.NoPath => false
  | Form.PathString s => String.eqb s x
  | Form.PathArray l => existsb (String.eqb x) l
  end.

(** The message of a [setError] call: the one of the back end, or the
    fallback when that one is absent or empty. *)
Definition messageOr (err : Form.backendError) (fallback : string)
  : string :=
  match Form.message err with
  | Some m => if String.eqb m EmptyString then fallback else m
  | None => fallback
  end.

(** Stand-ins for the two library predicates, for the examples: an email
    has an [@] in it, a phone number starts with [+]. *)
Definition sampleIsEmail (s : string) : bool := JS.includes s "@".

Definition sampleIsPhone (s : string) : bool := JS.startsWith s "+".

End Vocabulary.

(* ===================================================================== *)
(** ** Vocabulary of the further statements                               *)
(* ===================================================================== *)

Module Invariants.

Import SoundList Player.

(** Every sound shown as playing has the id kept in [currentlyPlayingId],
    and there is an audio element to stop. *)
Definition playingInv (p : player) : Prop :=
  forall s, In s (sounds (ui p)) -> isPlaying s = true ->
            currentlyPlayingId (ui p) = Some (id s) /\ audioRef p <> None.

(** [filteredSounds] is the search result of [sounds] for [searchTerm]. *)
Definition filterInv (st : state) : Prop :=
  filteredSounds st
  = filteredSounds (applySearch (searchTerm st) (sounds st) st).

(** [Math.random] returns a number from 0 up to, but not including, 1. *)
Definition unitInterval (rand : nat -> Q) : Prop :=
  forall k, (0 <= rand k)%Q /\ (rand k < 1)%Q.

(** All cells hold a height between [lo] and [hi]; there is no hole. *)
Definition heightsWithin (lo hi : Z) (a : AudioWave.lines) : Prop :=
  Forall (fun x => exists h, x = Some h /\ (lo <= h <= hi)%Z) a.

End Invariants.

(* ===================================================================== *)
(** ** Facts about the JavaScript primitives                              *)
(* ===================================================================== *)

Module JSFacts.

Import JS.

Ltac each_char c := destruct c as [[] [] [] [] [] [] [] []].

Lemma toLowerChar_idempotent c : toLowerChar (toLowerChar c) = toLowerChar c.
Proof. each_char c; reflexivity. Qed.

Lemma isWhiteSpace_toLowerChar c :
  isWhiteSpace (toLowerChar c) = isWhiteSpace c.
Proof. each_char c; reflexivity. Qed.

Lemma toLowerCase_idempotent s : toLowerCase (toLowerCase s) = toLowerCase s.
Proof.
  induction s as [|c s IH]; simpl; [reflexivity|].
  now rewrite toLowerChar_idempotent, IH.
Qed.

Lemma replaceWhitespace_toLowerCase s :
  replaceWhitespace (toLowerCase s) = toLowerCase (replaceWhitespace s).
Proof.
  induction s as [|c s IH]; simpl; [reflexivity|].
  rewrite isWhiteSpace_toLowerChar.
  destruct (isWhiteSpace c); simpl; now rewrite IH.
Qed.

Lemma replaceWhitespace_idempotent s :
  replaceWhitespace (replaceWhitespace s) = replaceWhitespace s.
Proof.
  induction s as [|c s IH]; simpl; [reflexivity|].
  destruct (isWhiteSpace c) eqn:E; simpl; [assumption|].
  now rewrite E, IH.
Qed.

Lemma replaceWhitespace_clean s :
  allChars (fun c => negb (isWhiteSpace c)) (replaceWhitespace s) = true.
Proof.
  induction s as [|c s IH]; simpl; [reflexivity|].
  destruct (isWhiteSpace c) eqn:E; simpl; [assumption|].
  now rewrite E, IH.
Qed.

Lemma toLowerCase_length s : String.length (toLowerCase s) = String.length s.
Proof. induction s; simpl; congruence. Qed.

Lemma toLowerCase_app s t :
  toLowerCase (s ++ t) = toLowerCase s ++ toLowerCase t.
Proof. induction s; simpl; congruence. Qed.

(** *** Prefixes and substrings *)

Lemma startsWith_spec s p :
  startsWith s p = true <-> exists post, s = p ++ post.
Proof.
  revert s; induction p as [|a p IH]; intros s; simpl.
  - split; [intros _; now exists s | reflexivity].
  - destruct s as [|b s].
    + split; [discriminate | intros [post H]; discriminate].
    + rewrite andb_true_iff, IH, Ascii.eqb_eq. split.
      * intros [-> [post ->]]. now exists post.
      * intros [post H]. injection H as -> ->. split; eauto.
Qed.

Lemma includes_spec s sub :
  includes s sub = true <-> exists pre post, s = pre ++ sub ++ post.
Proof.
  induction s as [|c s IH]; simpl.
  - rewrite orb_false_r, startsWith_spec. split.
    + intros [post H]. now exists EmptyString, post.
    + intros [[|a pre] [post H]]; [now exists post | discriminate].
  - rewrite orb_true_iff, IH, startsWith_spec. split.
    + intros [[post H] | [pre [post H]]].
      * now exists EmptyString, post.
      * exists (String c pre), post. simpl. now rewrite H.
    + intros [[|a pre] [post H]].
      * left. now exists post.
      * right. injection H as -> ->. now exists pre, post.
Qed.

(** *** trim *)

Lemma trimStart_empty s :
  trimStart s = EmptyString <-> allChars isWhiteSpace s = true.
Proof.
  induction s as [|c s IH]; simpl; [tauto|].
  destruct (isWhiteSpace c); simpl; [assumption|].
  split; discriminate.
Qed.

Lemma trimEnd_nonempty c s :
  isWhiteSpace c = false -> trimEnd (String c s) <> EmptyString.
Proof.
  intros E. simpl. destruct (trimEnd s); [rewrite E|]; discriminate.
Qed.

Lemma trimStart_head s :
  trimStart s = EmptyString \/
  exists c t, trimStart s = String c t /\ isWhiteSpace c = false.
Proof.
  induction s as [|c s IH]; simpl; [now left|].
  destruct (isWhiteSpace c) eqn:E; [assumption|].
  right. now exists c, s.
Qed.

Lemma trim_empty s :
  trim s = EmptyString <-> allChars isWhiteSpace s = true.
Proof.
  unfold trim. rewrite <- trimStart_empty.
  destruct (trimStart_head s) as [H | (c & t & H & E)]; rewrite H.
  - simpl; tauto.
  - split; [intros F; now apply trimEnd_nonempty in F | discriminate].
Qed.

Lemma truthyString_false s : truthyString s = false <-> s = EmptyString.
Proof.
  unfold truthyString. rewrite negb_false_iff. apply String.eqb_eq.
Qed.

Lemma truthyString_true s : truthyString s = true <-> s <> EmptyString.
Proof.
  unfold truthyString. rewrite negb_true_iff. apply String.eqb_neq.
Qed.

(** The guard of [applySearch]: [!term || !term.trim()] says that the term
    has only white space in it (none at all included). *)
Lemma blank_guard term :
  negb (truthyString term) || negb (truthyString (trim term))
  = allChars isWhiteSpace term.
Proof.
  destruct (allChars isWhiteSpace term) eqn:E.
  - apply trim_empty in E. apply truthyString_false in E.
    rewrite E. apply orb_true_r.
  - apply orb_false_iff. rewrite !negb_false_iff, !truthyString_true.
    split.
    + intros ->. discriminate.
    + intros F. apply trim_empty in F. congruence.
Qed.

(** *** The primitives on samples *)

Example padStart_cycles : padStart "7" 5 "ab" = "abab7".
Proof. reflexivity. Qed.

Example padStart_enough : padStart "123" 2 "0" = "123".
Proof. reflexivity. Qed.

Example trim_sample :
  trim (String (ascii_of_nat 9) "  Rain drops  ") = "Rain drops".
Proof. reflexivity. Qed.

Example toLowerCase_sample : toLowerCase "Ocean WAVES 2" = "ocean waves 2".
Proof. reflexivity. Qed.

(** Capital E with acute accent becomes the small one; the multiplication
    sign stays. *)
Example toLowerChar_latin1 :
  toLowerChar (ascii_of_nat 201) = ascii_of_nat 233
  /\ toLowerChar (ascii_of_nat 215) = ascii_of_nat 215.
Proof. split; reflexivity. Qed.

Example includes_sample : includes "thunder storm" "der s" = true.
Proof. reflexivity. Qed.

Example includes_empty : includes "thunder" EmptyString = true.
Proof. reflexivity. Qed.

End JSFacts.

(* ===================================================================== *)
(** ** Rounding to a double                                               *)
(* ===================================================================== *)

Module DoubleFacts.

Import JS Vocabulary.

Local Open Scope Z_scope.

Lemma ulpMin_pos : 0 < ulpMin.
Proof. unfold ulpMin. apply Z.pow_pos_nonneg; lia. Qed.

Lemma pow2_pos (e : Z) : 0 <= e -> 0 < 2 ^ e.
Proof. intros H. apply Z.pow_pos_nonneg; lia. Qed.

Lemma ulpMin_split (e : Z) :
  0 <= e <= 1074 -> ulpMin = 2 ^ (1074 - e) * 2 ^ e.
Proof.
  intros H. unfold ulpMin. rewrite <- Z.pow_add_r by lia. f_equal. lia.
Qed.

(** *** Rounding to the nearest integer *)

Lemma roundHalfEven_cases (a b : Z) :
  0 < b ->
  (roundHalfEven a b = a / b /\ 2 * (a mod b) <= b)
  \/ (roundHalfEven a b = a / b + 1 /\ b <= 2 * (a mod b)).
Proof.
  intros Hb. unfold roundHalfEven.
  destruct (Z.compare_spec (2 * (a mod b)) b) as [E|L|G].
  - destruct (Z.even (a / b)); [left | right]; split; lia.
  - left. split; lia.
  - right. split; lia.
Qed.

Lemma roundHalfEven_ge (a b n : Z) :
  0 < b -> n * b <= a -> n <= roundHalfEven a b.
Proof.
  intros Hb H.
  assert (D : n <= a / b) by (apply Z.div_le_lower_bound; lia).
  destruct (roundHalfEven_cases a b Hb) as [[-> _]|[-> _]]; lia.
Qed.

Lemma roundHalfEven_le (a b n : Z) :
  0 < b -> a <= n * b -> roundHalfEven a b <= n.
Proof.
  intros Hb H.
  pose proof (Z.div_mod a b ltac:(lia)) as E.
  pose proof (Z.mod_pos_bound a b Hb) as R.
  destruct (roundHalfEven_cases a b Hb) as [[-> _]|[-> L]]; nia.
Qed.

Lemma roundHalfEven_lt (a b n : Z) :
  0 < b -> 2 * a + b < 2 * n * b -> roundHalfEven a b < n.
Proof.
  intros Hb H.
  pose proof (Z.div_mod a b ltac:(lia)) as E.
  pose proof (Z.mod_pos_bound a b Hb) as R.
  destruct (roundHalfEven_cases a b Hb) as [[-> _]|[-> L]]; nia.
Qed.

Lemma roundHalfEven_nonneg (a b : Z) :
  0 < b -> 0 <= a -> 0 <= roundHalfEven a b.
Proof. intros Hb Ha. apply roundHalfEven_ge; lia. Qed.

(** *** The exponent *)

Lemma exponentOf_spec (a b : Z) :
  0 <= a -> 0 < b ->
  0 <= exponentOf a b
  /\ a * ulpMin < b * 2 ^ (exponentOf a b + 53)
  /\ (0 < exponentOf a b -> b * 2 ^ (exponentOf a b + 52) <= a * ulpMin).
Proof.
  intros Ha Hb. unfold exponentOf.
  pose proof ulpMin_pos as HS.
  set (A := a * ulpMin).
  assert (HA : 0 <= A) by (unfold A; nia).
  pose proof (Z.div_mod A b ltac:(lia)) as E.
  pose proof (Z.mod_pos_bound A b Hb) as R.
  set (N := A / b) in *.
  assert (HN : 0 <= N) by (apply Z.div_pos; lia).
  set (L := Z.log2 N).
  assert (HL : 0 <= L) by apply Z.log2_nonneg.
  split; [lia|]. split.
  - assert (U : N < 2 ^ (Z.max (L - 52) 0 + 53)).
    { destruct (Z.eq_dec N 0) as [->|NZ].
      - apply pow2_pos. lia.
      - pose proof (Z.log2_spec N ltac:(lia)) as [_ U]. fold L in U.
        apply Z.lt_le_trans with (2 ^ Z.succ L); [assumption|].
        apply Z.pow_le_mono_r; lia. }
    nia.
  - intros P.
    assert (NZ : 0 < N).
    { destruct (Z.eq_dec N 0) as [Z0|NZ]; [|lia].
      unfold L in P. rewrite Z0 in P. simpl in P. lia. }
    pose proof (Z.log2_spec N NZ) as [Lo _]. fold L in Lo.
    replace (Z.max (L - 52) 0 + 52) with L by lia. nia.
Qed.

(** *** Doubles as thresholds *)

Lemma roundUnits_nonneg (a b : Z) :
  0 <= a -> 0 < b -> 0 <= roundUnits a b.
Proof.
  intros Ha Hb. unfold roundUnits. cbv zeta.
  destruct (exponentOf_spec a b Ha Hb) as (HE & _).
  pose proof (pow2_pos _ HE). pose proof ulpMin_pos.
  assert (0 <= roundHalfEven (a * ulpMin) (b * 2 ^ exponentOf a b))
    by (apply roundHalfEven_nonneg; nia).
  nia.
Qed.

Lemma roundUnits_le (a b n v : Z) :
  0 <= a -> 0 < b -> 0 <= n <= 2 ^ 53 -> 0 <= v ->
  a * ulpMin <= n * 2 ^ v * b -> roundUnits a b <= n * 2 ^ v.
Proof.
  intros Ha Hb Hn Hv H. unfold roundUnits. cbv zeta.
  destruct (exponentOf_spec a b Ha Hb) as (HE & _ & Lo).
  set (E := exponentOf a b) in *.
  pose proof (pow2_pos E HE) as PE. pose proof (pow2_pos v Hv) as Pv.
  destruct (Z_le_gt_dec E v) as [Le|Gt].
  - assert (Sp : 2 ^ v = 2 ^ (v - E) * 2 ^ E).
    { rewrite <- Z.pow_add_r by lia. f_equal. lia. }
    assert (Pd : 0 < 2 ^ (v - E)) by (apply pow2_pos; lia).
    assert (R : roundHalfEven (a * ulpMin) (b * 2 ^ E) <= n * 2 ^ (v - E)).
    { apply roundHalfEven_le; [nia|]. rewrite Sp in H. nia. }
    rewrite Sp. nia.
  - specialize (Lo ltac:(lia)).
    rewrite Z.pow_add_r in Lo by lia.
    assert (B : 2 ^ E * 2 ^ 52 <= n * 2 ^ v) by nia.
    assert (B2 : 2 ^ E * 2 ^ 52 <= 2 ^ 53 * 2 ^ v) by nia.
    assert (EV : E <= v + 1).
    { rewrite <- !Z.pow_add_r in B2 by lia.
      apply Z.pow_le_mono_r_iff in B2; lia. }
    assert (Ev : E = v + 1) by lia.
    assert (Sp : 2 ^ E = 2 * 2 ^ v).
    { rewrite Ev, Z.pow_add_r by lia. lia. }
    assert (R : roundHalfEven (a * ulpMin) (b * 2 ^ E) <= 2 ^ 52).
    { apply roundHalfEven_le; [nia|]. rewrite Sp in *. nia. }
    rewrite Sp in *. nia.
Qed.

Lemma roundUnits_ge (a b n v : Z) :
  0 <= a -> 0 < b -> 0 <= n <= 2 ^ 53 -> 0 <= v ->
  n * 2 ^ v * b <= a * ulpMin -> n * 2 ^ v <= roundUnits a b.
Proof.
  intros Ha Hb Hn Hv H. unfold roundUnits. cbv zeta.
  destruct (exponentOf_spec a b Ha Hb) as (HE & _ & Lo).
  set (E := exponentOf a b) in *.
  pose proof (pow2_pos E HE) as PE. pose proof (pow2_pos v Hv) as Pv.
  destruct (Z_le_gt_dec E v) as [Le|Gt].
  - assert (Sp : 2 ^ v = 2 ^ (v - E) * 2 ^ E).
    { rewrite <- Z.pow_add_r by lia. f_equal. lia. }
    assert (Pd : 0 < 2 ^ (v - E)) by (apply pow2_pos; lia).
    assert (R : n * 2 ^ (v - E) <= roundHalfEven (a * ulpMin) (b * 2 ^ E)).
    { apply roundHalfEven_ge; [nia|]. rewrite Sp in H. nia. }
    rewrite Sp. nia.
  - specialize (Lo ltac:(lia)).
    rewrite Z.pow_add_r in Lo by lia.
    assert (R : 2 ^ 52 <= roundHalfEven (a * ulpMin) (b * 2 ^ E)).
    { apply roundHalfEven_ge; [nia|]. nia. }
    assert (M : 2 * 2 ^ v <= 2 ^ E).
    { replace (2 * 2 ^ v) with (2 ^ (v + 1)) by (rewrite Z.pow_add_r; lia).
      apply Z.pow_le_mono_r; lia. }
    nia.
Qed.

(** *** The quotient of a double by a positive integer *)

Lemma roundUnits_quotient (a b d : Z) :
  0 <= a -> 0 < b -> 0 < d ->
  roundUnits a b * b = a * ulpMin ->
  a < 2 ^ 53 * b ->
  (a / (d * b)) * ulpMin <= roundUnits a (d * b)
  /\ roundUnits a (d * b) < (a / (d * b) + 1) * ulpMin.
Proof.
  intros Ha Hb Hd Dx Bx.
  pose proof ulpMin_pos as HS.
  assert (Hdb : 0 < d * b) by nia.
  pose proof (Z.div_mod a (d * b) ltac:(lia)) as Ek.
  pose proof (Z.mod_pos_bound a (d * b) Hdb) as Rk.
  set (k := a / (d * b)) in *.
  assert (Hk : 0 <= k) by (apply Z.div_pos; lia).
  assert (Kb : k < 2 ^ 53) by nia.
  split.
  - replace (k * ulpMin) with (k * 2 ^ 1074) by reflexivity.
    apply roundUnits_ge; try lia.
    change (2 ^ 1074) with ulpMin. nia.
  - (* the exponents of the quotient and of the dividend *)
    destruct (exponentOf_spec a (d * b) Ha Hdb) as (HEq & Uq & Lq).
    destruct (exponentOf_spec a b Ha Hb) as (HEx & Ux & Lx).
    unfold roundUnits in *. cbv zeta in *.
    set (Eq := exponentOf a (d * b)) in *.
    set (Ex := exponentOf a b) in *.
    set (mx := roundHalfEven (a * ulpMin) (b * 2 ^ Ex)) in *.
    pose proof (pow2_pos Eq HEq) as PEq. pose proof (pow2_pos Ex HEx) as PEx.
    assert (Bq : Eq <= 1074).
    { destruct (Z_le_gt_dec Eq 1074) as [?|G]; [assumption|exfalso].
      specialize (Lq ltac:(lia)).
      assert (M : 2 ^ (1074 + 53) <= 2 ^ (Eq + 52))
        by (apply Z.pow_le_mono_r; lia).
      rewrite Z.pow_add_r in M by lia. change (2 ^ 1074) with ulpMin in M.
      nia. }
    assert (Bx' : Ex <= 1074).
    { destruct (Z_le_gt_dec Ex 1074) as [?|G]; [assumption|exfalso].
      specialize (Lx ltac:(lia)).
      assert (M : 2 ^ (1074 + 53) <= 2 ^ (Ex + 52))
        by (apply Z.pow_le_mono_r; lia).
      rewrite Z.pow_add_r in M by lia. change (2 ^ 1074) with ulpMin in M.
      nia. }
    pose proof (ulpMin_split Eq ltac:(lia)) as Sq.
    pose proof (ulpMin_split Ex ltac:(lia)) as Sx.
    assert (Pq : 0 < 2 ^ (1074 - Eq)) by (apply pow2_pos; lia).
    assert (Px : 0 < 2 ^ (1074 - Ex)) by (apply pow2_pos; lia).
    set (ux := mx * 2 ^ Ex) in *.
    (* the dividend, in units, is below d (k + 1) and both are multiples
       of 2 ^ Ex *)
    assert (Ux' : ux < d * (k + 1) * ulpMin) by nia.
    assert (Gap : ux + 2 ^ Ex <= d * (k + 1) * ulpMin).
    { assert (mx < d * (k + 1) * 2 ^ (1074 - Ex)).
      { rewrite Sx in Ux'. unfold ux in Ux'. nia. }
      rewrite Sx. unfold ux. nia. }
    assert (Half : 2 * ux + d * 2 ^ Eq < 2 * d * (k + 1) * ulpMin).
    { destruct (Z.eq_dec Eq 0) as [Z0|NZ].
      - rewrite Z0 in *. change (2 ^ 0) with 1 in *.
        change (2 ^ (0 + 53)) with (2 ^ 53) in Uq.
        assert (ux < d * 2 ^ 53) by nia.
        assert (2 ^ 53 + 1 <= ulpMin).
        { unfold ulpMin.
          assert (2 ^ 54 <= 2 ^ 1074) by (apply Z.pow_le_mono_r; lia).
          lia. }
        nia.
      - specialize (Lq ltac:(lia)).
        rewrite Z.pow_add_r in Lq, Ux by lia.
        assert (d * (2 ^ Eq * 2 ^ 52) <= ux) by nia.
        assert (ux < 2 ^ Ex * 2 ^ 53) by nia.
        nia. }
    assert (R : roundHalfEven (a * ulpMin) (d * b * 2 ^ Eq)
                < (k + 1) * 2 ^ (1074 - Eq)).
    { apply roundHalfEven_lt; [nia|].
      rewrite <- Dx. fold ux.
      replace (2 * ((k + 1) * 2 ^ (1074 - Eq)) * (d * b * 2 ^ Eq))
        with (2 * d * (k + 1) * (2 ^ (1074 - Eq) * 2 ^ Eq) * b) by ring.
      rewrite <- Sq. nia. }
    rewrite Sq at 2. nia.
Qed.

(** *** The product of a double below 1 and a positive integer *)

Lemma roundUnits_product (a b k : Z) :
  0 <= a -> 0 < b -> 0 < k <= 2 ^ 53 ->
  roundUnits a b * b = a * ulpMin ->
  a < b ->
  roundUnits (a * k) b < k * ulpMin.
Proof.
  intros Ha Hb Hk Dx Bx.
  pose proof ulpMin_pos as HS.
  assert (Hak : 0 <= a * k) by nia.
  destruct (exponentOf_spec (a * k) b Hak Hb) as (HEp & Up & Lp).
  destruct (exponentOf_spec a b Ha Hb) as (HEx & Ux & Lx).
  unfold roundUnits in *. cbv zeta in *.
  set (Ep := exponentOf (a * k) b) in *.
  set (Ex := exponentOf a b) in *.
  set (mx := roundHalfEven (a * ulpMin) (b * 2 ^ Ex)) in *.
  pose proof (pow2_pos Ep HEp) as PEp. pose proof (pow2_pos Ex HEx) as PEx.
  assert (Bp : Ep <= 1074).
  { destruct (Z_le_gt_dec Ep 1074) as [?|G]; [assumption|exfalso].
    specialize (Lp ltac:(lia)).
    assert (M : 2 ^ (1074 + 53) <= 2 ^ (Ep + 52))
      by (apply Z.pow_le_mono_r; lia).
    rewrite Z.pow_add_r in M by lia. change (2 ^ 1074) with ulpMin in M.
    nia. }
  assert (Bx' : Ex <= 1074).
  { destruct (Z_le_gt_dec Ex 1074) as [?|G]; [assumption|exfalso].
    specialize (Lx ltac:(lia)).
    assert (M : 2 ^ (1074 + 53) <= 2 ^ (Ex + 52))
      by (apply Z.pow_le_mono_r; lia).
    rewrite Z.pow_add_r in M by lia. change (2 ^ 1074) with ulpMin in M.
    nia. }
  pose proof (ulpMin_split Ep ltac:(lia)) as Sp.
  pose proof (ulpMin_split Ex ltac:(lia)) as Sx.
  assert (Pp : 0 < 2 ^ (1074 - Ep)) by (apply pow2_pos; lia).
  assert (Px : 0 < 2 ^ (1074 - Ex)) by (apply pow2_pos; lia).
  set (ux := mx * 2 ^ Ex) in *.
  (* the factor, in units, is below 1 and both are multiples of 2 ^ Ex *)
  assert (Ux' : ux < ulpMin) by nia.
  assert (Gap : ux + 2 ^ Ex <= ulpMin).
  { assert (mx < 2 ^ (1074 - Ex)).
    { rewrite Sx in Ux'. unfold ux in Ux'. nia. }
    rewrite Sx. unfold ux. nia. }
  assert (Half : 2 * k * ux + 2 ^ Ep < 2 * k * ulpMin).
  { destruct (Z.eq_dec Ep 0) as [Z0|NZ].
    - rewrite Z0. change (2 ^ 0) with 1. nia.
    - specialize (Lp ltac:(lia)).
      rewrite Z.pow_add_r in Lp, Ux by lia.
      assert (2 ^ Ep * 2 ^ 52 <= k * ux) by nia.
      assert (ux < 2 ^ Ex * 2 ^ 53) by nia.
      nia. }
  assert (R : roundHalfEven (a * k * ulpMin) (b * 2 ^ Ep)
              < k * 2 ^ (1074 - Ep)).
  { apply roundHalfEven_lt; [nia|].
    replace (a * k * ulpMin) with (k * (a * ulpMin)) by ring.
    rewrite <- Dx. fold ux.
    replace (2 * (k * 2 ^ (1074 - Ep)) * (b * 2 ^ Ep))
      with (2 * k * (2 ^ (1074 - Ep) * 2 ^ Ep) * b) by ring.
    rewrite <- Sp. nia. }
  rewrite Sp at 2. nia.
Qed.

Lemma roundUnits_zero (b : Z) : 0 < b -> roundUnits 0 b = 0.
Proof.
  intros Hb.
  pose proof (roundUnits_nonneg 0 b ltac:(lia) Hb).
  pose proof (roundUnits_le 0 b 0 0 ltac:(lia) Hb ltac:(lia) ltac:(lia)
                ltac:(lia)).
  lia.
Qed.

(** *** The same on numbers *)

Lemma ulpMin_to_pos : Z.pos (Z.to_pos ulpMin) = ulpMin.
Proof. apply Z2Pos.id, ulpMin_pos. Qed.

Lemma Qfloor_units (u : Z) : Qfloor (u # Z.to_pos ulpMin) = u / ulpMin.
Proof. unfold Qfloor. now rewrite ulpMin_to_pos. Qed.

Lemma roundDouble_units (q : Q) :
  0 <= Qnum q ->
  roundDouble q
  = if 2 ^ 1024 * ulpMin <=? roundUnits (Qnum q) (Z.pos (Qden q))
    then Infinity false
    else Finite (roundUnits (Qnum q) (Z.pos (Qden q)) # Z.to_pos ulpMin).
Proof.
  intros H. unfold roundDouble. cbv zeta. rewrite Z.abs_eq by assumption.
  destruct (Z.eq_dec (Qnum q) 0) as [E|N].
  - rewrite E, roundUnits_zero by lia. reflexivity.
  - rewrite Z.sgn_pos, Z.mul_1_l by lia.
    now replace (Qnum q <? 0) with false by (symmetry; apply Z.ltb_ge; lia).
Qed.

Lemma no_overflow (u n : Z) :
  u <= n * ulpMin -> n <= 2 ^ 53 -> (2 ^ 1024 * ulpMin <=? u) = false.
Proof.
  intros H Hn. apply Z.leb_gt. pose proof ulpMin_pos.
  assert (2 ^ 53 < 2 ^ 1024) by (apply Z.pow_lt_mono_r; lia).
  nia.
Qed.

(** A rational that is at most the integer [n] is rounded to a double that
    is at most [n]. *)
Lemma roundDouble_upto (q : Q) (n : Z) :
  0 <= Qnum q -> 0 <= n <= 2 ^ 53 -> Qnum q <= n * Z.pos (Qden q) ->
  exists u, roundDouble q = Finite (u # Z.to_pos ulpMin)
            /\ 0 <= u <= n * ulpMin.
Proof.
  intros Hq Hn H. rewrite roundDouble_units by assumption.
  set (u := roundUnits (Qnum q) (Z.pos (Qden q))).
  assert (L : 0 <= u) by (apply roundUnits_nonneg; lia).
  assert (U : u <= n * 2 ^ 1074).
  { apply roundUnits_le; try lia.
    change (2 ^ 1074) with ulpMin. pose proof ulpMin_pos. nia. }
  change (2 ^ 1074) with ulpMin in U.
  rewrite (no_overflow u n) by lia.
  exists u. split; [reflexivity | lia].
Qed.

Lemma isDouble_units (q : Q) :
  0 <= Qnum q -> isDouble q = true ->
  roundUnits (Qnum q) (Z.pos (Qden q)) * Z.pos (Qden q) = Qnum q * ulpMin.
Proof.
  intros Hq D. unfold isDouble in D.
  rewrite roundDouble_units in D by assumption.
  destruct (2 ^ 1024 * ulpMin <=? roundUnits (Qnum q) (Z.pos (Qden q)));
    [discriminate|].
  apply Qeq_bool_iff in D. unfold Qeq in D. cbn [Qnum Qden] in D.
  now rewrite ulpMin_to_pos in D.
Qed.

Lemma Qnum_div_pos (q : Q) (d : positive) :
  Qnum (q / inject_Z (Z.pos d)) = Qnum q
  /\ Z.pos (Qden (q / inject_Z (Z.pos d))) = Z.pos d * Z.pos (Qden q).
Proof.
  destruct q as [a b]. unfold Qdiv, Qmult, Qinv, inject_Z.
  cbn [Qnum Qden]. split; lia.
Qed.

(** *** [Math.floor(x / d)] *)

(** For a double below 2^53 and a positive integer divisor, rounding the
    quotient does not change its integer part. *)
Lemma floor_divPos (q : Q) (d : positive) :
  (0 <= q)%Q -> isDouble q = true -> (q < inject_Z (2 ^ 53))%Q ->
  floor (divPos (Finite q) d) = IInt (Qfloor q / Z.pos d).
Proof.
  intros Hq D B. cbn [divPos].
  destruct (Qnum_div_pos q d) as [En Ed].
  assert (Ha : 0 <= Qnum q).
  { unfold Qle in Hq. cbn [Qnum Qden] in Hq. lia. }
  assert (Bx : Qnum q < 2 ^ 53 * Z.pos (Qden q)).
  { unfold Qlt, inject_Z in B. cbn [Qnum Qden] in B. lia. }
  pose proof (roundUnits_quotient (Qnum q) (Z.pos (Qden q)) (Z.pos d)
                Ha ltac:(lia) ltac:(lia) (isDouble_units q Ha D) Bx)
    as [Lo Hi].
  rewrite roundDouble_units by (rewrite En; assumption).
  rewrite En, Ed.
  set (u := roundUnits (Qnum q) (Z.pos d * Z.pos (Qden q))) in *.
  set (k := Qnum q / (Z.pos d * Z.pos (Qden q))) in *.
  pose proof ulpMin_pos as HS.
  assert (Kb : k < 2 ^ 53).
  { apply Z.div_lt_upper_bound; nia. }
  rewrite (no_overflow u (k + 1)) by lia.
  cbn [floor]. rewrite Qfloor_units. f_equal.
  replace (Qfloor q / Z.pos d) with k.
  - symmetry. apply Z.div_unique with (u - k * ulpMin); lia.
  - unfold k, Qfloor. destruct q as [a b]. cbn [Qnum Qden].
    rewrite Z.div_div by lia. f_equal. lia.
Qed.

(** Below one second the quotient has integer part 0, from the divisor
    on it has integer part 1 at least, also for a rational that is not a
    double. *)
Lemma floor_divPos_below_one (q : Q) (d : positive) :
  (0 <= q)%Q -> (q < 1)%Q -> (2 <= d)%positive ->
  floor (divPos (Finite q) d) = IInt 0.
Proof.
  intros Hq B Hd. cbn [divPos].
  destruct (Qnum_div_pos q d) as [En Ed].
  assert (Ha : 0 <= Qnum q).
  { unfold Qle in Hq. cbn [Qnum Qden] in Hq. lia. }
  assert (Bx : Qnum q < Z.pos (Qden q)).
  { unfold Qlt in B. cbn [Qnum Qden] in B. lia. }
  rewrite roundDouble_units by (rewrite En; assumption).
  rewrite En, Ed.
  set (u := roundUnits (Qnum q) (Z.pos d * Z.pos (Qden q))) in *.
  pose proof ulpMin_pos as HS.
  assert (L : 0 <= u) by (apply roundUnits_nonneg; lia).
  assert (U : u <= 1 * 2 ^ 1073).
  { apply roundUnits_le; try lia.
    assert (S2 : ulpMin = 2 * 2 ^ 1073) by reflexivity.
    assert (0 < 2 ^ 1073) by (apply pow2_pos; lia).
    assert (2 <= Z.pos d) by lia. nia. }
  assert (S2 : ulpMin = 2 * 2 ^ 1073) by reflexivity.
  assert (P : 0 < 2 ^ 1073) by (apply pow2_pos; lia).
  rewrite (no_overflow u 1) by lia.
  cbn [floor]. rewrite Qfloor_units. f_equal.
  apply Z.div_small. lia.
Qed.

Lemma floor_divPos_from_divisor (q : Q) (d : positive) :
  (inject_Z (Z.pos d) <= q)%Q ->
  floor (divPos (Finite q) d) = IInfinity false
  \/ exists z, floor (divPos (Finite q) d) = IInt z /\ 1 <= z.
Proof.
  intros B. cbn [divPos].
  destruct (Qnum_div_pos q d) as [En Ed].
  assert (Bx : Z.pos d * Z.pos (Qden q) <= Qnum q).
  { unfold Qle, inject_Z in B. cbn [Qnum Qden] in B. lia. }
  rewrite roundDouble_units by (rewrite En; lia).
  rewrite En, Ed.
  set (u := roundUnits (Qnum q) (Z.pos d * Z.pos (Qden q))) in *.
  pose proof ulpMin_pos as HS.
  assert (L : 1 * 2 ^ 1074 <= u).
  { apply roundUnits_ge; try lia. change (2 ^ 1074) with ulpMin. nia. }
  change (2 ^ 1074) with ulpMin in L.
  destruct (2 ^ 1024 * ulpMin <=? u); [now left | right].
  exists (u / ulpMin). cbn [floor]. rewrite Qfloor_units.
  split; [reflexivity|]. apply Z.div_le_lower_bound; lia.
Qed.

(** *** [Math.floor(r * k)] *)

(** The product of a double that is below 1 and a positive integer [k]
    is rounded to a double below [k]: [Math.floor(Math.random() * k)] is
    one of 0, ..., k - 1. *)
Lemma floor_mulPos_below (r : Q) (k : positive) :
  (0 <= r)%Q -> (r < 1)%Q -> isDouble r = true -> Z.pos k <= 2 ^ 53 ->
  exists z, floor (mulPos (Finite r) k) = IInt z /\ 0 <= z < Z.pos k.
Proof.
  intros Hr B D Hk. cbn [mulPos].
  assert (Ha : 0 <= Qnum r).
  { unfold Qle in Hr. cbn [Qnum Qden] in Hr. lia. }
  assert (Bx : Qnum r < Z.pos (Qden r)).
  { unfold Qlt in B. cbn [Qnum Qden] in B. lia. }
  assert (En : Qnum (r * inject_Z (Z.pos k)) = Qnum r * Z.pos k)
    by reflexivity.
  assert (Ed : Z.pos (Qden (r * inject_Z (Z.pos k))) = Z.pos (Qden r)).
  { unfold Qmult, inject_Z. cbn [Qnum Qden]. lia. }
  pose proof (roundUnits_product (Qnum r) (Z.pos (Qden r)) (Z.pos k)
                Ha ltac:(lia) ltac:(lia) (isDouble_units r Ha D) Bx) as U.
  rewrite roundDouble_units by (rewrite En; nia).
  rewrite En, Ed.
  set (u := roundUnits (Qnum r * Z.pos k) (Z.pos (Qden r))) in *.
  pose proof ulpMin_pos as HS.
  assert (L : 0 <= u) by (apply roundUnits_nonneg; nia).
  rewrite (no_overflow u (Z.pos k)) by lia.
  exists (u / ulpMin). cbn [floor]. rewrite Qfloor_units.
  split; [reflexivity|]. split.
  - apply Z.div_pos; lia.
  - apply Z.div_lt_upper_bound; lia.
Qed.

(** *** Comparison with the Standard Library's binary64 *)

(** On these dividends m * 2^e and divisors d, and on these factors,
    [divPos] and [mulPos] return the double that the division and the
    multiplication of [SpecFloat], at precision 53 and maximal exponent
    1024, return. *)
Example divPos_as_SpecFloat :
  forallb
    (fun '(m, e, d) =>
       sameNumber
         (numberOfSpec
            (SpecFloat.SFdiv 53 1024
               (SpecFloat.S754_finite false (Z.to_pos m) e)
               (SpecFloat.S754_finite false (Z.to_pos d) 0)))
         (divPos (numberOfSpec (SpecFloat.S754_finite false (Z.to_pos m) e))
                 (Z.to_pos d)))
    [(23, 0, 40); (125, -1, 60); (1, 0, 3); (1, 0, 60); (9, 0, 10);
     (8444249301319687, 3, 60); (8444249301319681, 6, 60);
     (9007199254740991, 0, 60); (9007199254740991, 0, 7);
     (9007199254740991, 971, 3); (1, -1074, 60); (90, -1074, 60);
     (150, -1074, 60); (4503599627370497, -1074, 2);
     (4503599627370499, -1074, 2); (9007199254740991, -1074, 2);
     (6004799503160661, -54, 1); (7, -1000, 60)]%Z
  = true.
Proof. vm_compute. reflexivity. Qed.

Example mulPos_as_SpecFloat :
  forallb
    (fun '(m, e, d) =>
       sameNumber
         (numberOfSpec
            (SpecFloat.SFmul 53 1024
               (SpecFloat.S754_finite false (Z.to_pos m) e)
               (SpecFloat.S754_finite false (Z.to_pos d) 0)))
         (mulPos (numberOfSpec (SpecFloat.S754_finite false (Z.to_pos m) e))
                 (Z.to_pos d)))
    [(5179139571476070, -53, 100); (6004799503160661, -54, 3);
     (9007199254740991, -53, 7); (9007199254740991, -53, 14);
     (9007199254740991, -53, 67); (9007199254740991, 0, 3);
     (9007199254740991, 971, 2); (1, -1074, 60); (3, -2, 100)]%Z
  = true.
Proof. vm_compute. reflexivity. Qed.

(** 0.1 is no double; 0.125 and 2^53 are; 2^53 + 1 is not. *)
Example isDouble_samples :
  (isDouble (1 # 10), isDouble (1 # 8), isDouble (inject_Z (2 ^ 53)),
   isDouble (inject_Z (2 ^ 53 + 1)))
  = (false, true, true, false).
Proof. vm_compute. reflexivity. Qed.

End DoubleFacts.

(* ===================================================================== *)
(** ** Numbers and their decimal form                                     *)
(* ===================================================================== *)

Module NumberFacts.

Import JS.

Lemma Qfloor_div_pos (q : Q) (d : positive) :
  Qfloor (q / inject_Z (Z.pos d)) = (Qfloor q / Z.pos d)%Z.
Proof.
  destruct q as [n den]. unfold Qdiv, Qinv, Qmult, Qfloor, inject_Z; simpl.
  rewrite Z.mul_1_r, Pos2Z.inj_mul.
  symmetry. apply Z.div_div; lia.
Qed.

Lemma Qfloor_minus_Z (q : Q) (z : Z) :
  Qfloor (q - inject_Z z) = (Qfloor q - z)%Z.
Proof.
  destruct q as [n den]. unfold Qminus, Qplus, Qopp, Qfloor, inject_Z; simpl.
  rewrite Z.mul_1_r, Pos.mul_1_r.
  replace (n + - z * Z.pos den)%Z with (n + (- z) * Z.pos den)%Z by lia.
  rewrite Z.div_add by lia. lia.
Qed.

Lemma Qtrunc_nonneg (q : Q) (d : positive) :
  (0 <= q)%Q -> Qtrunc (q / inject_Z (Z.pos d)) = (Qfloor q / Z.pos d)%Z.
Proof.
  intros H. unfold Qtrunc.
  assert (E : Qle_bool 0 (q / inject_Z (Z.pos d)) = true).
  { apply Qle_bool_iff. apply Qle_shift_div_l.
    - reflexivity.
    - now rewrite Qmult_0_l. }
  rewrite E. apply Qfloor_div_pos.
Qed.

(** On a non-negative finite number, [Math.floor(x % d)] is the remainder
    of the integer part. *)
Lemma floor_remPos (q : Q) (d : positive) :
  (0 <= q)%Q ->
  floor (remPos (Finite q) d) = IInt (Qfloor q mod Z.pos d).
Proof.
  intros H. cbn [floor remPos].
  rewrite Qfloor_minus_Z, Qtrunc_nonneg by assumption.
  f_equal. rewrite Z.mod_eq by lia. reflexivity.
Qed.

Lemma Qfloor_nonneg (q : Q) : (0 <= q)%Q -> (0 <= Qfloor q)%Z.
Proof.
  intros H. change 0%Z with (Qfloor 0). now apply Qfloor_resp_le.
Qed.

(** *** Decimal digits *)

Lemma string_of_uint_digits (d : Decimal.uint) :
  allChars isDigit (NilEmpty.string_of_uint d) = true.
Proof. induction d; simpl; auto. Qed.

Lemma intToString_digits (z : Z) :
  (0 <= z)%Z -> allChars isDigit (intToString z) = true.
Proof.
  intros H. unfold intToString. destruct z as [|p|p]; [reflexivity| |lia].
  cbn [Z.to_int NilZero.string_of_int]. unfold NilZero.string_of_uint.
  destruct (Pos.to_uint p) eqn:E; try reflexivity;
    apply string_of_uint_digits.
Qed.

Lemma short_uint_small (d : Decimal.uint) :
  (String.length (NilEmpty.string_of_uint d) < 2)%nat ->
  (Pos.of_uint d <= 9)%N.
Proof.
  destruct d as [|d|d|d|d|d|d|d|d|d|d]; simpl; try (intros _; lia);
    destruct d; simpl; intros H; try lia; vm_compute; discriminate.
Qed.

Lemma intToString_long (z : Z) :
  (10 <= z)%Z -> (2 <= String.length (intToString z))%nat.
Proof.
  intros H. destruct z as [|p|p]; try lia.
  unfold intToString; simpl.
  set (u := Pos.to_uint p).
  destruct (le_lt_dec 2 (String.length (NilZero.string_of_uint u)))
    as [L|L]; [assumption|exfalso].
  assert (S : (String.length (NilEmpty.string_of_uint u) < 2)%nat).
  { destruct u; simpl in *; lia. }
  apply short_uint_small in S. unfold u in S.
  rewrite DecimalPos.Unsigned.of_to in S. lia.
Qed.

(** A property of the integers below a bound, checked one by one. *)
Lemma below_by_cases (n : nat) (f : Z -> bool) :
  forallb (fun k => f (Z.of_nat k)) (seq 0 n) = true ->
  forall z, (0 <= z < Z.of_nat n)%Z -> f z = true.
Proof.
  intros H z Hz. rewrite forallb_forall in H.
  specialize (H (Z.to_nat z)). rewrite Z2Nat.id in H by lia.
  apply H. apply in_seq. lia.
Qed.

(** Padding of a one-digit and of a longer number. *)
Lemma padStart_one_digit (z : Z) :
  (0 <= z < 10)%Z ->
  padStart (intToString z) 2 "0" = String "0" (intToString z).
Proof.
  intros H.
  apply (below_by_cases 10
           (fun z => String.eqb (padStart (intToString z) 2 "0")
                                (String "0" (intToString z))))
    in H; [now apply String.eqb_eq in H | reflexivity].
Qed.

Lemma padStart_long (s pad : string) (n : nat) :
  (n <= String.length s)%nat -> padStart s n pad = s.
Proof.
  intros H. unfold padStart. now apply Nat.leb_le in H as ->.
Qed.

Lemma padStart_two (s : string) :
  (2 <= String.length (padStart s 2 "0"))%nat.
Proof. destruct s as [|a [|b s]]; cbn; lia. Qed.

Lemma padStart_below_60 (z : Z) :
  (0 <= z < 60)%Z ->
  String.length (padStart (intToString z) 2 "0") = 2%nat.
Proof.
  intros H.
  apply (below_by_cases 60
           (fun z => Nat.eqb
                       (String.length (padStart (intToString z) 2 "0")) 2))
    in H; [now apply Nat.eqb_eq in H | reflexivity].
Qed.

Lemma padStart_digits (z : Z) :
  (0 <= z)%Z -> allChars isDigit (padStart (intToString z) 2 "0") = true.
Proof.
  intros H. destruct (Z_lt_dec z 10) as [L|L].
  - rewrite padStart_one_digit by lia. simpl. now apply intToString_digits.
  - rewrite padStart_long by (apply intToString_long; lia).
    now apply intToString_digits.
Qed.

End NumberFacts.

(* ===================================================================== *)
(** ** SoundList: formatDuration, applySearch, handlePageChange           *)
(* ===================================================================== *)

Module SoundListFacts.

Import JS SoundList JSFacts DoubleFacts NumberFacts.

(** C9. For a number of seconds [q] that is a double, not negative and
    below 2^53 = 9007199254740992, [formatDuration] returns
    MM ++ ":" ++ SS, where MM prints m = floor(q / 60) and SS prints
    r = floor(q mod 60) (which is also floor(q) mod 60), each in decimal
    digits with one leading zero when the number is below 10; r is between
    0 and 59, SS has exactly two digits and MM at least two.  The code
    takes the floor of the rounded quotient; below 2^53 that is the floor
    of the exact one. *)
Theorem formatDuration_MM_SS (q : Q) :
  isDouble q = true ->
  (0 <= q)%Q ->
  (q < inject_Z (2 ^ 53))%Q ->
  exists (m r : Z) (MM SS : string),
    formatDuration (Finite q) = MM ++ ":" ++ SS /\
    m = Qfloor (q / inject_Z 60) /\
    r = Qfloor (q - inject_Z (60 * m)) /\
    r = (Qfloor q mod 60)%Z /\
    (0 <= m)%Z /\ (0 <= r <= 59)%Z /\
    MM = (if (m <? 10)%Z then String "0" (intToString m)
          else intToString m) /\
    SS = (if (r <? 10)%Z then String "0" (intToString r)
          else intToString r) /\
    allChars isDigit MM = true /\ allChars isDigit SS = true /\
    (2 <= String.length MM)%nat /\ String.length SS = 2%nat.
Proof.
  intros Dq Hq Bq.
  pose proof (Qfloor_nonneg q Hq) as Hf.
  set (m := (Qfloor q / 60)%Z).
  set (r := (Qfloor q mod 60)%Z).
  assert (Hm : (0 <= m)%Z) by (apply Z.div_pos; lia).
  assert (Hr : (0 <= r < 60)%Z) by (apply Z.mod_pos_bound; lia).
  assert (Em : m = Qfloor (q / inject_Z 60)).
  { unfold m. symmetry. apply (Qfloor_div_pos q 60). }
  assert (Er : r = Qfloor (q - inject_Z (60 * m))).
  { rewrite Qfloor_minus_Z. unfold r, m. now rewrite Z.mod_eq by lia. }
  assert (Pm : padStart (intToString m) 2 "0"
               = if (m <? 10)%Z then String "0" (intToString m)
                 else intToString m).
  { destruct (Z.ltb_spec m 10).
    - apply padStart_one_digit; lia.
    - apply padStart_long, intToString_long; lia. }
  assert (Pr : padStart (intToString r) 2 "0"
               = if (r <? 10)%Z then String "0" (intToString r)
                 else intToString r).
  { destruct (Z.ltb_spec r 10).
    - apply padStart_one_digit; lia.
    - apply padStart_long, intToString_long; lia. }
  exists m, r, (padStart (intToString m) 2 "0"),
         (padStart (intToString r) 2 "0").
  repeat split; try assumption; try lia.
  - unfold formatDuration.
    rewrite (floor_divPos q 60 Hq Dq Bq), (floor_remPos q 60 Hq).
    reflexivity.
  - apply padStart_digits; lia.
  - apply padStart_digits; lia.
  - apply padStart_two.
  - apply padStart_below_60; lia.
Qed.

(** 62.5 seconds are shown as 01:02. *)
Lemma formatDuration_MM_SS_witness :
  exists (m r : Z) (MM SS : string),
    formatDuration (Finite (125 # 2)) = MM ++ ":" ++ SS /\
    m = Qfloor ((125 # 2) / inject_Z 60) /\
    r = Qfloor ((125 # 2) - inject_Z (60 * m)) /\
    r = (Qfloor (125 # 2) mod 60)%Z /\
    (0 <= m)%Z /\ (0 <= r <= 59)%Z /\
    MM = (if (m <? 10)%Z then String "0" (intToString m)
          else intToString m) /\
    SS = (if (r <? 10)%Z then String "0" (intToString r)
          else intToString r) /\
    allChars isDigit MM = true /\ allChars isDigit SS = true /\
    (2 <= String.length MM)%nat /\ String.length SS = 2%nat.
Proof.
  apply (formatDuration_MM_SS (125 # 2)).
  - vm_compute. reflexivity.
  - unfold Qle; simpl; lia.
  - reflexivity.
Defined.

(** C9, counterexample.  Without the bound the claim fails.  The number
    60 * 2^50 + 56 = 67553994410557496 is a double; its exact quotient by
    60 is 2^50 + 14/15, and the doubles around it are 1/4 apart, so the
    quotient is rounded up to 2^50 + 1: the minutes read 1125899906842625,
    where floor(seconds / 60) is 1125899906842624. *)
Lemma formatDuration_rounds_minutes_up :
  isDouble (inject_Z (60 * 2 ^ 50 + 56)) = true
  /\ (0 <= inject_Z (60 * 2 ^ 50 + 56))%Q
  /\ formatDuration (Finite (inject_Z (60 * 2 ^ 50 + 56)))
     = "1125899906842625:56"
  /\ Qfloor (inject_Z (60 * 2 ^ 50 + 56) / inject_Z 60)
     = 1125899906842624%Z
  /\ ~ (forall q : Q,
           isDouble q = true -> (0 <= q)%Q ->
           exists SS : string,
             formatDuration (Finite q)
             = padStart (intToString (Qfloor (q / inject_Z 60))) 2 "0"
               ++ ":" ++ SS).
Proof.
  split; [vm_compute; reflexivity|].
  split; [discriminate|].
  split; [vm_compute; reflexivity|].
  split; [vm_compute; reflexivity|].
  intros H.
  destruct (H (inject_Z (60 * 2 ^ 50 + 56))) as [SS E].
  - vm_compute. reflexivity.
  - discriminate.
  - vm_compute in E. discriminate E.
Qed.

Example formatDuration_62_5 : formatDuration (Finite (125 # 2)) = "01:02".
Proof. reflexivity. Qed.

Example formatDuration_3725 : formatDuration (Finite (3725 # 1)) = "62:05".
Proof. reflexivity. Qed.

Example formatDuration_6000 : formatDuration (Finite (6000 # 1)) = "100:00".
Proof. reflexivity. Qed.

Example formatDuration_NaN : formatDuration NaN = "NaN:NaN".
Proof. reflexivity. Qed.

(** From 60 * 2^53 seconds on the quotient is 2^53 or more, where the
    doubles are two or more apart. *)
Example formatDuration_15_2_55 :
  formatDuration (Finite (inject_Z (15 * 2 ^ 55 + 64)))
  = "9007199254740994:04"
  /\ Qfloor (inject_Z (15 * 2 ^ 55 + 64) / inject_Z 60)
     = 9007199254740993%Z.
Proof. split; vm_compute; reflexivity. Qed.

(** *** applySearch *)

Lemma applySearch_filteredSounds term l st :
  filteredSounds (applySearch term l st)
  = if allChars isWhiteSpace term then l else filter (matchesTerm term) l.
Proof.
  unfold applySearch. rewrite blank_guard.
  now destruct (allChars isWhiteSpace term).
Qed.

Lemma applySearch_sounds term l st :
  sounds (applySearch term l st) = sounds st.
Proof.
  unfold applySearch.
  now destruct (negb (truthyString term) || negb (truthyString (trim term))).
Qed.

Lemma matchesTerm_spec term s :
  matchesTerm term s = true <->
  exists pre post, toLowerCase (name s) = pre ++ toLowerCase term ++ post.
Proof. apply includes_spec. Qed.

(** C3. [applySearch term l] stores in [filteredSounds] the whole list [l]
    when the term is empty or has only white space, and otherwise the
    sounds of [l], in their order, whose lowercased name has the lowercased
    term as a substring; a sound is kept exactly when it is in [l] and its
    name matches.  No other state cell changes. *)
Theorem applySearch_substring_filter (term : string) (l : list sound)
        (st : state) :
  filteredSounds (applySearch term l st)
  = (if allChars isWhiteSpace term then l
     else filter (fun s => includes (toLowerCase (name s))
                                    (toLowerCase term)) l)
  /\ (forall s,
        In s (filter (fun s => includes (toLowerCase (name s))
                                        (toLowerCase term)) l)
        <-> In s l /\
            exists pre post,
              toLowerCase (name s) = pre ++ toLowerCase term ++ post)
  /\ applySearch term l st
     = setFilteredSounds (filteredSounds (applySearch term l st)) st.
Proof.
  split; [apply applySearch_filteredSounds|]. split.
  - intros s. rewrite filter_In, includes_spec. reflexivity.
  - unfold applySearch.
    now destruct (negb (truthyString term)
                  || negb (truthyString (trim term))).
Qed.

(** *** handlePageChange *)

(** C7. [handlePageChange page] stores [page] in [currentPage] and leaves
    every other state cell as it was. *)
Theorem handlePageChange_frame (page : Z) (st : state) :
  currentPage (handlePageChange page st) = page
  /\ sounds (handlePageChange page st) = sounds st
  /\ filteredSounds (handlePageChange page st) = filteredSounds st
  /\ searchTerm (handlePageChange page st) = searchTerm st
  /\ selectedSounds (handlePageChange page st) = selectedSounds st
  /\ isLoading (handlePageChange page st) = isLoading st
  /\ currentlyPlayingId (handlePageChange page st) = currentlyPlayingId st
  /\ isAddModalOpen (handlePageChange page st) = isAddModalOpen st
  /\ isDeleteModalOpen (handlePageChange page st) = isDeleteModalOpen st
  /\ totalPages (handlePageChange page st) = totalPages st
  /\ limit (handlePageChange page st) = limit st
  /\ isShareModalOpen (handlePageChange page st) = isShareModalOpen st
  /\ shareData (handlePageChange page st) = shareData st.
Proof. repeat split. Qed.

End SoundListFacts.

(* ===================================================================== *)
(** ** SoundList: toggleSelect                                            *)
(* ===================================================================== *)

Module ToggleFacts.

Import JS SoundList Vocabulary SoundListFacts.

Lemma toggle_admin_sounds i st :
  sounds (toggleSelect true i st)
  = map (fun s => if hasId i s then withSelected (negb (selected s)) s
                  else s) (sounds st).
Proof. unfold toggleSelect. now rewrite applySearch_sounds. Qed.

Lemma toggle_user_sounds i st :
  sounds (toggleSelect false i st)
  = if match find (hasId i) (sounds st) with
       | Some t => selected t
       | None => false
       end
    then map (fun s => if hasId i s then withSelected false s else s)
             (sounds st)
    else map (fun s => if hasId i s then withSelected true s
                       else withSelected false s) (sounds st).
Proof.
  unfold toggleSelect.
  destruct (match find (hasId i) (sounds st) with
            | Some t => selected t
            | None => false
            end); now rewrite applySearch_sounds.
Qed.

Lemma Forall2_map_pointwise {A B} (R : A -> B -> Prop) (f : A -> B) l :
  (forall x, In x l -> R x (f x)) -> Forall2 R l (map f l).
Proof.
  induction l as [|x l IH]; intros H; simpl; constructor.
  - apply H. now left.
  - apply IH. intros y Hy. apply H. now right.
Qed.

Lemma withSelected_same s : withSelected (selected s) s = s.
Proof. now destruct s. Qed.

Lemma toggle_user_ids i st :
  map id (sounds (toggleSelect false i st)) = map id (sounds st).
Proof.
  rewrite toggle_user_sounds.
  destruct (match find (hasId i) (sounds st) with
            | Some t => selected t
            | None => false
            end); rewrite map_map; apply map_ext; intros s;
    now destruct (hasId i s).
Qed.

(** One non-admin toggle keeps the selected sounds on one id. *)
Lemma toggle_user_oneSelectedId i st :
  oneSelectedId (sounds st) ->
  oneSelectedId (sounds (toggleSelect false i st)).
Proof.
  intros Inv. rewrite toggle_user_sounds.
  destruct (find (hasId i) (sounds st)) as [t|] eqn:F;
    [destruct (selected t) eqn:St|].
  - (* the target is selected: afterwards nothing is *)
    apply find_some in F as [Ht Hi]. unfold hasId in Hi.
    apply String.eqb_eq in Hi.
    intros s1 s2 H1 _ S1 _. exfalso.
    apply in_map_iff in H1 as (x & <- & Hx).
    destruct (hasId i x) eqn:Hx'; [discriminate S1|].
    unfold hasId in Hx'. apply String.eqb_neq in Hx'.
    apply Hx'. rewrite <- Hi. now apply Inv.
  - intros s1 s2 H1 H2 S1 S2.
    apply in_map_iff in H1 as (x & <- & _).
    apply in_map_iff in H2 as (y & <- & _).
    destruct (hasId i x) eqn:Hx; [|discriminate S1].
    destruct (hasId i y) eqn:Hy; [|discriminate S2].
    unfold hasId in *. apply String.eqb_eq in Hx, Hy. simpl. congruence.
  - intros s1 s2 H1 H2 S1 S2.
    apply in_map_iff in H1 as (x & <- & _).
    apply in_map_iff in H2 as (y & <- & _).
    destruct (hasId i x) eqn:Hx; [|discriminate S1].
    destruct (hasId i y) eqn:Hy; [|discriminate S2].
    unfold hasId in *. apply String.eqb_eq in Hx, Hy. simpl. congruence.
Qed.

Lemma toggleMany_user ids st :
  oneSelectedId (sounds st) ->
  oneSelectedId (sounds (toggleMany false ids st))
  /\ map id (sounds (toggleMany false ids st)) = map id (sounds st).
Proof.
  unfold toggleMany. revert st.
  induction ids as [|i ids IH]; intros st Inv; cbn [fold_left];
    [now split|].
  destruct (IH (toggleSelect false i st)) as [H1 H2].
  - now apply toggle_user_oneSelectedId.
  - split; [assumption|]. now rewrite H2, toggle_user_ids.
Qed.

Lemma unselected_oneSelectedId l :
  Forall (fun s => selected s = false) l -> oneSelectedId l.
Proof.
  intros H s1 s2 H1 _ S1 _. rewrite Forall_forall in H.
  apply H in H1. congruence.
Qed.

(** With distinct ids, "one selected id" means "at most one selected
    sound". *)
Lemma oneSelectedId_count l :
  NoDup (map id l) -> oneSelectedId l ->
  (length (filter selected l) <= 1)%nat.
Proof.
  induction l as [|s l IH]; intros ND Inv; simpl; [lia|].
  inversion ND as [|? ? Hnin ND']; subst.
  assert (Inv' : oneSelectedId l).
  { intros s1 s2 H1 H2. apply Inv; now right. }
  destruct (selected s) eqn:Ss; [|now apply IH].
  simpl. destruct (filter selected l) as [|t r] eqn:F; [simpl; lia|].
  exfalso. assert (Ht : In t (filter selected l)) by (rewrite F; now left).
  apply filter_In in Ht as [Ht St].
  apply Hnin. rewrite (Inv s t); [now apply in_map| now left | now right
                                  | assumption | assumption].
Qed.

(** C8. Non-admin: after any run of [toggleSelect] calls that starts with
    nothing selected, all selected sounds have one id, so at most one sound
    is selected when the ids of the list are distinct.  One call on a
    target that is not selected (or not in the list) selects the sounds
    with that id and deselects every other one; one call on a selected
    target deselects it and changes nothing else.  Admin: one call flips
    the flag of the sounds with that id and keeps every other flag.  In
    all cases only the [selected] field of a sound changes. *)
Theorem toggleSelect_selection :
  (forall (st : state) (ids : list string),
      Forall (fun s => selected s = false) (sounds st) ->
      oneSelectedId (sounds (toggleMany false ids st))
      /\ (NoDup (map id (sounds st)) ->
          (length (filter selected (sounds (toggleMany false ids st))) <= 1)
            %nat))
  /\ (forall (st : state) (i : string),
         Forall2 (fun x x' =>
                    withSelected (selected x) x' = x /\
                    selected x' =
                      if match find (hasId i) (sounds st) with
                         | Some t => selected t
                         | None => false
                         end
                      then (if String.eqb (id x) i then false
                            else selected x)
                      else String.eqb (id x) i)
                 (sounds st) (sounds (toggleSelect false i st)))
  /\ (forall (st : state) (i : string),
         Forall2 (fun x x' =>
                    withSelected (selected x) x' = x /\
                    selected x' =
                      if String.eqb (id x) i then negb (selected x)
                      else selected x)
                 (sounds st) (sounds (toggleSelect true i st))).
Proof.
  split; [|split].
  - intros st ids H0.
    destruct (toggleMany_user ids st (unselected_oneSelectedId _ H0))
      as [H1 H2].
    split; [assumption|]. intros ND.
    apply oneSelectedId_count; [now rewrite H2 | assumption].
  - intros st i. rewrite toggle_user_sounds.
    destruct (match find (hasId i) (sounds st) with
              | Some t => selected t
              | None => false
              end);
      apply Forall2_map_pointwise; intros x _; unfold hasId;
      destruct (String.eqb (id x) i); simpl; destruct x; auto.
  - intros st i. rewrite toggle_admin_sounds.
    apply Forall2_map_pointwise; intros x _; unfold hasId;
      destruct (String.eqb (id x) i); simpl; destruct x; auto.
Qed.

(** On the sample state, whose three ids are distinct: after four calls
    at most one sound is selected. *)
Lemma toggleSelect_selection_witness :
  (length (filter selected
             (sounds (toggleMany false ["a"; "b"; "b"; "c"] demoState)))
   <= 1)%nat.
Proof.
  destruct toggleSelect_selection as [H _].
  destruct (H demoState ["a"; "b"; "b"; "c"]) as [_ H1].
  - repeat constructor.
  - apply H1. repeat constructor; simpl; intuition discriminate.
Defined.

(** C8, counterexample.  Without distinct ids the count fails: in a list
    with two entries of one id nothing is selected, and one call selects
    both entries. *)
Lemma same_id_selected_together :
  Forall (fun s => selected s = false) (sounds twinState)
  /\ map selected (sounds (toggleSelect false "a" twinState))
     = [true; true]
  /\ ~ (forall (st : state) (ids : list string),
           Forall (fun s => selected s = false) (sounds st) ->
           (length (filter selected (sounds (toggleMany false ids st)))
            <= 1)%nat).
Proof.
  split; [repeat constructor|]. split; [reflexivity|].
  intros H. specialize (H twinState ["a"]).
  assert (U : Forall (fun s => selected s = false) (sounds twinState))
    by repeat constructor.
  apply H in U. vm_compute in U. lia.
Qed.

Example toggle_user_run :
  map selected (sounds (toggleMany false ["a"; "b"; "b"; "c"] demoState))
  = [false; false; true].
Proof. reflexivity. Qed.

(** The ids are what tells sounds apart: two entries with one id are
    selected together. *)
Example toggle_user_same_id :
  map selected
      (sounds (toggleSelect false "a"
                 (setSounds [demoSound "a" None false;
                             demoSound "a" None false] initialState)))
  = [true; true].
Proof. reflexivity. Qed.

Example toggle_admin_run :
  map selected (sounds (toggleMany true ["a"; "b"; "b"; "c"] demoState))
  = [true; false; true].
Proof. reflexivity. Qed.

End ToggleFacts.

(* ===================================================================== *)
(** ** SoundList: loadAudioDurations                                      *)
(* ===================================================================== *)

Module LoadFacts.

Import JS SoundList Vocabulary.

Local Open Scope list_scope.

Section Run.

Variable assetsUrl : string.

Lemma createPromises_app l1 : forall i l2,
  createPromises assetsUrl i (l1 ++ l2)
  = (createPromises assetsUrl i l1
     ++ createPromises assetsUrl (i + length l1) l2)%list.
Proof.
  induction l1 as [|s l1 IH]; intros i l2; simpl.
  - now rewrite Nat.add_0_r.
  - rewrite IH.
    replace (S i + length l1)%nat with (i + S (length l1))%nat by lia.
    now destruct (hasDuration s).
Qed.


Variable env : nat -> outcome.

Lemma setDurationAt_middle pre s post d :
  setDurationAt (length pre) d (pre ++ s :: post)
  = pre ++ withDuration d s :: post.
Proof. induction pre as [|x pre IH]; simpl; [reflexivity | now rewrite IH]. Qed.

Lemma settle_middle pre s post :
  hasDuration s = false ->
  settle (length pre) (env (length pre)) (pre ++ s :: post)
  = pre ++ resolved env (length pre) s :: post.
Proof.
  intros H. unfold settle, resolved. rewrite H.
  destruct (env (length pre)); apply setDurationAt_middle.
Qed.

(** One batch: the items of the batch are resolved, the rest of the array
    is untouched. *)
Lemma awaitAll_batch batch : forall pre post,
  awaitAll env (createPromises assetsUrl (length pre) batch)
           (pre ++ batch ++ post)
  = pre ++ resolveFrom env (length pre) batch ++ post.
Proof.
  induction batch as [|s batch IH]; intros pre post; [reflexivity|].
  cbn [createPromises resolveFrom app].
  assert (L : S (length pre) = length (pre ++ [s])%list)
    by (rewrite length_app; simpl; lia).
  assert (L' : forall x, S (length pre) = length (pre ++ [x])%list)
    by (intros x; rewrite length_app; simpl; lia).
  destruct (hasDuration s) eqn:H.
  - rewrite (L' s).
    replace (pre ++ s :: batch ++ post)%list
      with ((pre ++ [s]) ++ batch ++ post)%list
      by (now rewrite <- app_assoc).
    rewrite IH, <- app_assoc. simpl.
    unfold resolved at 1. now rewrite H.
  - unfold awaitAll. cbn [fold_left index].
    rewrite settle_middle by assumption.
    fold (awaitAll env (createPromises assetsUrl (S (length pre)) batch)
                   (pre ++ resolved env (length pre) s :: batch ++ post)).
    rewrite (L' (resolved env (length pre) s)).
    replace (pre ++ resolved env (length pre) s :: batch ++ post)%list
      with ((pre ++ [resolved env (length pre) s]) ++ batch ++ post)%list
      by (now rewrite <- app_assoc).
    rewrite IH, <- app_assoc. reflexivity.
Qed.

Lemma resolveFrom_length i l : length (resolveFrom env i l) = length l.
Proof. revert i; induction l; intros i; simpl; auto. Qed.

Lemma resolveFrom_app l1 : forall i l2,
  resolveFrom env i (l1 ++ l2)
  = (resolveFrom env i l1 ++ resolveFrom env (i + length l1) l2)%list.
Proof.
  induction l1 as [|s l1 IH]; intros i l2; simpl.
  - now rewrite Nat.add_0_r.
  - rewrite IH. now replace (S i + length l1)%nat with (i + S (length l1))%nat
      by lia.
Qed.

Lemma resolveFrom_nth l : forall i k s,
  nth_error l k = Some s ->
  nth_error (resolveFrom env i l) k = Some (resolved env (i + k) s).
Proof.
  induction l as [|x l IH]; intros i [|k] s H; simpl in *; try discriminate.
  - injection H as ->. now rewrite Nat.add_0_r.
  - rewrite (IH (S i) k s H). f_equal. f_equal. lia.
Qed.

Lemma loop_done i a :
  (length a <= i)%nat -> loop assetsUrl env i a = (a, []).
Proof.
  intros H. rewrite loop_equation_1.
  destruct (lt_dec i (length a)); [lia | reflexivity].
Qed.

Lemma loop_step i a :
  (i < length a)%nat ->
  loop assetsUrl env i a
  = let batch := slice i BATCH_SIZE a in
    let ps := createPromises assetsUrl i batch in
    let a' := awaitAll env ps a in
    let r := loop assetsUrl env (i + BATCH_SIZE) a' in
    (fst r, mkBatchLog i batch ps (consoleErrors env ps) a' :: snd r).
Proof.
  intros H. rewrite loop_equation_1.
  destruct (lt_dec i (length a)); [reflexivity | lia].
Qed.

Lemma slice_app pre rest :
  slice (length pre) BATCH_SIZE (pre ++ rest) = firstn BATCH_SIZE rest.
Proof.
  unfold slice. now rewrite skipn_app, Nat.sub_diag, skipn_all.
Qed.

Lemma loop_spec : forall n pre rest,
  (length rest <= n)%nat ->
  loopSpec assetsUrl env pre rest
           (fst (loop assetsUrl env (length pre) (pre ++ rest)))
           (snd (loop assetsUrl env (length pre) (pre ++ rest))).
Proof.
  induction n as [|n IH]; intros pre rest Hn.
  - destruct rest; [|simpl in Hn; lia].
    rewrite loop_done by (rewrite app_nil_r; lia).
    constructor; simpl; auto.
  - destruct (Nat.eq_dec (length rest) 0) as [Z0|NZ].
    { apply length_zero_iff_nil in Z0. subst rest.
      rewrite loop_done by (rewrite app_nil_r; lia).
      constructor; simpl; auto. }
    rewrite loop_step by (rewrite length_app; lia).
    cbv zeta. rewrite slice_app.
    pose proof (firstn_skipn BATCH_SIZE rest) as Er.
    pose proof (length_firstn BATCH_SIZE rest) as Lb.
    pose proof (length_skipn BATCH_SIZE rest) as Lr'.
    set (batch := firstn BATCH_SIZE rest) in *.
    set (rest' := skipn BATCH_SIZE rest) in *.
    assert (Lb1 : (1 <= length batch <= BATCH_SIZE)%nat)
      by (unfold BATCH_SIZE in *; lia).
    assert (Lfull : rest' = [] \/ length batch = BATCH_SIZE).
    { destruct (le_lt_dec (length rest) BATCH_SIZE).
      - left. apply length_zero_iff_nil. lia.
      - right. lia. }
    assert (Hn' : (length rest' <= n)%nat) by (unfold BATCH_SIZE in *; lia).
    clearbody batch rest'. subst rest. clear Lb Lr' NZ Hn.
    rewrite awaitAll_batch, app_assoc.
    set (pre' := pre ++ resolveFrom env (length pre) batch) in *.
    assert (Lp : length pre' = (length pre + length batch)%nat).
    { unfold pre'. now rewrite length_app, resolveFrom_length. }
    assert (Fin : pre' ++ resolveFrom env (length pre') rest'
                  = pre ++ resolveFrom env (length pre) (batch ++ rest')).
    { unfold pre'. rewrite <- app_assoc, resolveFrom_app. do 3 f_equal.
      now rewrite length_app, resolveFrom_length. }
    destruct Lfull as [E'|Lb5].
    + (* last batch *)
      subst rest'.
      rewrite loop_done by (rewrite app_nil_r, Lp; lia).
      cbn [fst snd]. rewrite !app_nil_r in *.
      constructor; cbn [map concat flat_map batchItems batchIndices armed
                        batchStart published last]; rewrite ?app_nil_r.
      * reflexivity.
      * reflexivity.
      * reflexivity.
      * reflexivity.
      * constructor; [|constructor]. cbn [batchItems batchStart].
        repeat split; try lia. exists 0%nat. lia.
      * split; [|reflexivity].
        constructor; [|constructor]. cbn [published].
        now rewrite Lp, length_app.
    + (* a full batch, more to come *)
      replace (length pre + BATCH_SIZE)%nat with (length pre') by lia.
      destruct (IH pre' rest' Hn') as [F I X A Z P].
      cbn [fst snd].
      constructor; cbn [map concat flat_map batchItems batchIndices armed
                        batchStart published].
      * now rewrite F.
      * now rewrite I.
      * rewrite X, Lp, length_app, seq_app. reflexivity.
      * now rewrite A, Lp, createPromises_app.
      * constructor.
        { cbn [batchItems batchStart]. rewrite length_app.
          repeat split; try lia. exists 0%nat. lia. }
        { eapply Forall_impl; [|exact Z]. intros b (H1 & H2 & k & H3).
          repeat split; try assumption.
          - rewrite H1, length_app. f_equal. lia.
          - exists (S k). lia. }
      * destruct P as [P1 P2]. split.
        { constructor.
          - cbn [published]. rewrite !length_app. lia.
          - eapply Forall_impl; [|exact P1]. intros b Hb.
            rewrite Hb, !length_app. lia. }
        { intros d.
          destruct (snd (loop assetsUrl env (length pre') (pre' ++ rest')))
            as [|b0 log0] eqn:El.
          - (* no further batch: nothing was left *)
            simpl in I. subst rest'. cbn [last published].
            rewrite loop_done by (rewrite app_nil_r; lia).
            now rewrite app_nil_r.
          - specialize (P2 d). cbn [last] in *. exact P2. }
Qed.

End Run.





(** The state after a run shows what the last batch published. *)
Lemma publish_last (log : list batchLog) (b : batchLog) (st : state) :
  sounds (publish (log ++ [b]) st) = published b
  /\ filteredSounds (publish (log ++ [b]) st) = published b.
Proof.
  unfold publish. rewrite fold_left_app. simpl. now split.
Qed.

Example load_demo_durations :
  map duration (fst (loadAudioDurations "https://cdn" demoEnv demoList))
  = [Some "01:02"; Some "00:00"; Some "01:30"; Some "00:00"; Some "00:00";
     Some "00:00"; Some "00:00"]%string.
Proof. reflexivity. Qed.

Example load_demo_batches :
  map batchIndices (snd (loadAudioDurations "https://cdn" demoEnv demoList))
  = [[0; 1; 2; 3; 4]; [5; 6]]%nat.
Proof. reflexivity. Qed.

Example load_demo_timers :
  map (fun p => (index p, timeoutMs p))
      (flat_map armed
         (snd (loadAudioDurations "https://cdn" demoEnv demoList)))
  = [(0, 5000%Z); (1, 5000%Z); (3, 5000%Z); (4, 5000%Z); (5, 5000%Z);
     (6, 5000%Z)]%nat.
Proof. reflexivity. Qed.

End LoadFacts.

(* ===================================================================== *)
(** ** SignUp: schema, submission, back-end errors                        *)
(* ===================================================================== *)

Module SignUpFacts.

Import JS Form Vocabulary JSFacts.

Lemma orElse_spec (o : option string) (fallback : string) :
  orElse o fallback
  = match o with
    | Some m => if String.eqb m EmptyString then fallback else m
    | None => fallback
    end.
Proof.
  destruct o as [m|]; [|reflexivity]. unfold orElse, truthyString.
  now destruct (String.eqb m EmptyString).
Qed.

Lemma ltb_length_false (n : nat) (s : string) :
  (String.length s <? n)%nat = false <-> (n <= String.length s)%nat.
Proof. rewrite Nat.ltb_ge. reflexivity. Qed.

Lemma literalTrue_nil (m f : string) (v : value) :
  literalTrue m f v = [] <-> v = VBool true.
Proof.
  destruct v as [| |[]| |]; simpl; split; intros H;
    try reflexivity; try discriminate.
Qed.

(** *** The simplified schema *)

Lemma simplified_accepts isEmail (v : SignUpSimplified.values) :
  SignUpSimplified.accepts isEmail v = true <->
  isEmail (SignUpSimplified.email v) = true
  /\ (6 <= String.length (SignUpSimplified.password v))%nat
  /\ SignUpSimplified.agreeToTerms v = VBool true.
Proof.
  unfold SignUpSimplified.accepts, SignUpSimplified.signUpSchema,
    SignUpSimplified.schemaIssues, emailCheck, minLength.
  rewrite <- ltb_length_false,
    <- (literalTrue_nil "You must agree to the terms" "agreeToTerms").
  destruct (isEmail (SignUpSimplified.email v));
    destruct (String.length (SignUpSimplified.password v) <? 6)%nat;
    destruct (literalTrue _ _ (SignUpSimplified.agreeToTerms v));
    simpl; split; try tauto; try discriminate;
    intros (H1 & H2 & H3); discriminate.
Qed.

Lemma simplified_messages isEmail (v : SignUpSimplified.values) :
  (isEmail (SignUpSimplified.email v) = false ->
   fieldError (SignUpSimplified.schemaIssues isEmail v) "email"
   = Some "Invalid email address")
  /\ ((String.length (SignUpSimplified.password v) < 6)%nat ->
      fieldError (SignUpSimplified.schemaIssues isEmail v) "password"
      = Some "Password must be at least 6 characters")
  /\ (SignUpSimplified.agreeToTerms v <> VBool true ->
      fieldError (SignUpSimplified.schemaIssues isEmail v) "agreeToTerms"
      = Some "You must agree to the terms").
Proof.
  unfold SignUpSimplified.schemaIssues, emailCheck, minLength.
  repeat split.
  - intros ->. reflexivity.
  - intros H. apply Nat.ltb_lt in H. rewrite H.
    now destruct (isEmail (SignUpSimplified.email v)).
  - intros H.
    assert (E : literalTrue "You must agree to the terms" "agreeToTerms"
                  (SignUpSimplified.agreeToTerms v)
                = [mkIssue "agreeToTerms" "You must agree to the terms"]).
    { destruct (SignUpSimplified.agreeToTerms v) as [| |[]| |];
        try reflexivity. congruence. }
    rewrite E.
    destruct (isEmail (SignUpSimplified.email v));
      now destruct (String.length (SignUpSimplified.password v) <? 6)%nat.
Qed.

Lemma simplified_rejected isEmail signUp (v : SignUpSimplified.values) :
  SignUpSimplified.accepts isEmail v = false ->
  SignUpSimplified.handleSubmit isEmail signUp v
  = (SignUpSimplified.schemaIssues isEmail v, [])
  /\ SignUpSimplified.schemaIssues isEmail v <> [].
Proof.
  unfold SignUpSimplified.accepts, SignUpSimplified.handleSubmit,
    SignUpSimplified.signUpSchema.
  destruct (SignUpSimplified.schemaIssues isEmail v);
    [discriminate | intros _; split; [reflexivity | discriminate]].
Qed.

(** *** The full schema *)

Lemma full_accepts isEmail isPhone (v : SignUp.values) :
  SignUp.accepts isEmail isPhone v = true <->
  (2 <= String.length (SignUp.fullName v))%nat
  /\ (1 <= String.length (SignUp.phone v))%nat
  /\ isPhone (SignUp.phone v) = true
  /\ isEmail (SignUp.email v) = true
  /\ (6 <= String.length (SignUp.password v))%nat
  /\ SignUp.agreeToTerms v = VBool true.
Proof.
  unfold SignUp.accepts, SignUp.signUpSchema, emailCheck, minLength, refine.
  rewrite <- !ltb_length_false,
    <- (literalTrue_nil "You must agree to the terms" "agreeToTerms").
  destruct (String.length (SignUp.fullName v) <? 2)%nat;
    destruct (String.length (SignUp.phone v) <? 1)%nat;
    destruct (isPhone (SignUp.phone v));
    destruct (isEmail (SignUp.email v));
    destruct (String.length (SignUp.password v) <? 6)%nat;
    destruct (literalTrue _ _ (SignUp.agreeToTerms v));
    simpl; split; try tauto; try discriminate;
    intros (H1 & H2 & H3 & H4 & H5 & H6); discriminate.
Qed.

Lemma full_messages isEmail isPhone (v : SignUp.values) :
  ((String.length (SignUp.fullName v) < 2)%nat ->
   fieldError (SignUp.signUpSchema isEmail isPhone v) "fullName"
   = Some "Name is required")
  /\ (SignUp.phone v = EmptyString ->
      fieldError (SignUp.signUpSchema isEmail isPhone v) "phone"
      = Some "Phone number is required")
  /\ (SignUp.phone v <> EmptyString -> isPhone (SignUp.phone v) = false ->
      fieldError (SignUp.signUpSchema isEmail isPhone v) "phone"
      = Some "Please enter a valid phone number with country code")
  /\ (isEmail (SignUp.email v) = false ->
      fieldError (SignUp.signUpSchema isEmail isPhone v) "email"
      = Some "Invalid email address")
  /\ ((String.length (SignUp.password v) < 6)%nat ->
      fieldError (SignUp.signUpSchema isEmail isPhone v) "password"
      = Some "Password must be at least 6 characters")
  /\ (SignUp.agreeToTerms v <> VBool true ->
      fieldError (SignUp.signUpSchema isEmail isPhone v) "agreeToTerms"
      = Some "You must agree to the terms").
Proof.
  unfold SignUp.signUpSchema, emailCheck, minLength, refine.
  refine (conj _ (conj _ (conj _ (conj _ (conj _ _))))).
  - intros H. apply Nat.ltb_lt in H. now rewrite H.
  - intros ->. simpl.
    now destruct (String.length (SignUp.fullName v) <? 2)%nat.
  - intros H ->.
    assert (E : (String.length (SignUp.phone v) <? 1)%nat = false).
    { apply Nat.ltb_ge. destruct (SignUp.phone v); [congruence|simpl; lia]. }
    rewrite E.
    now destruct (String.length (SignUp.fullName v) <? 2)%nat.
  - intros ->.
    destruct (String.length (SignUp.fullName v) <? 2)%nat;
      destruct (String.length (SignUp.phone v) <? 1)%nat;
      now destruct (isPhone (SignUp.phone v)).
  - intros H. apply Nat.ltb_lt in H. rewrite H.
    destruct (String.length (SignUp.fullName v) <? 2)%nat;
      destruct (String.length (SignUp.phone v) <? 1)%nat;
      destruct (isPhone (SignUp.phone v));
      now destruct (isEmail (SignUp.email v)).
  - intros H.
    assert (E : literalTrue "You must agree to the terms" "agreeToTerms"
                  (SignUp.agreeToTerms v)
                = [mkIssue "agreeToTerms" "You must agree to the terms"]).
    { destruct (SignUp.agreeToTerms v) as [| |[]| |];
        try reflexivity. congruence. }
    rewrite E.
    destruct (String.length (SignUp.fullName v) <? 2)%nat;
      destruct (String.length (SignUp.phone v) <? 1)%nat;
      destruct (isPhone (SignUp.phone v));
      destruct (isEmail (SignUp.email v));
      now destruct (String.length (SignUp.password v) <? 6)%nat.
Qed.

Lemma full_rejected isEmail isPhone signUp (v : SignUp.values) :
  SignUp.accepts isEmail isPhone v = false ->
  SignUp.handleSubmit isEmail isPhone signUp v
  = (SignUp.signUpSchema isEmail isPhone v, [])
  /\ SignUp.signUpSchema isEmail isPhone v <> [].
Proof.
  unfold SignUp.accepts, SignUp.handleSubmit.
  destruct (SignUp.signUpSchema isEmail isPhone v);
    [discriminate | intros _; split; [reflexivity | discriminate]].
Qed.

(** C2, counterexample. On the full form of src/pages/auth/SignUp.jsx the
    three checks on email, password and terms do not suffice: a submission
    with a valid email, a password of six characters and the terms accepted
    is refused when the name and the phone number are empty. *)
Lemma full_schema_needs_name_and_phone :
  sampleIsEmail "ann@example.org" = true
  /\ (6 <= String.length "secret")%nat
  /\ SignUp.accepts sampleIsEmail sampleIsPhone
       (SignUp.mkValues EmptyString EmptyString "ann@example.org" "secret"
                        (VBool true))
     = false
  /\ ~ (forall isEmail isPhone v,
           SignUp.accepts isEmail isPhone v = true <->
           isEmail (SignUp.email v) = true
           /\ (6 <= String.length (SignUp.password v))%nat
           /\ SignUp.agreeToTerms v = VBool true).
Proof.
  repeat split; try reflexivity; try (simpl; lia).
  intros H.
  specialize (H sampleIsEmail sampleIsPhone
                (SignUp.mkValues EmptyString EmptyString "ann@example.org"
                                 "secret" (VBool true))).
  destruct H as [_ H].
  assert (F : SignUp.accepts sampleIsEmail sampleIsPhone
                (SignUp.mkValues EmptyString EmptyString "ann@example.org"
                                 "secret" (VBool true)) = true).
  { apply H. repeat split; simpl; lia. }
  discriminate F.
Qed.

(** C2, amended. The simplified schema accepts a submission exactly when
    the email passes the email check, the password has at least 6
    characters and agreeToTerms is the boolean true; the full schema asks
    in addition for a name of at least 2 characters and a non-empty, valid
    phone number.  In both forms a submission that violates a check gets
    the message of that check on its field, and [signUp] is not called:
    [handleSubmit] returns the issues and has no effect. *)
Theorem signUpSchema_checks (isEmail isValidPhoneNumber : string -> bool) :
  (forall v : SignUpSimplified.values,
      SignUpSimplified.accepts isEmail v = true <->
      isEmail (SignUpSimplified.email v) = true
      /\ (6 <= String.length (SignUpSimplified.password v))%nat
      /\ SignUpSimplified.agreeToTerms v = VBool true)
  /\ (forall v : SignUpSimplified.values,
         (isEmail (SignUpSimplified.email v) = false ->
          fieldError (SignUpSimplified.schemaIssues isEmail v) "email"
          = Some "Invalid email address")
         /\ ((String.length (SignUpSimplified.password v) < 6)%nat ->
             fieldError (SignUpSimplified.schemaIssues isEmail v) "password"
             = Some "Password must be at least 6 characters")
         /\ (SignUpSimplified.agreeToTerms v <> VBool true ->
             fieldError (SignUpSimplified.schemaIssues isEmail v)
                        "agreeToTerms"
             = Some "You must agree to the terms"))
  /\ (forall signUp (v : SignUpSimplified.values),
         SignUpSimplified.accepts isEmail v = false ->
         SignUpSimplified.handleSubmit isEmail signUp v
         = (SignUpSimplified.schemaIssues isEmail v, [])
         /\ SignUpSimplified.schemaIssues isEmail v <> []
         /\ SignUpSimplified.signUpCalls
              (snd (SignUpSimplified.handleSubmit isEmail signUp v)) = [])
  /\ (forall v : SignUp.values,
         SignUp.accepts isEmail isValidPhoneNumber v = true <->
         (2 <= String.length (SignUp.fullName v))%nat
         /\ (1 <= String.length (SignUp.phone v))%nat
         /\ isValidPhoneNumber (SignUp.phone v) = true
         /\ isEmail (SignUp.email v) = true
         /\ (6 <= String.length (SignUp.password v))%nat
         /\ SignUp.agreeToTerms v = VBool true)
  /\ (forall v : SignUp.values,
         ((String.length (SignUp.fullName v) < 2)%nat ->
          fieldError (SignUp.signUpSchema isEmail isValidPhoneNumber v)
                     "fullName"
          = Some "Name is required")
         /\ (SignUp.phone v = EmptyString ->
             fieldError (SignUp.signUpSchema isEmail isValidPhoneNumber v)
                        "phone"
             = Some "Phone number is required")
         /\ (SignUp.phone v <> EmptyString ->
             isValidPhoneNumber (SignUp.phone v) = false ->
             fieldError (SignUp.signUpSchema isEmail isValidPhoneNumber v)
                        "phone"
             = Some "Please enter a valid phone number with country code")
         /\ (isEmail (SignUp.email v) = false ->
             fieldError (SignUp.signUpSchema isEmail isValidPhoneNumber v)
                        "email"
             = Some "Invalid email address")
         /\ ((String.length (SignUp.password v) < 6)%nat ->
             fieldError (SignUp.signUpSchema isEmail isValidPhoneNumber v)
                        "password"
             = Some "Password must be at least 6 characters")
         /\ (SignUp.agreeToTerms v <> VBool true ->
             fieldError (SignUp.signUpSchema isEmail isValidPhoneNumber v)
                        "agreeToTerms"
             = Some "You must agree to the terms"))
  /\ (forall signUp (v : SignUp.values),
         SignUp.accepts isEmail isValidPhoneNumber v = false ->
         SignUp.handleSubmit isEmail isValidPhoneNumber signUp v
         = (SignUp.signUpSchema isEmail isValidPhoneNumber v, [])
         /\ SignUp.signUpSchema isEmail isValidPhoneNumber v <> []
         /\ SignUp.signUpCalls
              (snd (SignUp.handleSubmit isEmail isValidPhoneNumber signUp v))
            = []).
Proof.
  refine (conj _ (conj _ (conj _ (conj _ (conj _ _))))).
  - apply simplified_accepts.
  - apply simplified_messages.
  - intros signUp v H.
    destruct (simplified_rejected isEmail signUp v H) as [E N].
    rewrite E. now repeat split.
  - apply full_accepts.
  - apply full_messages.
  - intros signUp v H.
    destruct (full_rejected isEmail isValidPhoneNumber signUp v H) as [E N].
    rewrite E. now repeat split.
Qed.

(** With the stand-in predicates: a full form with a one-letter name is
    refused with the message of the name and without a call of [signUp];
    the simplified form with the same email, password and terms is
    accepted. *)
Lemma signUpSchema_checks_witness :
  fieldError
    (SignUp.signUpSchema sampleIsEmail sampleIsPhone
       (SignUp.mkValues "A" "+15550100" "ann@example.org" "secret"
                        (VBool true)))
    "fullName"
  = Some "Name is required"
  /\ SignUp.signUpCalls
       (snd (SignUp.handleSubmit sampleIsEmail sampleIsPhone
               (fun _ => Resolved)
               (SignUp.mkValues "A" "+15550100" "ann@example.org" "secret"
                                (VBool true))))
     = []
  /\ SignUpSimplified.accepts sampleIsEmail
       (SignUpSimplified.mkValues "ann@example.org" "secret" (VBool true))
     = true.
Proof.
  destruct (signUpSchema_checks sampleIsEmail sampleIsPhone)
    as (S1 & _ & _ & _ & F2 & F3).
  split; [|split].
  - apply (F2 (SignUp.mkValues "A" "+15550100" "ann@example.org" "secret"
                               (VBool true))).
    simpl. lia.
  - apply (F3 (fun _ => Resolved)
              (SignUp.mkValues "A" "+15550100" "ann@example.org" "secret"
                               (VBool true))).
    reflexivity.
  - apply (S1 (SignUpSimplified.mkValues "ann@example.org" "secret"
                                         (VBool true))).
    split; [reflexivity | split; [simpl; lia | reflexivity]].
Defined.

(** *** Back-end validation errors *)

Lemma setErrorCalls_map_full (cs : list setErrorCall) :
  SignUp.setErrorCalls (map SignUp.SetError cs) = cs.
Proof. induction cs; simpl; congruence. Qed.

Lemma setErrorCalls_map_simplified (cs : list setErrorCall) :
  SignUpSimplified.setErrorCalls (map SignUpSimplified.SetError cs) = cs.
Proof. induction cs; simpl; congruence. Qed.

(** The test [err.path && err.path.includes(x)], for a name that is not
    empty. *)
Lemma pathIncludes_spec (p : pathValue) (x : string) :
  x <> EmptyString ->
  pathIncludes p x = true <-> pathContains p x.
Proof.
  intros Hx. destruct p as [|s|l]; cbn [pathIncludes pathContains].
  - split; [discriminate | contradiction].
  - rewrite andb_true_iff, includes_spec, truthyString_true. split.
    + now intros [_ H].
    + intros H. split; [|assumption].
      destruct H as (pre & post & ->). intros E.
      destruct pre; [|discriminate E]. destruct x; [|discriminate E].
      now apply Hx.
  - unfold arrayIncludes. rewrite existsb_exists. split.
    + intros (y & Hy & E). apply String.eqb_eq in E. now subst.
    + intros H. exists x. split; [assumption | apply String.eqb_refl].
Qed.

Lemma pathIncludes_not (p : pathValue) (x : string) :
  x <> EmptyString -> ~ pathContains p x -> pathIncludes p x = false.
Proof.
  intros Hx H. destruct (pathIncludes p x) eqn:E; [|reflexivity].
  now apply pathIncludes_spec in E.
Qed.

(** C5. When [signUp] throws an error that carries a list of back-end
    errors, the [setError] calls of [onSubmit] are, error after error, the
    calls of the mapping.  In the full form an error makes one call, on
    "phone", when its path contains the name "phone" (as an element of an
    array path, or inside a string path), and no call otherwise.  In the
    simplified form it makes a call on "email" when its path contains
    "email", then a call on "password" when its path contains "password".
    The message of a call is the message of the back end, or the fixed
    fallback of the field when that message is absent or empty; the type
    is "manual".  An error without a path makes no call, and when the
    thrown error carries no list, or [signUp] returns, there is no call at
    all. *)
Theorem backend_errors_onto_fields :
  (forall signUp data errors,
      signUp data = Rejected (Some errors) ->
      SignUp.setErrorCalls (SignUp.onSubmit signUp data)
      = flat_map SignUp.mapBackendError errors)
  /\ (forall err,
         pathContains (path err) "phone" ->
         SignUp.mapBackendError err
         = [mkSetError "phone" "manual"
              (messageOr err "Invalid phone number format")])
  /\ (forall err,
         ~ pathContains (path err) "phone" ->
         SignUp.mapBackendError err = [])
  /\ (forall signUp data,
         signUp data = Resolved \/ signUp data = Rejected None ->
         SignUp.setErrorCalls (SignUp.onSubmit signUp data) = [])
  /\ (forall signUp data errors,
         signUp (SignUpSimplified.mkValues
                   (SignUpSimplified.normalizeEmail
                      (SignUpSimplified.email data))
                   (SignUpSimplified.password data)
                   (SignUpSimplified.agreeToTerms data))
         = Rejected (Some errors) ->
         SignUpSimplified.setErrorCalls
           (SignUpSimplified.onSubmit signUp data)
         = flat_map SignUpSimplified.mapBackendError errors)
  /\ (forall err,
         pathContains (path err) "email" ->
         pathContains (path err) "password" ->
         SignUpSimplified.mapBackendError err
         = [mkSetError "email" "manual"
              (messageOr err "Invalid email format");
            mkSetError "password" "manual"
              (messageOr err "Invalid password format")])
  /\ (forall err,
         pathContains (path err) "email" ->
         ~ pathContains (path err) "password" ->
         SignUpSimplified.mapBackendError err
         = [mkSetError "email" "manual"
              (messageOr err "Invalid email format")])
  /\ (forall err,
         ~ pathContains (path err) "email" ->
         pathContains (path err) "password" ->
         SignUpSimplified.mapBackendError err
         = [mkSetError "password" "manual"
              (messageOr err "Invalid password format")])
  /\ (forall err,
         ~ pathContains (path err) "email" ->
         ~ pathContains (path err) "password" ->
         SignUpSimplified.mapBackendError err = [])
  /\ (forall signUp data,
         signUp (SignUpSimplified.mkValues
                   (SignUpSimplified.normalizeEmail
                      (SignUpSimplified.email data))
                   (SignUpSimplified.password data)
                   (SignUpSimplified.agreeToTerms data)) = Resolved
         \/ signUp (SignUpSimplified.mkValues
                      (SignUpSimplified.normalizeEmail
                         (SignUpSimplified.email data))
                      (SignUpSimplified.password data)
                      (SignUpSimplified.agreeToTerms data)) = Rejected None ->
         SignUpSimplified.setErrorCalls
           (SignUpSimplified.onSubmit signUp data) = [])
  /\ (forall m,
         SignUp.mapBackendError (mkBackendError NoPath m) = []
         /\ SignUpSimplified.mapBackendError (mkBackendError NoPath m)
            = []).
Proof.
  assert (Np : "phone" <> EmptyString) by discriminate.
  assert (Ne : "email" <> EmptyString) by discriminate.
  assert (Nw : "password" <> EmptyString) by discriminate.
  refine (conj _ (conj _ (conj _ (conj _ (conj _ (conj _ (conj _
            (conj _ (conj _ (conj _ _)))))))))).
  - intros signUp data errors H. unfold SignUp.onSubmit. rewrite H.
    cbn [SignUp.setErrorCalls flat_map app].
    apply setErrorCalls_map_full.
  - intros err H. unfold SignUp.mapBackendError, messageOr.
    apply (pathIncludes_spec _ _ Np) in H. rewrite H.
    now rewrite orElse_spec.
  - intros err H. unfold SignUp.mapBackendError.
    now rewrite (pathIncludes_not _ _ Np H).
  - intros signUp data [H|H]; unfold SignUp.onSubmit; rewrite H;
      reflexivity.
  - intros signUp data errors H. unfold SignUpSimplified.onSubmit.
    cbv zeta. rewrite H.
    cbn [SignUpSimplified.setErrorCalls flat_map app].
    apply setErrorCalls_map_simplified.
  - intros err H1 H2. unfold SignUpSimplified.mapBackendError, messageOr.
    apply (pathIncludes_spec _ _ Ne) in H1.
    apply (pathIncludes_spec _ _ Nw) in H2.
    now rewrite H1, H2, !orElse_spec.
  - intros err H1 H2. unfold SignUpSimplified.mapBackendError, messageOr.
    apply (pathIncludes_spec _ _ Ne) in H1.
    now rewrite H1, (pathIncludes_not _ _ Nw H2), !orElse_spec.
  - intros err H1 H2. unfold SignUpSimplified.mapBackendError, messageOr.
    apply (pathIncludes_spec _ _ Nw) in H2.
    now rewrite H2, (pathIncludes_not _ _ Ne H1), !orElse_spec.
  - intros err H1 H2. unfold SignUpSimplified.mapBackendError.
    now rewrite (pathIncludes_not _ _ Ne H1), (pathIncludes_not _ _ Nw H2).
  - intros signUp data [H|H]; unfold SignUpSimplified.onSubmit; cbv zeta;
      rewrite H; reflexivity.
  - intros m. now split.
Qed.

(** A back end that refuses the phone number twice, once with a message on
    the path body.phone and once without a message on the path "phone",
    and the name in between: two calls on "phone".  In the simplified form,
    an error on body.email and an error on "password" with an empty
    message: one call each. *)
Lemma backend_errors_onto_fields_witness :
  SignUp.setErrorCalls
    (SignUp.onSubmit
       (fun _ => Rejected (Some
          [mkBackendError (PathArray ["body"; "phone"]) (Some "Phone taken");
           mkBackendError (PathString "fullName") (Some "Too short");
           mkBackendError (PathString "phone") None]))
       (SignUp.mkValues "Ann" "+15550100" "ann@example.org" "secret"
                        (VBool true)))
  = [mkSetError "phone" "manual" "Phone taken";
     mkSetError "phone" "manual" "Invalid phone number format"]
  /\ SignUpSimplified.setErrorCalls
       (SignUpSimplified.onSubmit
          (fun _ => Rejected (Some
             [mkBackendError (PathArray ["body"; "email"])
                             (Some "Email taken");
              mkBackendError (PathString "password") (Some EmptyString);
              mkBackendError NoPath (Some "Something failed")]))
          (SignUpSimplified.mkValues "ann@example.org" "secret"
                                     (VBool true)))
     = [mkSetError "email" "manual" "Email taken";
        mkSetError "password" "manual" "Invalid password format"].
Proof.
  destruct backend_errors_onto_fields
    as (F1 & F2 & F3 & _ & S1 & _ & S2 & S3 & S4 & _).
  assert (Np : "phone" <> EmptyString) by discriminate.
  assert (Ne : "email" <> EmptyString) by discriminate.
  assert (Nw : "password" <> EmptyString) by discriminate.
  split.
  - rewrite (F1 _ _ _ eq_refl). cbn [flat_map].
    rewrite (F2 (mkBackendError (PathArray ["body"; "phone"])
                                (Some "Phone taken")))
      by (right; now left).
    rewrite (F3 (mkBackendError (PathString "fullName")
                                (Some "Too short")))
      by (intros C; apply (pathIncludes_spec _ _ Np) in C; discriminate C).
    rewrite (F2 (mkBackendError (PathString "phone") None))
      by now exists EmptyString, EmptyString.
    reflexivity.
  - rewrite (S1 _ _ _ eq_refl). cbn [flat_map].
    rewrite (S2 (mkBackendError (PathArray ["body"; "email"])
                                (Some "Email taken")))
      by (try (right; now left);
          intros C; apply (pathIncludes_spec _ _ Nw) in C; discriminate C).
    rewrite (S3 (mkBackendError (PathString "password")
                                (Some EmptyString)))
      by (try (now exists EmptyString, EmptyString);
          intros C; apply (pathIncludes_spec _ _ Ne) in C; discriminate C).
    rewrite (S4 (mkBackendError NoPath (Some "Something failed")))
      by (intros C; exact C).
    reflexivity.
Defined.

(** C5, counterexample.  The test on a string path is a substring test: an
    error on the path "microphone", which names no field of the form, sets
    the error of the phone field. *)
Lemma substring_path_sets_phone_error :
  pathNames (PathString "microphone") "phone" = false
  /\ SignUp.setErrorCalls
       (SignUp.onSubmit
          (fun _ => Rejected (Some
             [mkBackendError (PathString "microphone")
                             (Some "Microphone is blocked")]))
          (SignUp.mkValues "Ann" "+15550100" "ann@example.org" "secret"
                           (VBool true)))
     = [mkSetError "phone" "manual" "Microphone is blocked"]
  /\ ~ (forall err,
           pathNames (path err) "phone" = false ->
           SignUp.mapBackendError err = []).
Proof.
  split; [reflexivity|]. split; [reflexivity|].
  intros H.
  specialize (H (mkBackendError (PathString "microphone")
                                (Some "Microphone is blocked")) eq_refl).
  discriminate H.
Qed.

Example backend_errors_full :
  SignUp.setErrorCalls
    (SignUp.onSubmit
       (fun _ => Rejected (Some
          [mkBackendError (PathArray ["body"; "phone"]) (Some "Phone taken");
           mkBackendError (PathString "email") (Some "Email taken");
           mkBackendError (PathString "phoneNumber") None;
           mkBackendError NoPath (Some "Something failed")]))
       (SignUp.mkValues "Ann" "+15550100" "ann@example.org" "secret"
                        (VBool true)))
  = [mkSetError "phone" "manual" "Phone taken";
     mkSetError "phone" "manual" "Invalid phone number format"].
Proof. reflexivity. Qed.

Example backend_errors_last_wins :
  errorsAfter
    (SignUp.setErrorCalls
       (SignUp.onSubmit
          (fun _ => Rejected (Some
             [mkBackendError (PathString "phone") (Some "Phone taken");
              mkBackendError (PathString "phone") None]))
          (SignUp.mkValues "Ann" "+15550100" "ann@example.org" "secret"
                           (VBool true))))
    "phone"
  = Some "Invalid phone number format".
Proof. reflexivity. Qed.

Example backend_errors_simplified :
  SignUpSimplified.setErrorCalls
    (SignUpSimplified.onSubmit
       (fun _ => Rejected (Some
          [mkBackendError (PathArray ["body"; "email"]) (Some "Email taken");
           mkBackendError (PathString "password") (Some EmptyString);
           mkBackendError (PathString "phone") (Some "Phone taken")]))
       (SignUpSimplified.mkValues "ann@example.org" "secret" (VBool true)))
  = [mkSetError "email" "manual" "Email taken";
     mkSetError "password" "manual" "Invalid password format"].
Proof. reflexivity. Qed.

(** *** Email normalisation *)

Lemma normalizeEmail_idempotent (s : string) :
  SignUpSimplified.normalizeEmail (SignUpSimplified.normalizeEmail s)
  = SignUpSimplified.normalizeEmail s.
Proof.
  unfold SignUpSimplified.normalizeEmail.
  now rewrite replaceWhitespace_toLowerCase, replaceWhitespace_idempotent,
    toLowerCase_idempotent.
Qed.

(** C10. The email normalisation of the simplified schema (white space
    removed, then lower case) is idempotent; and when the schema accepts a
    submission, [signUp] is called once, with exactly the data the schema
    produced: normalising the email again in [onSubmit] changes nothing. *)
Theorem normalizeEmail_twice (isEmail : string -> bool) :
  (forall s,
      SignUpSimplified.normalizeEmail (SignUpSimplified.normalizeEmail s)
      = SignUpSimplified.normalizeEmail s)
  /\ (forall signUp v data,
         SignUpSimplified.signUpSchema isEmail v = inr data ->
         SignUpSimplified.email data
         = SignUpSimplified.normalizeEmail (SignUpSimplified.email v)
         /\ SignUpSimplified.signUpCalls
              (snd (SignUpSimplified.handleSubmit isEmail signUp v))
            = [data]).
Proof.
  split; [apply normalizeEmail_idempotent|].
  intros signUp v data H.
  unfold SignUpSimplified.handleSubmit. rewrite H.
  unfold SignUpSimplified.signUpSchema in H.
  destruct (SignUpSimplified.schemaIssues isEmail v); [|discriminate].
  injection H as <-. split; [reflexivity|].
  unfold SignUpSimplified.onSubmit. cbv zeta.
  cbn [SignUpSimplified.email SignUpSimplified.password
       SignUpSimplified.agreeToTerms snd].
  rewrite normalizeEmail_idempotent.
  cbn [SignUpSimplified.signUpCalls flat_map app].
  match goal with
  | |- (_ :: ?l)%list = _ => assert (E : l = [])
  end.
  { destruct (signUp _) as [|[errors|]]; try reflexivity.
    induction (flat_map SignUpSimplified.mapBackendError errors);
      simpl; auto. }
  now rewrite E.
Qed.

(** An accepted submission, with capitals in the email. *)
Lemma normalizeEmail_twice_witness :
  SignUpSimplified.signUpCalls
    (snd (SignUpSimplified.handleSubmit sampleIsEmail (fun _ => Resolved)
            (SignUpSimplified.mkValues "Ann@Example.ORG" "secret"
                                       (VBool true))))
  = [SignUpSimplified.mkValues "ann@example.org" "secret" (VBool true)].
Proof.
  destruct (normalizeEmail_twice sampleIsEmail) as [_ H].
  apply (H (fun _ => Resolved)
           (SignUpSimplified.mkValues "Ann@Example.ORG" "secret"
                                      (VBool true))).
  reflexivity.
Defined.

Example normalizeEmail_sample :
  SignUpSimplified.normalizeEmail " Ann.Lee @Example.ORG "
  = "ann.lee@example.org".
Proof. reflexivity. Qed.

End SignUpFacts.

(* ===================================================================== *)
(** ** useGetAllUsers and the toasts of failed requests                   *)
(* ===================================================================== *)

Module RequestFacts.

Import JS Connections JSFacts.

Lemma append_nonempty (s : string) (c : ascii) (t : string) :
  (s ++ String c t)%string <> EmptyString.
Proof. destruct s; discriminate. Qed.

Lemma serialize_nonempty (params : searchParams) :
  params <> [] -> serialize params <> EmptyString.
Proof.
  destruct params as [|[k v] rest]; [congruence|intros _].
  destruct rest; cbn [serialize]; apply append_nonempty.
Qed.

Lemma buildParams_spec (f : filters) :
  buildParams f
  = ((if truthy (search f) then [("search", toString (search f))] else [])
     ++ (if truthy (page f) then [("page", toString (page f))] else [])
     ++ (if truthy (limit f) then [("limit", toString (limit f))] else []))
    %list.
Proof.
  unfold buildParams, append.
  destruct (truthy (search f)), (truthy (page f)), (truthy (limit f));
    reflexivity.
Qed.

Lemma buildParams_nil (f : filters) :
  buildParams f = [] <->
  truthy (search f) = false /\ truthy (page f) = false
  /\ truthy (limit f) = false.
Proof.
  rewrite buildParams_spec.
  destruct (truthy (search f)), (truthy (page f)), (truthy (limit f));
    simpl; split; try tauto; try discriminate;
    intros (H1 & H2 & H3); discriminate.
Qed.

(** C6. The query goes to [/user/get-all-user] through the HTTP client,
    once.  The parameters are, in this order, [search], [page] and [limit],
    each present exactly when its filter is set (truthy), with the filter
    as value.  With no filter set the URL is the bare endpoint, without a
    question mark; otherwise it is the endpoint, a question mark and the
    non-empty serialization of the parameters. *)
Theorem getAllUsers_request (apiGet : string -> apiResult) (f : filters) :
  requests (fst (useGetAllUsers apiGet f)) = [requestUrl f]
  /\ buildParams f
     = ((if truthy (search f) then [("search", toString (search f))]
         else [])
        ++ (if truthy (page f) then [("page", toString (page f))] else [])
        ++ (if truthy (limit f) then [("limit", toString (limit f))]
            else []))%list
  /\ (truthy (search f) = false /\ truthy (page f) = false
      /\ truthy (limit f) = false ->
      requestUrl f = "/user/get-all-user")
  /\ (truthy (search f) = true \/ truthy (page f) = true
      \/ truthy (limit f) = true ->
      requestUrl f
      = "/user/get-all-user" ++ "?" ++ serialize (buildParams f)
      /\ serialize (buildParams f) <> EmptyString).
Proof.
  refine (conj _ (conj _ (conj _ _))).
  - unfold useGetAllUsers. now destruct (apiGet (requestUrl f)).
  - apply buildParams_spec.
  - intros H. apply buildParams_nil in H.
    unfold requestUrl, queryString. now rewrite H.
  - intros H.
    assert (N : buildParams f <> []).
    { intros E. apply buildParams_nil in E. destruct E as (E1 & E2 & E3).
      rewrite E1, E2, E3 in H. now destruct H as [H | [H | H]]. }
    apply serialize_nonempty in N. split; [|assumption].
    unfold requestUrl, queryString.
    apply truthyString_true in N. now rewrite N.
Qed.

(** No filter, and a page filter alone. *)
Lemma getAllUsers_request_witness :
  requestUrl noFilters = "/user/get-all-user"
  /\ requestUrl (mkFilters VUndefined (VNum 3) VUndefined)
     = "/user/get-all-user" ++ "?"
       ++ serialize (buildParams (mkFilters VUndefined (VNum 3) VUndefined)).
Proof.
  split.
  - destruct (getAllUsers_request (fun _ => ApiResponse EmptyString)
                                  noFilters) as (_ & _ & H & _).
    apply H. repeat split.
  - destruct (getAllUsers_request (fun _ => ApiResponse EmptyString)
                (mkFilters VUndefined (VNum 3) VUndefined))
      as (_ & _ & _ & H).
    apply H. right. left. reflexivity.
Defined.

Example request_no_filters :
  requestUrl noFilters = "/user/get-all-user".
Proof. reflexivity. Qed.

Example request_all_filters :
  requestUrl (mkFilters (VStr "john doe") (VNum 2) (VNum 10))
  = "/user/get-all-user?search=john+doe&page=2&limit=10".
Proof. reflexivity. Qed.

Example request_page_zero :
  requestUrl (mkFilters (VStr EmptyString) (VNum 0) (VNum 20))
  = "/user/get-all-user?limit=20".
Proof. reflexivity. Qed.

Example request_encoded :
  requestUrl (mkFilters (VStr "a&b=c?") VUndefined VNull)
  = "/user/get-all-user?search=a%26b%3Dc%3F".
Proof. reflexivity. Qed.

(** C4. A failed fetch of the users shows one error toast, with the
    message of the back end or, when that is absent or empty, "Failed to
    fetch users".  A failed download (the fetch throws, the response is not
    OK, or its body cannot be read) of a subscribed user shows one error
    toast, "Failed to download sound. Please try again."; the text
    "Download failed" is the message of the error thrown on a response that
    is not OK, and goes to the console.  A user without a subscription gets
    the upgrade toast, and nothing is fetched. *)
Theorem failed_requests_toast :
  (forall apiGet f m,
      apiGet (requestUrl f) = ApiFailure m ->
      errorToasts (fst (useGetAllUsers apiGet f))
      = [match m with
         | Some s => if String.eqb s EmptyString
                     then "Failed to fetch users" else s
         | None => "Failed to fetch users"
         end])
  /\ (forall apiGet f body,
         apiGet (requestUrl f) = ApiResponse body ->
         errorToasts (fst (useGetAllUsers apiGet f)) = [])
  /\ (forall assetsUrl net s,
         (exists m, net (assetsUrl ++ SoundList.link s)
                    = SoundList.FetchRejected m)
         \/ (exists b, net (assetsUrl ++ SoundList.link s)
                       = SoundList.Response false b)
         \/ (exists m, net (assetsUrl ++ SoundList.link s)
                       = SoundList.Response true (SoundList.BlobRejected m))
         ->
         SoundList.errorToasts
           (SoundList.downloadSound true assetsUrl net s)
         = ["Failed to download sound. Please try again."])
  /\ (forall assetsUrl net s b,
         net (assetsUrl ++ SoundList.link s) = SoundList.Response false b ->
         In (SoundList.ConsoleError "Download error:" "Download failed")
            (SoundList.downloadSound true assetsUrl net s))
  /\ (forall assetsUrl net s blob,
         net (assetsUrl ++ SoundList.link s)
         = SoundList.Response true (SoundList.Blob blob) ->
         SoundList.errorToasts
           (SoundList.downloadSound true assetsUrl net s) = [])
  /\ (forall assetsUrl net s,
         SoundList.downloadSound false assetsUrl net s
         = [SoundList.ToastError
              "Please upgrade to premium to download sounds!"]).
Proof.
  refine (conj _ (conj _ (conj _ (conj _ (conj _ _))))).
  - intros apiGet f m H. unfold useGetAllUsers. rewrite H.
    cbn. now rewrite SignUpFacts.orElse_spec.
  - intros apiGet f body H. unfold useGetAllUsers. now rewrite H.
  - intros assetsUrl net s H. unfold SoundList.downloadSound.
    cbn [negb]. cbv zeta.
    destruct H as [[m H] | [[b H] | [m H]]]; now rewrite H.
  - intros assetsUrl net s b H. unfold SoundList.downloadSound.
    cbn [negb]. cbv zeta. rewrite H. right. now left.
  - intros assetsUrl net s blob H. unfold SoundList.downloadSound.
    cbn [negb]. cbv zeta. now rewrite H.
  - reflexivity.
Qed.

(** A back end that answers the users query with an error without a
    message, and a file server that answers the download with a status
    that is not OK. *)
Lemma failed_requests_toast_witness :
  errorToasts (fst (useGetAllUsers (fun _ => ApiFailure None) noFilters))
  = ["Failed to fetch users"]
  /\ SoundList.errorToasts
       (SoundList.downloadSound true "https://cdn"
          (fun _ => SoundList.Response false (SoundList.Blob EmptyString))
          (Vocabulary.demoSound "a" None false))
     = ["Failed to download sound. Please try again."].
Proof.
  destruct failed_requests_toast as (H1 & _ & H3 & _).
  split.
  - apply (H1 (fun _ => ApiFailure None) noFilters None). reflexivity.
  - apply (H3 "https://cdn"
              (fun _ => SoundList.Response false (SoundList.Blob EmptyString))
              (Vocabulary.demoSound "a" None false)).
    right. left. now exists (SoundList.Blob EmptyString).
Defined.

End RequestFacts.

(* ===================================================================== *)
(** ** Playing sounds                                                     *)
(* ===================================================================== *)

Module PlayerFacts.

Import JS SoundList Player Invariants SoundListFacts.

Local Open Scope list_scope.

Lemma showSounds_sounds l term o st : sounds (showSounds l term o st) = l.
Proof. unfold showSounds. simpl. now rewrite applySearch_sounds. Qed.

Lemma showSounds_playingId l term o st :
  currentlyPlayingId (showSounds l term o st) = o.
Proof. reflexivity. Qed.

Lemma showSounds_searchTerm l term o st :
  searchTerm (showSounds l term o st) = searchTerm st.
Proof.
  unfold showSounds, applySearch.
  now destruct (negb (truthyString term) || negb (truthyString (trim term))).
Qed.

Lemma showSounds_filtered l term o st :
  filteredSounds (showSounds l term o st)
  = if allChars isWhiteSpace term then l else filter (matchesTerm term) l.
Proof. unfold showSounds. simpl. apply applySearch_filteredSounds. Qed.

Lemma withPlaying_same s : withPlaying (isPlaying s) s = s.
Proof. now destruct s. Qed.

Lemma In_map_playing (f : sound -> sound) l s :
  In s (map f l) -> exists x, In x l /\ s = f x.
Proof. intros H. apply in_map_iff in H as (x & <- & Hx). now exists x. Qed.

(** X1. [togglePlaySound] starts an audio element only for a sound of the
    list that is not playing and that the user may play: a premium sound is
    never started for a user without subscription.  When the id is not in
    the list nothing happens at all; when the sound is premium and the user
    has no subscription the component is unchanged and the only effect is
    one error toast. *)
Theorem togglePlaySound_only_when_allowed (isSubscribed : bool)
        (assetsUrl i : string) (p : player) :
  (forall src,
      In (Play src) (snd (fst (togglePlaySound isSubscribed assetsUrl i p)))
      -> exists s,
        find (hasId i) (sounds (ui p)) = Some s
        /\ src = (assetsUrl ++ link s)%string
        /\ isPlaying s = false
        /\ (isPremium s = false \/ isSubscribed = true))
  /\ (find (hasId i) (sounds (ui p)) = None ->
      togglePlaySound isSubscribed assetsUrl i p = (p, [], None))
  /\ (forall s,
         find (hasId i) (sounds (ui p)) = Some s ->
         isPremium s = true -> isSubscribed = false ->
         fst (fst (togglePlaySound isSubscribed assetsUrl i p)) = p
         /\ snd (togglePlaySound isSubscribed assetsUrl i p) = None
         /\ exists message,
             snd (fst (togglePlaySound isSubscribed assetsUrl i p))
             = [ToastError message]).
Proof.
  unfold togglePlaySound. refine (conj _ (conj _ _)).
  - intros src.
    destruct (find (hasId i) (sounds (ui p))) as [s|] eqn:F; [|intros []].
    destruct (isPremium s && negb isSubscribed) eqn:G.
    { simpl. intros [H|[]]. discriminate. }
    destruct (isPlaying s) eqn:Pl; cbn [fst snd].
    + unfold pauseCurrent. destruct (audioRef p); simpl; intros H;
        [destruct H as [H|[]]; discriminate | destruct H].
    + intros H. apply in_app_or in H as [H|H].
      * unfold pauseCurrent in H. destruct (audioRef p); simpl in H;
          [destruct H as [H|[]]; discriminate | destruct H].
      * simpl in H. destruct H as [H|[H|[]]]; [discriminate|].
        injection H as <-. exists s.
        split; [reflexivity|]. split; [reflexivity|].
        split; [assumption|].
        apply andb_false_iff in G as [G|G]; [now left|].
        right. now apply negb_false_iff in G.
  - now intros ->.
  - intros s -> Hp ->. rewrite Hp. cbn [andb negb fst snd].
    split; [reflexivity | split; [reflexivity | eauto]].
Qed.

Lemma togglePlaySound_only_when_allowed_witness :
  fst (fst (togglePlaySound false "https://cdn" "a"
              (mkPlayer
                 (setSounds [mkSound "a" "Rain" "" "" true "/rain.mp3"
                                     (Some "00:10") false false]
                            initialState) None)))
  = mkPlayer
      (setSounds [mkSound "a" "Rain" "" "" true "/rain.mp3"
                          (Some "00:10") false false] initialState) None.
Proof.
  apply (proj2 (proj2 (togglePlaySound_only_when_allowed false "https://cdn"
                         "a" _))
           (mkSound "a" "Rain" "" "" true "/rain.mp3" (Some "00:10")
                    false false));
    reflexivity.
Defined.

(** X2. When [togglePlaySound] goes through (the sound is in the list and
    may be played): if the sound was not playing, afterwards exactly the
    sounds with that id are marked playing, [currentlyPlayingId] is the id,
    [audioRef] holds the new element, and an element held before is paused
    before the new one is created; if it was playing, afterwards no sound
    is marked playing, [currentlyPlayingId] and [audioRef] are empty and
    the element held is paused.  In both cases only the [isPlaying] flags
    of the sounds change, and the search term stays. *)
Theorem togglePlaySound_starts_or_stops (isSubscribed : bool)
        (assetsUrl i : string) (p : player) (s : sound) :
  find (hasId i) (sounds (ui p)) = Some s ->
  isPremium s && negb isSubscribed = false ->
  let r := togglePlaySound isSubscribed assetsUrl i p in
  Forall2 (fun x x' =>
             withPlaying (isPlaying x) x' = x
             /\ isPlaying x'
                = if isPlaying s then false else String.eqb (id x) i)
          (sounds (ui p)) (sounds (ui (fst (fst r))))
  /\ currentlyPlayingId (ui (fst (fst r)))
     = (if isPlaying s then None else Some i)
  /\ audioRef (fst (fst r))
     = (if isPlaying s then None else Some (assetsUrl ++ link s)%string)
  /\ snd (fst r)
     = pauseCurrent p
       ++ (if isPlaying s then []
           else [NewAudio (assetsUrl ++ link s)%string;
                 Play (assetsUrl ++ link s)%string])
  /\ searchTerm (ui (fst (fst r))) = searchTerm (ui p).
Proof.
  intros F G. cbv zeta. unfold togglePlaySound. rewrite F, G.
  destruct (isPlaying s); cbn [fst snd ui audioRef];
    rewrite showSounds_sounds, showSounds_searchTerm;
    (split; [|now rewrite ?app_nil_r]);
    apply ToggleFacts.Forall2_map_pointwise; intros x _; unfold hasId;
    destruct (String.eqb (id x) i); simpl; destruct x; auto.
Qed.

Lemma togglePlaySound_starts_or_stops_witness :
  audioRef
    (fst (fst (togglePlaySound true "https://cdn" "b"
                 (mkPlayer Vocabulary.demoState (Some "https://cdn/a.mp3")))))
  = Some "https://cdn/b.mp3"
  /\ snd (fst (togglePlaySound true "https://cdn" "b"
                 (mkPlayer Vocabulary.demoState (Some "https://cdn/a.mp3"))))
     = [Pause "https://cdn/a.mp3"; NewAudio "https://cdn/b.mp3";
        Play "https://cdn/b.mp3"].
Proof.
  destruct (togglePlaySound_starts_or_stops true "https://cdn" "b"
              (mkPlayer Vocabulary.demoState (Some "https://cdn/a.mp3"))
              (Vocabulary.demoSound "b" (Some "00:00") false)
              eq_refl eq_refl)
    as (_ & _ & H3 & H4 & _).
  split; [exact H3 | exact H4].
Defined.

(** *** Invariants *)

Lemma applySearch_frame term l st :
  applySearch term l st
  = setFilteredSounds (filteredSounds (applySearch term l st)) st.
Proof.
  unfold applySearch.
  now destruct (negb (truthyString term) || negb (truthyString (trim term))).
Qed.

Lemma toggleSelect_playing isAdmin i st :
  currentlyPlayingId (toggleSelect isAdmin i st) = currentlyPlayingId st
  /\ searchTerm (toggleSelect isAdmin i st) = searchTerm st
  /\ forall s', In s' (sounds (toggleSelect isAdmin i st)) ->
                exists x, In x (sounds st)
                          /\ isPlaying s' = isPlaying x /\ id s' = id x.
Proof.
  unfold toggleSelect.
  destruct isAdmin;
    [|destruct (match find (hasId i) (sounds st) with
                | Some t => selected t
                | None => false
                end)];
    rewrite applySearch_frame; cbn [currentlyPlayingId searchTerm sounds
      setFilteredSounds setSounds];
    (split; [reflexivity|split; [reflexivity|]]);
    intros s' H; apply in_map_iff in H as (x & <- & Hx); exists x;
    (split; [assumption|]); now destruct (hasId i x).
Qed.

Lemma toggleSelect_filterInv isAdmin i st :
  filterInv (toggleSelect isAdmin i st).
Proof.
  unfold filterInv, toggleSelect.
  destruct isAdmin;
    [|destruct (match find (hasId i) (sounds st) with
                | Some t => selected t
                | None => false
                end)];
    rewrite applySearch_frame at 1 2 3;
    cbn [searchTerm sounds filteredSounds setFilteredSounds setSounds];
    now rewrite !applySearch_filteredSounds.
Qed.

Lemma showSounds_filterInv l o st :
  filterInv (showSounds l (searchTerm st) o st).
Proof.
  unfold filterInv.
  rewrite applySearch_filteredSounds, showSounds_sounds,
    showSounds_searchTerm, showSounds_filtered.
  reflexivity.
Qed.

Lemma handleSearch_filterInv term st : filterInv (handleSearch term st).
Proof.
  unfold filterInv, handleSearch.
  rewrite applySearch_frame at 1 2 3.
  cbn [searchTerm sounds filteredSounds setFilteredSounds setSearchTerm].
  now rewrite !applySearch_filteredSounds.
Qed.

Lemma step_filterInv isAdmin isSubscribed assetsUrl a p :
  filterInv (ui p) -> filterInv (ui (step isAdmin isSubscribed assetsUrl a p)).
Proof.
  intros H. destruct a as [i|i|term|page]; cbn [step ui].
  - apply toggleSelect_filterInv.
  - unfold togglePlaySound.
    destruct (find (hasId i) (sounds (ui p))) as [s|]; [|exact H].
    destruct (isPremium s && negb isSubscribed); [exact H|].
    destruct (isPlaying s); cbn [fst ui]; apply showSounds_filterInv.
  - apply handleSearch_filterInv.
  - unfold filterInv in *. rewrite applySearch_filteredSounds in *.
    exact H.
Qed.

Lemma filterInv_incl st :
  filterInv st ->
  (forall s, In s (filteredSounds st) -> In s (sounds st))
  /\ (length (filteredSounds st) <= length (sounds st))%nat.
Proof.
  unfold filterInv. rewrite applySearch_filteredSounds. intros ->.
  destruct (allChars isWhiteSpace (searchTerm st)).
  - split; [auto | lia].
  - split.
    + intros s H. now apply filter_In in H.
    + apply filter_length_le.
Qed.

(** X3. Whatever a user does with the list (selecting, playing, searching,
    changing the page), in any order, [filteredSounds] stays the search
    result of [sounds] for the current search term: it is [sounds] itself
    for a blank term and the sounds whose name matches otherwise.  So it
    holds only sounds of the list.  Selecting, searching and a play call
    that goes through establish this even from a state that lacks it. *)
Theorem user_actions_keep_search_result (isAdmin isSubscribed : bool)
        (assetsUrl : string) (actions : list action) (p : player) :
  filterInv (ui p) ->
  filteredSounds (ui (run isAdmin isSubscribed assetsUrl actions p))
  = (if allChars isWhiteSpace
          (searchTerm (ui (run isAdmin isSubscribed assetsUrl actions p)))
     then sounds (ui (run isAdmin isSubscribed assetsUrl actions p))
     else filter
            (matchesTerm
               (searchTerm (ui (run isAdmin isSubscribed assetsUrl actions p))))
            (sounds (ui (run isAdmin isSubscribed assetsUrl actions p))))
  /\ (forall s,
        In s (filteredSounds
                (ui (run isAdmin isSubscribed assetsUrl actions p))) ->
        In s (sounds (ui (run isAdmin isSubscribed assetsUrl actions p))))
  /\ (forall q i term,
        filterInv (toggleSelect isAdmin i q)
        /\ filterInv (handleSearch term q)).
Proof.
  intros H.
  assert (I : filterInv (ui (run isAdmin isSubscribed assetsUrl actions p))).
  { unfold run. revert p H.
    induction actions as [|a actions IH]; intros p H; cbn [fold_left].
    - exact H.
    - apply IH. now apply step_filterInv. }
  split; [|split].
  - unfold filterInv in I. now rewrite applySearch_filteredSounds in I.
  - apply filterInv_incl, I.
  - intros q i term. split.
    + apply toggleSelect_filterInv.
    + apply handleSearch_filterInv.
Qed.

Lemma user_actions_keep_search_result_witness :
  filteredSounds
    (ui (run false true "https://cdn"
             [Search "B"; ToggleSelect "b"; TogglePlay "b"; PageChange 2]
             (mkPlayer Vocabulary.demoState None)))
  = filter (matchesTerm "B")
           (sounds
              (ui (run false true "https://cdn"
                       [Search "B"; ToggleSelect "b"; TogglePlay "b";
                        PageChange 2]
                       (mkPlayer Vocabulary.demoState None)))).
Proof.
  apply (proj1 (user_actions_keep_search_result false true "https://cdn"
                  [Search "B"; ToggleSelect "b"; TogglePlay "b"; PageChange 2]
                  (mkPlayer Vocabulary.demoState None) eq_refl)).
Defined.

Lemma stepEvent_playingInv isAdmin isSubscribed assetsUrl e p :
  playingInv p -> playingInv (stepEvent isAdmin isSubscribed assetsUrl e p).
Proof.
  intros H. destruct e as [[i|i|term|page]|c|c]; cbn [stepEvent step].
  - intros s' Hs' Pl. cbn [ui audioRef] in *.
    destruct (toggleSelect_playing isAdmin i (ui p)) as (E1 & _ & E3).
    rewrite E1. destruct (E3 s' Hs') as (x & Hx & Ep & Ei).
    rewrite Ei. apply H; congruence.
  - unfold togglePlaySound.
    destruct (find (hasId i) (sounds (ui p))) as [s|]; [|exact H].
    destruct (isPremium s && negb isSubscribed); [exact H|].
    destruct (isPlaying s); cbn [fst]; intros s' Hs' Pl;
      cbn [ui audioRef] in *; rewrite showSounds_sounds in Hs';
      apply in_map_iff in Hs' as (x & <- & Hx).
    + discriminate Pl.
    + destruct (hasId i x) eqn:E; [|discriminate Pl].
      unfold hasId in E. apply String.eqb_eq in E.
      split; [|discriminate]. simpl. now rewrite E.
  - intros s' Hs' Pl. cbn [ui audioRef] in *.
    unfold handleSearch in *. rewrite applySearch_frame in Hs' |- *.
    cbn in Hs' |- *. now apply H.
  - exact H.
  - intros s' Hs' Pl. unfold onEnded in Hs'. cbn [ui] in Hs'.
    rewrite showSounds_sounds in Hs'.
    apply in_map_iff in Hs' as (x & <- & Hx). discriminate Pl.
  - intros s' Hs' Pl. unfold onPlayRejected in Hs'. cbn [fst ui] in Hs'.
    rewrite showSounds_sounds in Hs'.
    apply in_map_iff in Hs' as (x & <- & Hx). discriminate Pl.
Qed.

(** X4. Through any sequence of user actions and audio callbacks (an audio
    that ends, a play that is rejected), every sound shown as playing has
    the id kept in [currentlyPlayingId] and there is an audio element in
    [audioRef] to pause.  So the sounds shown as playing share one id, and
    with distinct ids at most one sound is shown as playing. *)
Theorem events_keep_one_playing (isAdmin isSubscribed : bool)
        (assetsUrl : string) (events : list event) (p : player) :
  playingInv p ->
  playingInv (runEvents isAdmin isSubscribed assetsUrl events p)
  /\ (NoDup (map id (sounds (ui (runEvents isAdmin isSubscribed assetsUrl
                                           events p)))) ->
      (length (filter isPlaying
                 (sounds (ui (runEvents isAdmin isSubscribed assetsUrl
                                        events p))))
       <= 1)%nat).
Proof.
  intros H.
  assert (I : playingInv (runEvents isAdmin isSubscribed assetsUrl events p)).
  { unfold runEvents. revert p H.
    induction events as [|e events IH]; intros p H; cbn [fold_left].
    - exact H.
    - apply IH. now apply stepEvent_playingInv. }
  split; [exact I|].
  set (l := sounds (ui (runEvents isAdmin isSubscribed assetsUrl events p)))
    in *.
  assert (J : forall s1 s2, In s1 l -> In s2 l -> isPlaying s1 = true ->
                            isPlaying s2 = true -> id s1 = id s2).
  { intros s1 s2 H1 H2 P1 P2.
    destruct (I s1 H1 P1) as [E1 _]. destruct (I s2 H2 P2) as [E2 _].
    congruence. }
  clearbody l. clear I H. induction l as [|s l IH]; intros ND; simpl; [lia|].
  inversion ND as [|? ? Hnin ND']; subst.
  assert (J' : forall s1 s2, In s1 l -> In s2 l -> isPlaying s1 = true ->
                             isPlaying s2 = true -> id s1 = id s2).
  { intros s1 s2 H1 H2. apply J; now right. }
  destruct (isPlaying s) eqn:Ps; [|now apply IH].
  simpl. destruct (filter isPlaying l) as [|t r] eqn:F; [simpl; lia|].
  exfalso. assert (Ht : In t (filter isPlaying l)) by (rewrite F; now left).
  apply filter_In in Ht as [Ht Pt]. apply Hnin.
  rewrite (J s t); [now apply in_map | now left | now right | assumption
                    | assumption].
Qed.

Lemma events_keep_one_playing_witness :
  (length
     (filter isPlaying
        (sounds
           (ui (runEvents false true "https://cdn"
                  [User (TogglePlay "a"); User (TogglePlay "b");
                   User (ToggleSelect "c")]
                  (mkPlayer Vocabulary.demoState None)))))
   <= 1)%nat.
Proof.
  apply (events_keep_one_playing false true "https://cdn"
           [User (TogglePlay "a"); User (TogglePlay "b");
            User (ToggleSelect "c")]
           (mkPlayer Vocabulary.demoState None)).
  - intros s Hs Pl. simpl in Hs.
    destruct Hs as [<-|[<-|[<-|[]]]]; discriminate Pl.
  - repeat constructor; simpl; intuition discriminate.
Defined.

(** X5. The callbacks of an audio element work on the list and the search
    term of the moment play was pressed: when the audio ends or its play is
    rejected, whatever the component holds by then, [sounds] becomes that
    earlier list with nothing playing and [filteredSounds] its search
    result for the earlier term, while [searchTerm] stays the current one.
    So the selection goes back to what it was when play was pressed. *)
Theorem audio_callbacks_restore_old_list (isSubscribed : bool)
        (assetsUrl i : string) (p : player) (c : closure) :
  snd (togglePlaySound isSubscribed assetsUrl i p) = Some c ->
  forall p' : player,
    sounds (ui (onEnded c p')) = map (withPlaying false) (sounds (ui p))
    /\ fst (onPlayRejected c p') = onEnded c p'
    /\ map selected (sounds (ui (onEnded c p')))
       = map selected (sounds (ui p))
    /\ filteredSounds (ui (onEnded c p'))
       = (if allChars isWhiteSpace (searchTerm (ui p))
          then map (withPlaying false) (sounds (ui p))
          else filter (matchesTerm (searchTerm (ui p)))
                      (map (withPlaying false) (sounds (ui p))))
    /\ searchTerm (ui (onEnded c p')) = searchTerm (ui p')
    /\ currentlyPlayingId (ui (onEnded c p')) = None
    /\ audioRef (onEnded c p') = None.
Proof.
  intros H p'.
  assert (E : c = mkClosure (sounds (ui p)) (searchTerm (ui p))).
  { unfold togglePlaySound in H.
    destruct (find (hasId i) (sounds (ui p))) as [s|]; [|discriminate].
    destruct (isPremium s && negb isSubscribed); [discriminate|].
    destruct (isPlaying s); [discriminate|].
    cbn [snd] in H. now injection H as <-. }
  subst c. unfold onEnded, onPlayRejected.
  cbn [fst ui audioRef capturedSounds capturedTerm].
  rewrite showSounds_sounds, showSounds_filtered, showSounds_searchTerm.
  repeat split.
  rewrite map_map. apply map_ext. intros s. reflexivity.
Qed.

(** Play "a", select "b" meanwhile, then the audio ends: "b" is no longer
    selected. *)
Lemma audio_callbacks_restore_old_list_witness :
  map selected
      (sounds
         (ui (onEnded
                (mkClosure (sounds Vocabulary.demoState) EmptyString)
                (step false true "https://cdn" (ToggleSelect "b")
                      (step false true "https://cdn" (TogglePlay "a")
                            (mkPlayer Vocabulary.demoState None))))))
  = [false; false; false]
  /\ map selected
         (sounds
            (ui (step false true "https://cdn" (ToggleSelect "b")
                      (step false true "https://cdn" (TogglePlay "a")
                            (mkPlayer Vocabulary.demoState None)))))
     = [false; true; false].
Proof.
  split; [|reflexivity].
  destruct (audio_callbacks_restore_old_list true "https://cdn" "a"
              (mkPlayer Vocabulary.demoState None)
              (mkClosure (sounds Vocabulary.demoState) EmptyString)
              eq_refl
              (step false true "https://cdn" (ToggleSelect "b")
                    (step false true "https://cdn" (TogglePlay "a")
                          (mkPlayer Vocabulary.demoState None))))
    as (_ & _ & H & _).
  exact H.
Defined.

End PlayerFacts.

(* ===================================================================== *)
(** ** Loading, deleting, sharing, the indicators                         *)
(* ===================================================================== *)

Module LibraryFacts.

Import JS SoundList Player Library Vocabulary Invariants DoubleFacts.
Import SoundListFacts.

Local Open Scope list_scope.

Lemma resolved_cases env i s :
  resolved env i s = s
  \/ (hasDuration s = false
      /\ exists d, resolved env i s = withDuration d s
                   /\ (d = "00:00"%string
                       \/ exists n, d = formatDuration n)).
Proof.
  unfold resolved. destruct (hasDuration s); [now left|right].
  split; [reflexivity|].
  destruct (env i) as [n| |]; eexists; split; try reflexivity; eauto.
Qed.

Lemma resolveFrom_Forall2 env (R : sound -> sound -> Prop) l :
  (forall i s, R s (resolved env i s)) ->
  forall i, Forall2 R l (resolveFrom env i l).
Proof.
  intros H. induction l as [|s l IH]; intros i; simpl; constructor; auto.
Qed.

Lemma loadAudioDurations_final assetsUrl env l :
  fst (loadAudioDurations assetsUrl env l) = resolveFrom env 0 l.
Proof.
  unfold loadAudioDurations.
  now destruct (LoadFacts.loop_spec assetsUrl env (length l) [] l
                  (Nat.le_refl _)) as [F _ _ _ _ _].
Qed.

Lemma publish_searchTerm log st :
  searchTerm (publish log st) = searchTerm st
  /\ selectedSounds (publish log st) = selectedSounds st
  /\ currentlyPlayingId (publish log st) = currentlyPlayingId st.
Proof.
  unfold publish. revert st.
  induction log as [|b log IH]; intros st; cbn [fold_left]; [auto|].
  destruct (IH (setFilteredSounds (published b) (setSounds (published b) st)))
    as (H1 & H2 & H3).
  now rewrite H1, H2, H3.
Qed.

(** X6. [loadAudioDurations] changes nothing but durations: every sound of
    the result is the sound of the input at that place, or that sound with
    a new duration, which is "00:00" or a formatted duration; ids, names
    and the [selected] and [isPlaying] flags are those of the input.  For a
    non-empty input, the state it leaves has the result in [sounds] and
    also in [filteredSounds], whatever the search term is, which it does
    not touch. *)
Theorem loadAudioDurations_changes_durations_only (assetsUrl : string)
        (env : nat -> outcome) (l : list sound) :
  Forall2 (fun x y =>
             y = x
             \/ (hasDuration x = false
                 /\ exists d, y = withDuration d x
                              /\ (d = "00:00"%string
                                  \/ exists n, d = formatDuration n)))
          l (fst (loadAudioDurations assetsUrl env l))
  /\ map id (fst (loadAudioDurations assetsUrl env l)) = map id l
  /\ map selected (fst (loadAudioDurations assetsUrl env l))
     = map selected l
  /\ map isPlaying (fst (loadAudioDurations assetsUrl env l))
     = map isPlaying l
  /\ (l <> [] ->
      forall st,
        sounds (publish (snd (loadAudioDurations assetsUrl env l)) st)
        = fst (loadAudioDurations assetsUrl env l)
        /\ filteredSounds
             (publish (snd (loadAudioDurations assetsUrl env l)) st)
           = fst (loadAudioDurations assetsUrl env l)
        /\ searchTerm
             (publish (snd (loadAudioDurations assetsUrl env l)) st)
           = searchTerm st).
Proof.
  assert (FA : Forall2 (fun x y =>
             y = x
             \/ (hasDuration x = false
                 /\ exists d, y = withDuration d x
                              /\ (d = "00:00"%string
                                  \/ exists n, d = formatDuration n)))
          l (fst (loadAudioDurations assetsUrl env l))).
  { rewrite loadAudioDurations_final. apply resolveFrom_Forall2.
    intros i s. apply resolved_cases. }
  assert (M : forall (A : Type) (f : sound -> A),
             (forall d s, f (withDuration d s) = f s) ->
             map f (fst (loadAudioDurations assetsUrl env l)) = map f l).
  { intros A f Hf.
    induction FA as [|x y l0 l1 Hxy _ IH]; simpl; [reflexivity|].
    rewrite IH. f_equal.
    destruct Hxy as [-> | (_ & d & -> & _)]; [reflexivity | apply Hf]. }
  refine (conj FA (conj _ (conj _ (conj _ _)))); try (apply M; reflexivity).
  intros Hne st. unfold loadAudioDurations in *.
  destruct (LoadFacts.loop_spec assetsUrl env (length l) [] l
              (Nat.le_refl _)) as [_ I _ _ _ [_ P2]].
  cbn [app length] in *.
  destruct (snd (loop assetsUrl env 0 l)) as [|b0 log0] eqn:El.
  { simpl in I. congruence. }
  destruct (@exists_last _ (b0 :: log0)) as (log' & b & E);
    [discriminate|].
  rewrite E in *. specialize (P2 b). rewrite last_last in P2.
  destruct (LoadFacts.publish_last log' b st) as [S1 S2].
  rewrite S1, S2.
  assert (Pb : published b = fst (loop assetsUrl env 0 l)).
  { rewrite P2. destruct (log' ++ [b]) eqn:E'; [|reflexivity].
    now destruct log'. }
  rewrite Pb. repeat split. apply publish_searchTerm.
Qed.

Lemma loadAudioDurations_changes_durations_only_witness :
  filteredSounds
    (publish (snd (loadAudioDurations "https://cdn" demoEnv demoList))
             (Player.handleSearch "zzz" demoState))
  = fst (loadAudioDurations "https://cdn" demoEnv demoList)
  /\ searchTerm
       (publish (snd (loadAudioDurations "https://cdn" demoEnv demoList))
                (Player.handleSearch "zzz" demoState))
     = "zzz"%string.
Proof.
  destruct (loadAudioDurations_changes_durations_only "https://cdn" demoEnv
              demoList) as (_ & _ & _ & _ & H).
  destruct (H ltac:(discriminate) (Player.handleSearch "zzz" demoState))
    as (_ & H2 & H3).
  split; [exact H2 | exact H3].
Defined.

(** *** The effect on fetched data *)

Lemma createPromises_fresh assetsUrl (l : list sound) :
  Forall (fun s => hasDuration s = false) l ->
  forall i, map index (createPromises assetsUrl i l) = seq i (length l).
Proof.
  induction 1 as [|s l Hs _ IH]; intros i; simpl; [reflexivity|].
  rewrite Hs. simpl. now rewrite IH.
Qed.

(** X7. After a fetch, every sound of the answer goes through the loading
    of durations: the effect stores the formatted sounds (unselected, not
    playing, duration "00:00") in [sounds] and [filteredSounds], clears
    [isLoading], and hands the list to [loadAudioDurations], which arms a
    timer for every index, in order; the sound at an index ends up with the
    formatted duration of its audio when the metadata arrives first, and
    with "00:00" when the audio fails or the timer fires first.  Without
    data the effect does nothing. *)
Theorem fetched_sounds_all_loaded (assetsUrl : string)
        (env : nat -> outcome) (d : list apiSound) (meta : option Z)
        (st : state) :
  snd (onSoundsData (Some (mkSoundsData (Some d) meta)) st)
  = Some (map formatSound d)
  /\ sounds (fst (onSoundsData (Some (mkSoundsData (Some d) meta)) st))
     = map formatSound d
  /\ filteredSounds
       (fst (onSoundsData (Some (mkSoundsData (Some d) meta)) st))
     = map formatSound d
  /\ isLoading (fst (onSoundsData (Some (mkSoundsData (Some d) meta)) st))
     = false
  /\ map index
         (flat_map armed
            (snd (loadAudioDurations assetsUrl env (map formatSound d))))
     = seq 0 (length d)
  /\ (forall i a,
        nth_error d i = Some a ->
        nth_error
          (fst (loadAudioDurations assetsUrl env (map formatSound d))) i
        = Some (mkSound (_id a) (title a) (apiDescription a)
                        (apiCategory a) (apiIsPremium a) (apiLink a)
                        (Some match env i with
                              | LoadedMetadata n => formatDuration n
                              | AudioError => "00:00"%string
                              | TimeoutFired => "00:00"%string
                              end)
                        false false))
  /\ onSoundsData None st = (st, None)
  /\ onSoundsData (Some (mkSoundsData None meta)) st = (st, None).
Proof.
  refine (conj _ (conj _ (conj _ (conj _ (conj _ (conj _ (conj _ _))))))).
  - reflexivity.
  - now destruct meta.
  - now destruct meta.
  - now destruct meta.
  - unfold loadAudioDurations.
    destruct (LoadFacts.loop_spec assetsUrl env
                (length (map formatSound d)) [] (map formatSound d)
                (Nat.le_refl _)) as [_ _ _ A _ _].
    cbn [app length] in A. rewrite A.
    rewrite createPromises_fresh, length_map; [reflexivity|].
    apply Forall_forall. intros s Hs.
    apply in_map_iff in Hs as (a & <- & _). reflexivity.
  - intros i a H. rewrite loadAudioDurations_final.
    rewrite (LoadFacts.resolveFrom_nth env (map formatSound d) 0 i
               (formatSound a)).
    + unfold resolved. cbn. now destruct (env i).
    + rewrite nth_error_map, H. reflexivity.
  - reflexivity.
  - reflexivity.
Qed.

(** Two fetched sounds: the metadata of the first arrives, the timer of
    the second fires. *)
Lemma fetched_sounds_all_loaded_witness :
  nth_error
    (fst (loadAudioDurations "https://cdn"
            (fun i => match i with
                      | O => LoadedMetadata (Finite (7 # 1))
                      | _ => TimeoutFired
                      end)
            (map formatSound
                 [mkApiSound "r" "Rain" "" "" false "/r.mp3";
                  mkApiSound "w" "Wind" "" "" true "/w.mp3"])))
    0
  = Some (mkSound "r" "Rain" "" "" false "/r.mp3" (Some "00:07"%string)
                  false false).
Proof.
  destruct (fetched_sounds_all_loaded "https://cdn"
              (fun i => match i with
                        | O => LoadedMetadata (Finite (7 # 1))
                        | _ => TimeoutFired
                        end)
              [mkApiSound "r" "Rain" "" "" false "/r.mp3";
               mkApiSound "w" "Wind" "" "" true "/w.mp3"]
              None initialState) as (_ & _ & _ & _ & _ & H & _).
  apply (H 0%nat (mkApiSound "r" "Rain" "" "" false "/r.mp3")).
  reflexivity.
Defined.

(** *** Deleting *)

(** X8. Once the ids of the selected sounds are in [selectedSounds],
    [confirmDelete] asks for the deletion of exactly the selected sounds:
    an id is handed to a delete mutation if and only if a selected sound
    has it.  It makes no call when nothing is selected, one single-sound
    call when one sound is selected, and one multi-sound call with all the
    ids, in the order of the list, when more are.  It always closes the
    modal and leaves the list itself as it is. *)
Theorem confirmDelete_deletes_the_selection (st : state) :
  (forall i,
      In i (deletedIds (snd (confirmDelete (syncSelectedSounds st))))
      <-> exists s, In s (sounds st) /\ selected s = true /\ id s = i)
  /\ deletedIds (snd (confirmDelete (syncSelectedSounds st)))
     = map id (filter selected (sounds st))
  /\ snd (confirmDelete (syncSelectedSounds st))
     = match map id (filter selected (sounds st)) with
       | [] => []
       | [one] => [DeleteSound one]
       | many => [DeleteMultipleSounds many]
       end
  /\ (snd (confirmDelete (syncSelectedSounds st)) = []
      <-> Forall (fun s => selected s = false) (sounds st))
  /\ isDeleteModalOpen (fst (confirmDelete (syncSelectedSounds st))) = false
  /\ sounds (fst (confirmDelete (syncSelectedSounds st))) = sounds st.
Proof.
  assert (E : deletedIds (snd (confirmDelete (syncSelectedSounds st)))
              = map id (filter selected (sounds st))).
  { unfold confirmDelete, syncSelectedSounds. cbn [snd selectedSounds
      setSelectedSounds].
    destruct (map id (filter selected (sounds st))) as [|a [|b r]];
      cbn; now rewrite ?app_nil_r. }
  refine (conj _ (conj E (conj _ (conj _ (conj _ _))))); try reflexivity.
  - intros i. rewrite E, in_map_iff. split.
    + intros (s & Hi & Hs). apply filter_In in Hs as [Hs Hsel]. eauto.
    + intros (s & Hs & Hsel & Hi). exists s. split; [assumption|].
      now apply filter_In.
  - unfold confirmDelete, syncSelectedSounds. cbn [snd selectedSounds
      setSelectedSounds]. split.
    + intros H.
      assert (N : filter selected (sounds st) = []).
      { destruct (filter selected (sounds st)) as [|a [|b r]];
          [reflexivity | discriminate H | discriminate H]. }
      apply Forall_forall. intros s Hs.
      destruct (selected s) eqn:Sel; [|reflexivity].
      assert (In s (filter selected (sounds st))) by now apply filter_In.
      rewrite N in *. contradiction.
    + intros H. rewrite Forall_forall in H.
      assert (N : filter selected (sounds st) = []).
      { destruct (filter selected (sounds st)) as [|a r] eqn:F;
          [reflexivity|].
        assert (Ha : In a (filter selected (sounds st)))
          by (rewrite F; now left).
        apply filter_In in Ha as [Ha Sa]. rewrite (H a Ha) in Sa.
        discriminate. }
      now rewrite N.
Qed.

(** *** Sharing and sending *)






(** *** The percentage of the filter indicator *)

Lemma inject_Z_pos (z : Z) : (0 < z)%Z -> (0 < inject_Z z)%Q.
Proof. intros H. unfold Qlt. simpl. lia. Qed.

Lemma inject_Z_nonneg (z : Z) : (0 <= z)%Z -> (0 <= inject_Z z)%Q.
Proof. intros H. unfold Qle. simpl. lia. Qed.

(** [Math.round((f / s) * 100)] for 0 <= f <= s and 0 < s, with both
    roundings: the quotient is rounded to a double that is at most 1, its
    product with 100 to a double that is at most 100. *)
Lemma round_percent (f : Z) (s : positive) :
  (0 <= f <= Z.pos s)%Z ->
  exists n, round (mulPos (divPos (Finite (inject_Z f)) s) 100) = IInt n
            /\ (0 <= n <= 100)%Z.
Proof.
  intros Hf. cbn [divPos].
  destruct (Qnum_div_pos (inject_Z f) s) as [En Ed].
  destruct (roundDouble_upto (inject_Z f / inject_Z (Z.pos s))%Q 1)
    as (u1 & -> & U1).
  - rewrite En. cbn [inject_Z Qnum]. lia.
  - lia.
  - rewrite En, Ed. cbn [inject_Z Qnum Qden]. lia.
  - cbn [mulPos].
    pose proof ulpMin_pos as HS. pose proof ulpMin_to_pos as HP.
    destruct (roundDouble_upto ((u1 # Z.to_pos ulpMin) * inject_Z 100)%Q
                               100)
      as (u2 & -> & U2).
    + unfold Qmult, inject_Z. cbn [Qnum Qden]. lia.
    + lia.
    + unfold Qmult, inject_Z. cbn [Qnum Qden].
      rewrite Pos2Z.inj_mul, HP. lia.
    + cbn [round]. eexists. split; [reflexivity|].
      unfold Qplus, Qfloor. cbn [Qnum Qden].
      rewrite Pos2Z.inj_mul, HP.
      split.
      * apply Z.div_pos; lia.
      * apply Z.lt_succ_r, Z.div_lt_upper_bound; lia.
Qed.

(** X11. While [filteredSounds] is the search result of [sounds], the
    percentage of the filter indicator, whenever the indicator is shown, is
    a whole number from 0 to 100: the list is not empty then, so the
    division is never by zero. *)
Theorem percentage_between_0_and_100 (st : state) :
  filterInv st ->
  showsFiltered st = true ->
  sounds st <> []
  /\ (length (filteredSounds st) < length (sounds st))%nat
  /\ exists n, percentShown st = IInt n /\ (0 <= n <= 100)%Z.
Proof.
  intros Inv Sh.
  destruct (PlayerFacts.filterInv_incl st Inv) as [_ Le].
  unfold showsFiltered in Sh. apply andb_true_iff in Sh as [_ Ne].
  apply negb_true_iff, Nat.eqb_neq in Ne.
  assert (Lt : (length (filteredSounds st) < length (sounds st))%nat) by lia.
  split; [intros E; rewrite E in Lt; simpl in Lt; lia|].
  split; [assumption|].
  unfold percentShown.
  destruct (length (sounds st)) as [|n] eqn:Es; [lia|].
  apply round_percent. lia.
Qed.

(** 23 of 40 sounds match "rain": the indicator is shown, with a whole
    number from 0 to 100. *)
Lemma percentage_between_0_and_100_witness :
  showsFiltered (Player.handleSearch "rain" fortyState) = true
  /\ (length (filteredSounds (Player.handleSearch "rain" fortyState)) = 23
      /\ length (sounds (Player.handleSearch "rain" fortyState)) = 40)%nat
  /\ exists n,
       percentShown (Player.handleSearch "rain" fortyState) = IInt n
       /\ (0 <= n <= 100)%Z.
Proof.
  split; [vm_compute; reflexivity|].
  split; [split; vm_compute; reflexivity|].
  apply (percentage_between_0_and_100
           (Player.handleSearch "rain" fortyState)).
  - vm_compute. reflexivity.
  - vm_compute. reflexivity.
Defined.

(** The quotient 23 / 40 is rounded to a double just below 0.575, and so
    is its product with 100, just below 57.5: the indicator shows 57, where
    the exact value 57.5 would be rounded to 58. *)
Example percentage_23_of_40 :
  percentShown (Player.handleSearch "rain" fortyState) = IInt 57
  /\ Qfloor (inject_Z 23 / inject_Z 40 * inject_Z 100 + (1 # 2))%Q
     = 58%Z.
Proof. split; vm_compute; reflexivity. Qed.

Example percentage_one_of_three :
  percentShown (Player.handleSearch "b" demoState) = IInt 33.
Proof. vm_compute. reflexivity. Qed.

(** X21. [sendToFriend] does not look at the list of recipients: while the
    friend list is loading (and likewise when there is no friend) it still
    sends the selected sound, to an empty list of users, and when that
    request succeeds it announces the sound as sent to all friends, clears
    the selection and goes to the friends page. *)
Theorem sendToFriend_without_recipients (apiUrl : string)
        (friends : list string) (st : state) (s : sound) :
  find selected (sounds st) = Some s ->
  friendIds true friends = []
  /\ friendIds false [] = []
  /\ exists title message,
       sendToFriend apiUrl (friendIds true friends) true st
       = [SendSoundMessage [] (apiUrl ++ link s) title;
          ToastSuccess message; ClearSelectedSound;
          Navigate "/all-friends"].
Proof.
  intros F. split; [reflexivity|]. split; [reflexivity|].
  unfold sendToFriend. rewrite F. cbn [friendIds negb]. eauto.
Qed.

Lemma sendToFriend_without_recipients_witness :
  exists title message,
    sendToFriend "https://api" (friendIds true ["u1"; "u2"]%string) true
                 (toggleSelect false "a" demoState)
    = [SendSoundMessage [] "https://api/a.mp3" title;
       ToastSuccess message; ClearSelectedSound; Navigate "/all-friends"].
Proof.
  apply (sendToFriend_without_recipients "https://api" ["u1"; "u2"]%string
           (toggleSelect false "a" demoState)
           (demoSound "a" (Some "00:00"%string) true) eq_refl).
Defined.

End LibraryFacts.

(* ===================================================================== *)
(** ** The wave                                                           *)
(* ===================================================================== *)

Module AudioWaveFacts.

Import AudioWave Invariants.

Local Open Scope list_scope.

Lemma randomHeight_bounds (r : Q) (lo hi : Z) :
  (0 <= r)%Q -> (r < 1)%Q -> (lo <= hi)%Z ->
  (lo <= randomHeight r lo hi <= hi)%Z.
Proof.
  intros H0 H1 Hlh. unfold randomHeight.
  set (k := (hi - lo + 1)%Z).
  assert (Hk : (0 < inject_Z k)%Q)
    by (apply LibraryFacts.inject_Z_pos; unfold k; lia).
  assert (L : (0 <= Qfloor (r * inject_Z k))%Z).
  { change 0%Z with (Qfloor 0). apply Qfloor_resp_le.
    apply Qmult_le_0_compat; [assumption | now apply Qlt_le_weak]. }
  assert (U : (Qfloor (r * inject_Z k) < k)%Z).
  { rewrite Zlt_Qlt.
    apply Qle_lt_trans with (r * inject_Z k)%Q; [apply Qfloor_le|].
    rewrite <- (Qmult_1_l (inject_Z k)) at 2.
    now apply Qmult_lt_compat_r. }
  unfold k in *. lia.
Qed.

Lemma push_all {A B} (g : A -> B) (xs : list A) (acc : list B) :
  fold_left (fun l i => l ++ [g i]) xs acc = acc ++ map g xs.
Proof.
  revert acc. induction xs as [|x xs IH]; intros acc; simpl.
  - now rewrite app_nil_r.
  - now rewrite IH, <- app_assoc.
Qed.

Lemma generateLines_map isPlaying rand :
  generateLines isPlaying rand
  = map (fun i => randomHeight (rand i) (minHeightOf isPlaying)
                               (maxHeightOf isPlaying))
        (seq 0 lineCount).
Proof. unfold generateLines. now rewrite push_all. Qed.

Lemma assign_in_range (i : nat) (v : Z) (a : lines) :
  (i < length a)%nat ->
  length (assign i v a) = length a
  /\ forall P : option Z -> Prop,
       P (Some v) -> Forall P a -> Forall P (assign i v a).
Proof.
  revert i. induction a as [|x a IH]; intros i H; [simpl in H; lia|].
  destruct i as [|i]; simpl.
  - split; [reflexivity|]. intros P Pv Pa. inversion Pa; subst.
    now constructor.
  - destruct (IH i) as [E F]; [simpl in H; lia|].
    split; [now rewrite E|]. intros P Pv Pa. inversion Pa; subst.
    constructor; auto.
Qed.

Lemma randomIndex_in_range (r : Q) (n : nat) :
  (0 <= r)%Q -> (r < 1)%Q -> (0 < n)%nat ->
  (Z.to_nat (Qfloor (r * inject_Z (Z.of_nat n))) < n)%nat.
Proof.
  intros H0 H1 Hn.
  assert (Hk : (0 < inject_Z (Z.of_nat n))%Q)
    by (apply LibraryFacts.inject_Z_pos; lia).
  assert (L : (0 <= Qfloor (r * inject_Z (Z.of_nat n)))%Z).
  { change 0%Z with (Qfloor 0). apply Qfloor_resp_le.
    apply Qmult_le_0_compat; [assumption | now apply Qlt_le_weak]. }
  assert (U : (Qfloor (r * inject_Z (Z.of_nat n)) < Z.of_nat n)%Z).
  { rewrite Zlt_Qlt.
    apply Qle_lt_trans with (r * inject_Z (Z.of_nat n))%Q;
      [apply Qfloor_le|].
    rewrite <- (Qmult_1_l (inject_Z (Z.of_nat n))) at 2.
    now apply Qmult_lt_compat_r. }
  lia.
Qed.

Lemma floor_mult_zero (r : Q) : Qfloor (r * inject_Z 0) = 0%Z.
Proof.
  destruct r as [n d]. unfold Qmult, Qfloor, inject_Z. simpl.
  now rewrite Z.mul_0_r.
Qed.

Lemma replaceOne_keeps rand k (a : lines) :
  unitInterval rand -> heightsWithin 5 18 a ->
  heightsWithin 5 18 (replaceOne rand k a)
  /\ (a <> [] -> length (replaceOne rand k a) = length a).
Proof.
  intros R H. unfold replaceOne.
  destruct (R k) as [K0 K1]. destruct (R (S k)) as [S0 S1].
  assert (Hh : exists h, Some (randomHeight (rand (S k)) 5 18) = Some h
                         /\ (5 <= h <= 18)%Z).
  { eexists. split; [reflexivity|]. apply randomHeight_bounds; auto; lia. }
  destruct a as [|x a].
  - cbn [length Z.of_nat]. rewrite floor_mult_zero. cbn [Z.to_nat assign].
    split; [|congruence].
    constructor; [exact Hh | constructor].
  - destruct (assign_in_range
                (Z.to_nat (Qfloor (rand k * inject_Z (Z.of_nat (length (x :: a))))))
                (randomHeight (rand (S k)) 5 18) (x :: a)) as [E F].
    { apply randomIndex_in_range; auto. simpl. lia. }
    split; [|intros _; exact E].
    apply F; assumption.
Qed.

Lemma tick_keeps rand (a : lines) :
  unitInterval rand -> heightsWithin 5 18 a ->
  heightsWithin 5 18 (tick rand a)
  /\ (a <> [] -> length (tick rand a) = length a).
Proof.
  intros R. unfold tick. generalize (seq 0 10). intros ks. revert a.
  induction ks as [|k ks IH]; intros a H; cbn [fold_left].
  - split; [assumption | reflexivity].
  - destruct (replaceOne_keeps rand (2 * k) a R H) as [H1 L1].
    destruct (IH _ H1) as [H2 L2].
    split; [assumption|]. intros Ne.
    rewrite L2, L1; [reflexivity | assumption|].
    intros E. apply (f_equal (@length _)) in E. rewrite L1 in E by assumption.
    destruct a; [congruence | discriminate].
Qed.

Lemma ticks_keep rands (a : lines) :
  Forall unitInterval rands -> heightsWithin 5 18 a -> a <> [] ->
  heightsWithin 5 18 (ticks rands a) /\ length (ticks rands a) = length a.
Proof.
  unfold ticks. intros R. revert a.
  induction R as [|rand rands Hr _ IH]; intros a H Ne; cbn [fold_left].
  - now split.
  - destruct (tick_keeps rand a Hr H) as [H1 L1].
    specialize (L1 Ne).
    destruct (IH (tick rand a) H1) as [H2 L2].
    + intros E. apply (f_equal (@length _)) in E. rewrite L1 in E.
      destruct a; [congruence | discriminate].
    + split; [assumption | congruence].
Qed.

Lemma generateLines_within (isPlaying : bool) (rand : nat -> Q) :
  unitInterval rand ->
  length (generateLines isPlaying rand) = 67%nat
  /\ Forall (fun h => (minHeightOf isPlaying <= h <= maxHeightOf isPlaying)%Z
                      /\ (5 <= h <= 18)%Z)
            (generateLines isPlaying rand).
Proof.
  intros R. rewrite generateLines_map. split.
  - now rewrite length_map, length_seq.
  - apply Forall_forall. intros h Hh.
    apply in_map_iff in Hh as (i & <- & _).
    destruct (R i) as [R0 R1].
    assert (B : (minHeightOf isPlaying
                 <= randomHeight (rand i) (minHeightOf isPlaying)
                                 (maxHeightOf isPlaying)
                 <= maxHeightOf isPlaying)%Z).
    { apply randomHeight_bounds; auto. destruct isPlaying; simpl; lia. }
    split; [exact B|]. destruct isPlaying; simpl in *; lia.
Qed.

(** X12. [generateLines] returns 67 heights, each between the minimum and
    the maximum of its mode: 5 to 18 while playing, 8 to 14 otherwise. *)
Theorem generateLines_heights (isPlaying : bool) (rand : nat -> Q) :
  unitInterval rand ->
  length (generateLines isPlaying rand) = 67%nat
  /\ Forall (fun h => if isPlaying then (5 <= h <= 18)%Z
                      else (8 <= h <= 14)%Z)
            (generateLines isPlaying rand).
Proof.
  intros R. destruct (generateLines_within isPlaying rand R) as [L F].
  split; [exact L|].
  eapply Forall_impl; [|exact F]. intros h [H _].
  destruct isPlaying; exact H.
Qed.

Lemma generateLines_heights_witness :
  length (generateLines false (fun _ => (1 # 2)%Q)) = 67%nat.
Proof.
  apply (generateLines_heights false (fun _ => (1 # 2)%Q)).
  intros k. split; [discriminate | reflexivity].
Defined.

Lemma line_in_view (h : Z) :
  (5 <= h <= 18)%Z ->
  (3 <= startY h)%Q /\ (startY h <= endY h)%Q /\ (endY h <= 21)%Q.
Proof.
  intros H. unfold startY, endY, Qle, Qminus, Qplus, Qopp, Qdiv, Qmult,
    Qinv, inject_Z. cbn [Qnum Qden Pos.mul]. lia.
Qed.

(** X13. However long a wave is animated, it keeps its 67 lines, without
    holes, each with a height from 5 to 18: every replacement of the
    interval callback hits an index inside the array.  So each line is
    drawn inside the view box of 134 by 24: its x is below 134 and it runs
    from y = 3 at least to y = 21 at most. *)
Theorem wave_stays_in_view (isPlaying : bool) (rand0 : nat -> Q)
        (rands : list (nat -> Q)) :
  unitInterval rand0 -> Forall unitInterval rands ->
  length (ticks rands (initialLines isPlaying rand0)) = 67%nat
  /\ heightsWithin 5 18 (ticks rands (initialLines isPlaying rand0))
  /\ viewBox (ticks rands (initialLines isPlaying rand0)) = (134, 24)%Z
  /\ forall index cell,
       nth_error (ticks rands (initialLines isPlaying rand0)) index
       = Some cell ->
       exists h,
         cell = Some h
         /\ (0 <= lineX index < 134)%Z
         /\ (3 <= startY h)%Q /\ (startY h <= endY h)%Q
         /\ (endY h <= 21)%Q.
Proof.
  intros R0 Rs.
  destruct (generateLines_within isPlaying rand0 R0) as [L0 H0].
  assert (I0 : heightsWithin 5 18 (initialLines isPlaying rand0)).
  { unfold initialLines, heightsWithin. apply Forall_forall.
    intros x Hx. apply in_map_iff in Hx as (h & <- & Hh).
    rewrite Forall_forall in H0. exists h. split; [reflexivity|].
    now apply H0. }
  assert (Li : length (initialLines isPlaying rand0) = 67%nat).
  { unfold initialLines. now rewrite length_map. }
  destruct (ticks_keep rands _ Rs I0) as [H L].
  { intros E. rewrite E in Li. discriminate. }
  rewrite Li in L.
  split; [exact L|]. split; [exact H|]. split.
  - unfold viewBox. now rewrite L.
  - intros index cell Hn.
    assert (Hi : (index < 67)%nat).
    { rewrite <- L. apply nth_error_Some. congruence. }
    apply nth_error_In in Hn. unfold heightsWithin in H.
    rewrite Forall_forall in H. destruct (H cell Hn) as (h & -> & Hh).
    exists h. split; [reflexivity|]. split; [unfold lineX; lia|].
    now apply line_in_view.
Qed.

Lemma wave_stays_in_view_witness :
  length (ticks [fun _ => (1 # 2)%Q; fun k => (1 # (Pos.of_succ_nat (S k)))%Q]
                (initialLines false (fun _ => (9 # 10)%Q)))
  = 67%nat.
Proof.
  apply (wave_stays_in_view false (fun _ => (9 # 10)%Q)
           [fun _ => (1 # 2)%Q; fun k => (1 # (Pos.of_succ_nat (S k)))%Q]).
  - intros k. split; [discriminate | reflexivity].
  - constructor; [|constructor; [|constructor]].
    + intros k. split; [discriminate | reflexivity].
    + intros k. split; [discriminate|].
      unfold Qlt. simpl. lia.
Defined.

Example tick_sample :
  firstn 4 (tick (fun k => if Nat.even k then (1 # 100)%Q else (9 # 10)%Q)
                 (initialLines false (fun _ => (1 # 2)%Q)))
  = [Some 17; Some 11; Some 11; Some 11]%Z.
Proof. reflexivity. Qed.

(** The products of [randomHeight] and of the random index are taken
    exact above.  With the rounding of [*], for a double below 1 as
    [Math.random] returns it, the integer part of the product stays in the
    same range: the bounds of the heights and of the index hold of the
    rounded products too. *)
Lemma rounded_random_within (r : Q) :
  JS.isDouble r = true -> (0 <= r)%Q -> (r < 1)%Q ->
  (forall isPlaying,
      exists z,
        JS.floor (JS.mulPos (JS.Finite r)
                    (Z.to_pos (maxHeightOf isPlaying
                               - minHeightOf isPlaying + 1)))
        = JS.IInt z
        /\ (minHeightOf isPlaying <= z + minHeightOf isPlaying
            <= maxHeightOf isPlaying)%Z)
  /\ exists z,
       JS.floor (JS.mulPos (JS.Finite r) (Pos.of_nat lineCount))
       = JS.IInt z
       /\ (0 <= z < Z.of_nat lineCount)%Z.
Proof.
  intros D Lo Hi. split.
  - intros isPlaying.
    destruct (DoubleFacts.floor_mulPos_below r
                (Z.to_pos (maxHeightOf isPlaying
                           - minHeightOf isPlaying + 1)) Lo Hi D)
      as (z & E & Hz).
    + destruct isPlaying; vm_compute; discriminate.
    + exists z. split; [exact E|].
      destruct isPlaying; cbn in Hz |- *; lia.
  - destruct (DoubleFacts.floor_mulPos_below r (Pos.of_nat lineCount)
                Lo Hi D) as (z & E & Hz).
    + vm_compute. discriminate.
    + exists z. split; [exact E|]. cbn in Hz |- *. lia.
Qed.

End AudioWaveFacts.

(* ===================================================================== *)
(** ** The connection hooks                                               *)
(* ===================================================================== *)

Module ConnectionFacts.

Import JS Connections ConnectionHooks JSFacts.

Local Open Scope list_scope.

(** X14. Every query key of the connection hooks starts with the key
    ["connections"], the one every mutation invalidates when it succeeds,
    so a successful mutation reaches the four list queries whatever their
    filters are.  The keys of two different hooks are never equal, and two
    keys of one hook are equal only for equal filters. *)
Theorem query_keys_start_with_all (f g : filters) :
  (exists rest, keys_users f = keys_all ++ rest)
  /\ (exists rest, keys_friendList f = keys_all ++ rest)
  /\ (exists rest, keys_sentRequests f = keys_all ++ rest)
  /\ (exists rest, keys_receivedRequests f = keys_all ++ rest)
  /\ keys_users f <> keys_friendList g
  /\ keys_users f <> keys_sentRequests g
  /\ keys_users f <> keys_receivedRequests g
  /\ keys_friendList f <> keys_sentRequests g
  /\ keys_friendList f <> keys_receivedRequests g
  /\ keys_sentRequests f <> keys_receivedRequests g
  /\ (keys_users f = keys_users g -> f = g)
  /\ (keys_friendList f = keys_friendList g -> f = g)
  /\ (keys_sentRequests f = keys_sentRequests g -> f = g)
  /\ (keys_receivedRequests f = keys_receivedRequests g -> f = g)
  /\ Forall (fun mutation : bool -> string -> list mutationEffect =>
               forall v, In (Invalidate keys_all) (mutation true v))
            [useSendFriendRequest; useAcceptFriendRequest;
             useRejectFriendRequest; useCancelFriendRequest;
             useRemoveFriend].
Proof.
  unfold keys_users, keys_friendList, keys_sentRequests,
    keys_receivedRequests, keys_lists, keys_all.
  repeat split; try (eexists; simpl; reflexivity);
    try (simpl; intros H; discriminate H);
    try (simpl; intros H; now injection H).
  repeat constructor; intros v; right; now left.
Qed.

Ltac mutation_case :=
  intros succeeds v; destruct succeeds; simpl;
  (split;
   [eexists; split; [reflexivity|]; split; [reflexivity|];
    intros m' u' f' v' [H|[]]; discriminate H|]);
  (split; [intros message [H|[H|[]]]; discriminate H|]);
  split; split;
  first [ intros _; reflexivity
        | intros [k [H|[H|[]]]]; discriminate H
        | intros _; eexists; right; now left
        | discriminate ].

(** X15. Each of the five mutations sends one request, with its argument
    under the field name of its endpoint.  When the request succeeds the
    only other effect is the invalidation of the key ["connections"]; when
    it fails the only other effect is a line on the console: a failed
    mutation shows no toast and invalidates nothing. *)
Theorem mutations_never_toast :
  Forall (fun '(mutation, m, url, field) =>
            forall (succeeds : bool) (v : string),
              (exists after,
                  mutation succeeds v = Http m url field v :: after
                  /\ length after = 1%nat
                  /\ forall m' u' f' v', ~ In (Http m' u' f' v') after)
              /\ (forall message, ~ In (Toast message) (mutation succeeds v))
              /\ ((exists key, In (Invalidate key) (mutation succeeds v))
                  <-> succeeds = true)
              /\ ((exists label, In (LogError label) (mutation succeeds v))
                  <-> succeeds = false))
         [(useSendFriendRequest, POST,
           "/user-connection/send-request", "userId");
          (useAcceptFriendRequest, PATCH,
           "/user-connection/accept-request", "connectionID");
          (useRejectFriendRequest, PATCH,
           "/user-connection/reject-request", "connectionID");
          (useCancelFriendRequest, PATCH,
           "/user-connection/cancel-request", "connectionID");
          (useRemoveFriend, PATCH,
           "/user-connection/remove-friend", "connectionID")]%string.
Proof.
  repeat (apply Forall_cons; [mutation_case|]). apply Forall_nil.
Qed.

Lemma orElse_explicit (o : option string) (fallback : string) :
  orElse o fallback
  = match o with
    | Some m => if String.eqb m EmptyString then fallback else m
    | None => fallback
    end.
Proof.
  destruct o as [m|]; [|reflexivity]. unfold orElse, truthyString.
  now destruct (String.eqb m EmptyString).
Qed.

Ltac query_case apiGet :=
  cbv beta iota;
  unfold useGetAllUsers, requestUrl, useFriendList, useSentRequests,
    useReceivedRequests, onError; cbv zeta;
  split;
  [ match goal with
    | |- context [apiGet ?u] => now destruct (apiGet u)
    end |];
  split;
  [ intros m H; rewrite H; cbn [fst snd errorToasts flat_map app];
    rewrite orElse_explicit; now split
  | intros body H; rewrite H; now split ].

(** X16. The four list queries work alike: each sends one GET to its own
    endpoint followed by the query string the filters give, the same for
    all four; when the request fails each shows one error toast, with the
    message of the back end or, when that is absent or empty, with its own
    fallback text; when the request succeeds none shows a toast. *)
Theorem list_queries_alike (apiGet : string -> apiResult) (f : filters) :
  Forall (fun '(query, endpoint, fallback) =>
            requests (fst (query apiGet f))
            = [(endpoint ++ queryString f)%string]
            /\ (forall m,
                   apiGet (endpoint ++ queryString f)%string = ApiFailure m ->
                   errorToasts (fst (query apiGet f))
                   = [match m with
                      | Some s => if String.eqb s EmptyString
                                  then fallback else s
                      | None => fallback
                      end]
                   /\ snd (query apiGet f) = None)
            /\ (forall body,
                   apiGet (endpoint ++ queryString f)%string
                   = ApiResponse body ->
                   errorToasts (fst (query apiGet f)) = []
                   /\ snd (query apiGet f) = Some body))
         [(useGetAllUsers, "/user/get-all-user", "Failed to fetch users");
          (useFriendList, "/user-connection/friend-list",
           "Failed to fetch friends");
          (useSentRequests, "/user-connection/sent-list",
           "Failed to fetch sent requests");
          (useReceivedRequests, "/user-connection/request-list",
           "Failed to fetch received requests")]%string.
Proof.
  repeat (apply Forall_cons; [query_case apiGet|]). apply Forall_nil.
Qed.

Lemma list_queries_alike_witness :
  errorToasts (fst (useSentRequests (fun _ => ApiFailure (Some EmptyString))
                                    noFilters))
  = ["Failed to fetch sent requests"%string].
Proof.
  pose proof (proj1 (Forall_forall _ _)
                (list_queries_alike
                   (fun _ => ApiFailure (Some EmptyString)) noFilters)
                (useSentRequests, "/user-connection/sent-list"%string,
                 "Failed to fetch sent requests"%string)) as H.
  cbv beta iota in H.
  destruct H as (_ & H & _); [right; right; left; reflexivity|].
  exact (proj1 (H (Some EmptyString) eq_refl)).
Defined.

(** *** The query string cannot be bent by the search text *)

Lemma occurrences_app (c : ascii) (s t : string) :
  occurrences c (s ++ t)%string
  = (occurrences c s + occurrences c t)%nat.
Proof. induction s as [|x s IH]; simpl; [reflexivity | rewrite IH; lia]. Qed.

Lemma encodeChar_clean (c x : ascii) :
  structural c = true -> occurrences c (encodeChar x) = 0%nat.
Proof.
  unfold structural. simpl. rewrite !orb_true_iff. intros H.
  repeat (destruct H as [H|H]); try discriminate H;
    apply Ascii.eqb_eq in H; subst c;
    destruct x as [[] [] [] [] [] [] [] []]; reflexivity.
Qed.

Lemma urlencode_clean (c : ascii) (s : string) :
  structural c = true -> occurrences c (urlencode s) = 0%nat.
Proof.
  intros H. induction s as [|x s IH]; simpl; [reflexivity|].
  now rewrite occurrences_app, encodeChar_clean, IH.
Qed.

Lemma occurrences_one (c x : ascii) :
  occurrences c (String x EmptyString)
  = if Ascii.eqb c x then 1%nat else 0%nat.
Proof.
  cbn [occurrences]. rewrite (Ascii.eqb_sym x c).
  destruct (Ascii.eqb c x); reflexivity.
Qed.

Lemma serialize_occurrences (c : ascii) (params : searchParams) :
  structural c = true ->
  occurrences c (serialize params)
  = (if Ascii.eqb c "=" then length params
     else if Ascii.eqb c "&" then length params - 1
     else 0)%nat.
Proof.
  intros H.
  assert (E : forall k v,
             occurrences c (urlencode k ++ "=" ++ urlencode v)%string
             = if Ascii.eqb c "=" then 1%nat else 0%nat).
  { intros k v.
    rewrite !occurrences_app, occurrences_one, !urlencode_clean
      by assumption.
    destruct (Ascii.eqb c "="); reflexivity. }
  induction params as [|[k v] rest IH].
  { cbn [serialize occurrences length].
    destruct (Ascii.eqb c "="); [reflexivity|].
    now destruct (Ascii.eqb c "&"). }
  destruct rest as [|p rest].
  - cbn [serialize length]. rewrite E.
    destruct (Ascii.eqb c "="); [reflexivity|].
    now destruct (Ascii.eqb c "&").
  - assert (U : serialize ((k, v) :: p :: rest)
                = (urlencode k ++ "=" ++ urlencode v ++ "&"
                   ++ serialize (p :: rest))%string)
      by (destruct p; reflexivity).
    rewrite U, !occurrences_app, !occurrences_one, IH,
      !urlencode_clean by assumption.
    cbn [length].
    destruct (Ascii.eqb c "=") eqn:E1.
    + apply Ascii.eqb_eq in E1. subst c. cbn. lia.
    + destruct (Ascii.eqb c "&"); lia.
Qed.

(** X17. Whatever the search text or the other filters hold, the query
    string has the shape the code means it to have: one [=] for each
    parameter, one [&] between two parameters, one leading [?] when there
    is a parameter and none otherwise, and no [#], [/] or blank at all.  A
    search text cannot add a parameter or end the query. *)
Theorem query_string_shape (f : filters) :
  occurrences "=" (queryString f) = length (buildParams f)
  /\ occurrences "&" (queryString f) = (length (buildParams f) - 1)%nat
  /\ occurrences "?" (queryString f)
     = (if length (buildParams f) =? 0 then 0 else 1)%nat
  /\ occurrences "#" (queryString f) = 0%nat
  /\ occurrences "/" (queryString f) = 0%nat
  /\ occurrences " " (queryString f) = 0%nat
  /\ length (buildParams f)
     = ((if truthy (search f) then 1 else 0)
        + (if truthy (page f) then 1 else 0)
        + (if truthy (limit f) then 1 else 0))%nat.
Proof.
  assert (Q : forall c, structural c = true ->
                occurrences c (queryString f)
                = ((if Ascii.eqb c "?"
                    then (if length (buildParams f) =? 0 then 0 else 1)
                    else 0)
                   + occurrences c (serialize (buildParams f)))%nat).
  { intros c Hc. unfold queryString.
    destruct (buildParams f) as [|p rest] eqn:E.
    - simpl. now destruct (Ascii.eqb c "?").
    - assert (N : truthyString (serialize (p :: rest)) = true).
      { apply truthyString_true. apply RequestFacts.serialize_nonempty.
        discriminate. }
      rewrite N. rewrite occurrences_app, occurrences_one.
      cbn [length Nat.eqb]. reflexivity. }
  refine (conj _ (conj _ (conj _ (conj _ (conj _ (conj _ _))))));
    try (rewrite Q, serialize_occurrences by reflexivity;
         cbn [Ascii.eqb Bool.eqb]; lia).
  rewrite RequestFacts.buildParams_spec.
  destruct (truthy (search f)), (truthy (page f)), (truthy (limit f));
    reflexivity.
Qed.

Example query_string_hostile :
  queryString (mkFilters (VStr "a&limit=1#x ?") VUndefined (VNum 5))
  = "?search=a%26limit%3D1%23x+%3F&limit=5"%string.
Proof. reflexivity. Qed.

End ConnectionFacts.

(* ===================================================================== *)
(** ** Searching, and what the forms submit                               *)
(* ===================================================================== *)

Module SearchFacts.

Import JS SoundList Player JSFacts SoundListFacts.

Lemma append_assoc (a b c : string) :
  ((a ++ b) ++ c = a ++ (b ++ c))%string.
Proof. induction a as [|x a IH]; simpl; [reflexivity | now rewrite IH]. Qed.

Lemma allChars_app (P : ascii -> bool) (a b : string) :
  allChars P (a ++ b) = allChars P a && allChars P b.
Proof.
  induction a as [|x a IH]; simpl; [reflexivity|].
  now rewrite IH, andb_assoc.
Qed.

Lemma allChars_toLowerCase (s : string) :
  allChars isWhiteSpace (toLowerCase s) = allChars isWhiteSpace s.
Proof.
  induction s as [|x s IH]; simpl; [reflexivity|].
  now rewrite isWhiteSpace_toLowerChar, IH.
Qed.

Lemma handleSearch_filtered term st :
  filteredSounds (handleSearch term st)
  = if allChars isWhiteSpace term then sounds st
    else filter (matchesTerm term) (sounds st).
Proof. unfold handleSearch. apply applySearch_filteredSounds. Qed.

(** X19. Typing more never adds results: when the lowercased term [t1] is
    a part of the lowercased term [t2] (for instance [t2] is [t1] with more
    characters typed before or after), every sound that [handleSearch]
    shows for [t2] is also shown for [t1].  Every result is a sound of the
    list, an emptied search box shows the whole list again, and the search
    changes neither the list nor anything but the term and the results. *)
Theorem search_narrows (t1 t2 : string) (st : state) :
  (exists pre post,
      toLowerCase t2 = (pre ++ toLowerCase t1 ++ post)%string) ->
  (forall s, In s (filteredSounds (handleSearch t2 st)) ->
             In s (filteredSounds (handleSearch t1 st)))
  /\ (forall s, In s (filteredSounds (handleSearch t2 st)) ->
                In s (sounds st))
  /\ filteredSounds (handleSearch EmptyString st) = sounds st
  /\ sounds (handleSearch t2 st) = sounds st
  /\ searchTerm (handleSearch t2 st) = t2
  /\ handleSearch t2 st
     = setFilteredSounds (filteredSounds (handleSearch t2 st))
                         (setSearchTerm t2 st).
Proof.
  intros (pre & post & E).
  refine (conj _ (conj _ (conj _ (conj _ (conj _ _))))).
  - intros s. rewrite !handleSearch_filtered.
    destruct (allChars isWhiteSpace t1) eqn:B1; [|
      destruct (allChars isWhiteSpace t2) eqn:B2].
    + destruct (allChars isWhiteSpace t2); [auto|].
      intros H. now apply filter_In in H.
    + exfalso. rewrite <- allChars_toLowerCase, E, !allChars_app in B2.
      rewrite allChars_toLowerCase, B1 in B2.
      now rewrite andb_false_r in B2.
    + rewrite !filter_In. intros [Hs M]. split; [assumption|].
      apply matchesTerm_spec in M as (a & b & M).
      apply matchesTerm_spec. exists (a ++ pre)%string, (post ++ b)%string.
      rewrite M, E. now rewrite !append_assoc.
  - intros s. rewrite handleSearch_filtered.
    destruct (allChars isWhiteSpace t2); [auto|].
    intros H. now apply filter_In in H.
  - now rewrite handleSearch_filtered.
  - unfold handleSearch. now rewrite applySearch_sounds.
  - unfold handleSearch, applySearch.
    now destruct (negb (truthyString t2) || negb (truthyString (trim t2))).
  - unfold handleSearch, applySearch.
    now destruct (negb (truthyString t2) || negb (truthyString (trim t2))).
Qed.

Lemma search_narrows_witness :
  In (mkSound "r" "Rain Drops" "" "" false "/r.mp3" (Some "00:07") false
              false)
     (filteredSounds
        (handleSearch "ain"
           (setSounds
              [mkSound "r" "Rain Drops" "" "" false "/r.mp3" (Some "00:07")
                       false false;
               mkSound "w" "Wind" "" "" false "/w.mp3" (Some "00:09")
                       false false]
              initialState))).
Proof.
  apply (proj1 (search_narrows "ain" "Rain D"
                  (setSounds
                     [mkSound "r" "Rain Drops" "" "" false "/r.mp3"
                              (Some "00:07") false false;
                      mkSound "w" "Wind" "" "" false "/w.mp3"
                              (Some "00:09") false false]
                     initialState)
                  (ex_intro _ "r"%string
                     (ex_intro _ " d"%string eq_refl)))).
  left. reflexivity.
Defined.

End SearchFacts.

Module SubmitFacts.

Import JS Form JSFacts.

Lemma toLowerChar_not_upper (c : ascii) :
  EmailInput.isUpper (toLowerChar c) = false.
Proof. destruct c as [[] [] [] [] [] [] [] []]; reflexivity. Qed.

Lemma toLowerCase_no_upper (s : string) :
  allChars (fun c => negb (EmailInput.isUpper c)) (toLowerCase s) = true.
Proof.
  induction s as [|x s IH]; simpl; [reflexivity|].
  now rewrite toLowerChar_not_upper, IH.
Qed.

Lemma toLowerCase_clean (s : string) :
  allChars (fun c => negb (isWhiteSpace c)) s = true ->
  allChars (fun c => negb (isWhiteSpace c)) (toLowerCase s) = true.
Proof.
  induction s as [|x s IH]; simpl; [reflexivity|].
  rewrite isWhiteSpace_toLowerChar. intros H.
  apply andb_true_iff in H as [H1 H2]. now rewrite H1, IH.
Qed.

(** X18. Whatever is typed into the email input of the simplified form,
    the value the form keeps has no white space and no capital letter, and
    the normalisation leaves it as it is (typing it again through the
    input, too).  So for a form filled through the input, the schema and
    [onSubmit] change nothing: when the schema accepts, [signUp] is called
    once, with exactly the values of the form. *)
Theorem email_input_is_normalised (typed : string) :
  allChars (fun c => negb (isWhiteSpace c)) (EmailInput.onChange typed)
  = true
  /\ allChars (fun c => negb (EmailInput.isUpper c))
              (EmailInput.onChange typed) = true
  /\ SignUpSimplified.normalizeEmail (EmailInput.onChange typed)
     = EmailInput.onChange typed
  /\ EmailInput.onChange (EmailInput.onChange typed)
     = EmailInput.onChange typed
  /\ (forall isEmail signUp password agreeToTerms,
         SignUpSimplified.accepts isEmail
           (SignUpSimplified.mkValues (EmailInput.onChange typed) password
                                      agreeToTerms) = true ->
         SignUpSimplified.signUpCalls
           (snd (SignUpSimplified.handleSubmit isEmail signUp
                   (SignUpSimplified.mkValues (EmailInput.onChange typed)
                                              password agreeToTerms)))
         = [SignUpSimplified.mkValues (EmailInput.onChange typed) password
                                      agreeToTerms]).
Proof.
  assert (I : SignUpSimplified.normalizeEmail (EmailInput.onChange typed)
              = EmailInput.onChange typed)
    by apply SignUpFacts.normalizeEmail_idempotent.
  refine (conj _ (conj _ (conj I (conj I _)))).
  - apply toLowerCase_clean, replaceWhitespace_clean.
  - apply toLowerCase_no_upper.
  - intros isEmail signUp password agreeToTerms H.
    unfold SignUpSimplified.accepts in H.
    unfold SignUpSimplified.handleSubmit.
    destruct (SignUpSimplified.signUpSchema isEmail _) as [|data] eqn:E;
      [discriminate|].
    unfold SignUpSimplified.signUpSchema in E.
    destruct (SignUpSimplified.schemaIssues isEmail _); [|discriminate].
    injection E as <-.
    unfold SignUpSimplified.onSubmit. cbv zeta.
    cbn [SignUpSimplified.email SignUpSimplified.password
         SignUpSimplified.agreeToTerms snd].
    rewrite !I.
    cbn [SignUpSimplified.signUpCalls flat_map app]. f_equal.
    destruct (signUp _) as [|[errors|]]; try reflexivity.
    induction (flat_map SignUpSimplified.mapBackendError errors);
      simpl; auto.
Qed.

Lemma email_input_is_normalised_witness :
  SignUpSimplified.signUpCalls
    (snd (SignUpSimplified.handleSubmit Vocabulary.sampleIsEmail
            (fun _ => Resolved)
            (SignUpSimplified.mkValues
               (EmailInput.onChange " Ann Lee@Example.ORG") "secret"
               (VBool true))))
  = [SignUpSimplified.mkValues (EmailInput.onChange " Ann Lee@Example.ORG")
                               "secret" (VBool true)].
Proof.
  destruct (email_input_is_normalised " Ann Lee@Example.ORG")
    as (_ & _ & _ & _ & H).
  apply (H Vocabulary.sampleIsEmail (fun _ => Resolved) "secret"%string
           (VBool true)).
  reflexivity.
Defined.

Lemma setErrorCalls_not_signUp (cs : list setErrorCall) :
  SignUp.signUpCalls (map SignUp.SetError cs) = [].
Proof. induction cs; simpl; auto. Qed.

(** X20. When the full schema accepts a submission, [signUp] is called
    exactly once, with the values exactly as they were entered (the full
    form does not normalise the email), and there is no validation issue;
    this holds whether [signUp] returns or throws. *)
Theorem full_form_submits_values_as_entered
        (isEmail isValidPhoneNumber : string -> bool)
        (signUp : SignUp.values -> signUpOutcome) (v : SignUp.values) :
  SignUp.accepts isEmail isValidPhoneNumber v = true ->
  SignUp.signUpCalls
    (snd (SignUp.handleSubmit isEmail isValidPhoneNumber signUp v)) = [v]
  /\ fst (SignUp.handleSubmit isEmail isValidPhoneNumber signUp v) = [].
Proof.
  unfold SignUp.accepts, SignUp.handleSubmit.
  destruct (SignUp.signUpSchema isEmail isValidPhoneNumber v);
    [intros _ | discriminate].
  split; [|reflexivity].
  unfold SignUp.onSubmit. cbn [snd SignUp.signUpCalls flat_map app].
  f_equal. destruct (signUp v) as [|[errors|]]; try reflexivity.
  apply setErrorCalls_not_signUp.
Qed.

Lemma full_form_submits_values_as_entered_witness :
  SignUp.signUpCalls
    (snd (SignUp.handleSubmit Vocabulary.sampleIsEmail
            Vocabulary.sampleIsPhone (fun _ => Rejected None)
            (SignUp.mkValues "Ann" "+15550100" "Ann@Example.org" "secret"
                             (VBool true))))
  = [SignUp.mkValues "Ann" "+15550100" "Ann@Example.org" "secret"
                     (VBool true)].
Proof.
  apply (full_form_submits_values_as_entered Vocabulary.sampleIsEmail
           Vocabulary.sampleIsPhone (fun _ => Rejected None)
           (SignUp.mkValues "Ann" "+15550100" "Ann@Example.org" "secret"
                            (VBool true))).
  reflexivity.
Defined.

End SubmitFacts.

(* ===================================================================== *)
(** ** Durations that read 00:00                                          *)
(* ===================================================================== *)

Module ZeroDurationFacts.

Import JS SoundList DoubleFacts NumberFacts.

Lemma uint_double_zero (u : Decimal.uint) :
  NilZero.string_of_uint u = "00" -> Pos.of_uint u = 0%N.
Proof.
  destruct u as [|u|u|u|u|u|u|u|u|u|u]; simpl; try discriminate.
  destruct u as [|u|u|u|u|u|u|u|u|u|u]; simpl; try discriminate.
  destruct u; simpl; try discriminate. reflexivity.
Qed.

Lemma pad_reads_zero (z : Z) :
  (0 <= z)%Z -> padStart (intToString z) 2 "0" = "00" -> z = 0%Z.
Proof.
  intros Hz E. destruct (Z_lt_dec z 10) as [L|L].
  - assert (B : (if String.eqb (padStart (intToString z) 2 "0") "00"
                 then (z =? 0)%Z else true) = true).
    { apply (below_by_cases 10
               (fun z => if String.eqb (padStart (intToString z) 2 "0") "00"
                         then (z =? 0)%Z else true)); [reflexivity | lia]. }
    rewrite E in B. simpl in B. now apply Z.eqb_eq in B.
  - rewrite padStart_long in E by (apply intToString_long; lia).
    destruct z as [|p|p]; try lia.
    unfold intToString in E. cbn [Z.to_int NilZero.string_of_int] in E.
    apply uint_double_zero in E.
    rewrite DecimalPos.Unsigned.of_to in E. discriminate.
Qed.

Lemma length_append (a b : string) :
  String.length (a ++ b) = (String.length a + String.length b)%nat.
Proof. induction a; simpl; auto. Qed.

(** X22. For a non-negative finite length, [formatDuration] gives "00:00"
    exactly when the length is below one second.  So in the list a clip
    shorter than a second reads like a clip whose loading failed, and
    [loadAudioDurations] takes it as not loaded yet. *)
Theorem formatDuration_zero_below_one_second (q : Q) :
  (0 <= q)%Q ->
  (formatDuration (Finite q) = "00:00" <-> (q < 1)%Q)
  /\ (forall s,
        (q < 1)%Q ->
        hasDuration (withDuration (formatDuration (Finite q)) s) = false).
Proof.
  intros Hq.
  pose proof (Qfloor_nonneg q Hq) as Hf.
  assert (Hr : (0 <= Qfloor q mod 60 < 60)%Z)
    by (apply Z.mod_pos_bound; lia).
  assert (F : formatDuration (Finite q)
              = (padStart (integralToString (floor (divPos (Finite q) 60)))
                          2 "0" ++ ":"
                 ++ padStart (intToString (Qfloor q mod 60)) 2 "0")%string).
  { unfold formatDuration. now rewrite (floor_remPos q 60 Hq). }
  assert (Z0 : (q < 1)%Q -> Qfloor q = 0%Z).
  { intros H1.
    assert (U : (Qfloor q < 1)%Z).
    { rewrite Zlt_Qlt. apply Qle_lt_trans with q; [apply Qfloor_le|].
      exact H1. }
    lia. }
  assert (Back : (q < 1)%Q -> formatDuration (Finite q) = "00:00").
  { intros H1.
    rewrite F, (Z0 H1), (floor_divPos_below_one q 60 Hq H1) by lia.
    reflexivity. }
  split; [split; [|exact Back]|].
  - intros E. rewrite F in E.
    pose proof (padStart_two
                  (integralToString (floor (divPos (Finite q) 60)))) as L2.
    pose proof (padStart_below_60 (Qfloor q mod 60) Hr) as LS.
    pose proof (f_equal String.length E) as EL.
    set (MM := padStart (integralToString (floor (divPos (Finite q) 60)))
                        2 "0") in *.
    set (SS := padStart (intToString (Qfloor q mod 60)) 2 "0") in *.
    assert (LM : String.length MM = 2%nat).
    { clear - EL L2 LS. rewrite !length_append, LS in EL.
      simpl in EL. lia. }
    assert (EM : MM = "00" /\ SS = "00").
    { destruct MM as [|a [|b [|c MM']]]; try discriminate LM.
      simpl in E. injection E as -> -> ES. now split. }
    destruct EM as [EM ES].
    assert (R0 : (Qfloor q mod 60 = 0)%Z)
      by (apply pad_reads_zero; [lia | exact ES]).
    (* sixty seconds or more do not read 00 minutes *)
    assert (B60 : (q < inject_Z 60)%Q).
    { destruct (Qlt_le_dec q (inject_Z 60)) as [L|G]; [assumption|exfalso].
      destruct (floor_divPos_from_divisor q 60 G) as [I|(z & I & Hz)];
        unfold MM in EM; rewrite I in EM.
      - discriminate EM.
      - cbn [integralToString] in EM.
        apply pad_reads_zero in EM; lia. }
    assert (Q60 : (Qfloor q < 60)%Z).
    { rewrite Zlt_Qlt. apply Qle_lt_trans with q; [apply Qfloor_le|].
      exact B60. }
    assert (Q0 : Qfloor q = 0%Z).
    { rewrite Z.mod_small in R0 by lia. exact R0. }
    pose proof (Qlt_floor q) as U. rewrite Q0 in U. exact U.
  - intros s H1. rewrite (Back H1). reflexivity.
Qed.

Lemma formatDuration_zero_below_one_second_witness :
  formatDuration (Finite (9 # 10)) = "00:00".
Proof.
  apply (formatDuration_zero_below_one_second (9 # 10)).
  - discriminate.
  - reflexivity.
Defined.

End ZeroDurationFacts.
